(** * List Kamba: the offline cache router and the persistence manager

    A shallow embedding of the service worker (cache strategies, offline
    fallback, activation) and of [StorageManager] (tasks, analytics,
    import/export, sync queue), followed by the properties proved of them.

    Conventions of the embedding.
    - A JavaScript string is the list of its UTF-16 code units ([jsstring]).
    - The body of a [Response] is the UTF-8 text it was built from ([string]).
    - An [async] function is modelled by the state it leaves behind once all
      the promises it started have settled, together with the value its own
      promise resolves to. *)

From Stdlib Require Import ZArith NArith List String Ascii Bool Lia Permutation.
From Stdlib Require Import Sorted.
From Stdlib Require Import DecimalString.
Import ListNotations.

Set Implicit Arguments.

(* ================================================================== *)
(** * Part I. Definitions                                              *)
(* ================================================================== *)

(** ** JavaScript strings and primitive values *)

Module JS.

Definition jsstring := list N.

(** A source literal made of ASCII characters only. *)
Definition lit (s : string) : jsstring :=
  map N_of_ascii (list_ascii_of_string s).

Fixpoint str_eqb (a b : jsstring) : bool :=
  match a, b with
  | [], [] => true
  | x :: a', y :: b' => N.eqb x y && str_eqb a' b'
  | _, _ => false
  end.

(** [s.startsWith(p)] *)
Fixpoint startsWith (s p : jsstring) : bool :=
  match p, s with
  | [], _ => true
  | y :: p', x :: s' => N.eqb x y && startsWith s' p'
  | _ :: _, [] => false
  end.

(** [s.includes(p)] *)
Fixpoint includes (s p : jsstring) : bool :=
  startsWith s p ||
  match s with
  | [] => false
  | _ :: s' => includes s' p
  end.

(** White space and line terminators, as [String.prototype.trim] strips
    them. *)
Definition isWhiteSpace (c : N) : bool :=
  ((9 <=? c) && (c <=? 13) || (c =? 32) || (c =? 160) || (c =? 5760)
   || (8192 <=? c) && (c <=? 8202) || (c =? 8232) || (c =? 8233)
   || (c =? 8239) || (c =? 8287) || (c =? 12288) || (c =? 65279))%N.

Fixpoint trimStart (s : jsstring) : jsstring :=
  match s with
  | [] => []
  | c :: s' => if isWhiteSpace c then trimStart s' else s
  end.

Definition trim (s : jsstring) : jsstring :=
  rev (trimStart (rev (trimStart s))).

(** The primitive values a property of a task can hold once it has been
    through JSON. *)
Inductive value :=
| VUndefined
| VNull
| VBool (b : bool)
| VNumber (n : Z)
| VString (s : jsstring).

Definition isEmpty (s : jsstring) : bool :=
  match s with [] => true | _ => false end.

(** ToBoolean *)
Definition truthy (v : value) : bool :=
  match v with
  | VUndefined | VNull => false
  | VBool b => b
  | VNumber n => negb (n =? 0)%Z
  | VString s => negb (isEmpty s)
  end.

(** [a === b] *)
Definition strict_eq (a b : value) : bool :=
  match a, b with
  | VUndefined, VUndefined => true
  | VNull, VNull => true
  | VBool x, VBool y => Bool.eqb x y
  | VNumber x, VNumber y => (x =? y)%Z
  | VString x, VString y => str_eqb x y
  | _, _ => false
  end.

(** [list.includes(v)] on an array of string literals. *)
Definition array_includes (l : list jsstring) (v : value) : bool :=
  existsb (fun s => strict_eq (VString s) v) l.

(** Decimal rendering of an integer, as [String(n)] gives it for the
    integers below 10^21 in absolute value (from there on [String] uses
    the exponent form, which is not modelled; clock readings, lengths and
    the numbers of the stored records are far below). *)
Definition decimal (n : Z) : jsstring :=
  lit (NilZero.string_of_int (Z.to_int n)).

(** ToString *)
Definition toString (v : value) : jsstring :=
  match v with
  | VUndefined => lit "undefined"
  | VNull => lit "null"
  | VBool true => lit "true"
  | VBool false => lit "false"
  | VNumber n => decimal n
  | VString s => s
  end.

(** The outcome of a promise. *)
Inductive settled (A : Type) :=
| Fulfilled (a : A)
| Rejected.
Arguments Rejected {A}.

End JS.
Import JS.

(** ** The service worker (cache router) *)

Module ServiceWorker.

Definition CACHE_NAME : jsstring := lit "list-kamba-v1.0.0".
Definition STATIC_CACHE : jsstring := CACHE_NAME ++ lit "-static".
Definition DYNAMIC_CACHE : jsstring := CACHE_NAME ++ lit "-dynamic".
Definition RUNTIME_CACHE : jsstring := CACHE_NAME ++ lit "-runtime".

(** What the worker reads of a request: its URL (the key under which the
    Cache API files it), the path of that URL, and the request mode. URLs
    are kept relative to the worker's origin, so the string ['/index.html']
    given to [cache.match] is itself a key. *)
Record Request := {
  url : jsstring;
  pathname : jsstring;
  mode : jsstring
}.

Record Response := {
  status : Z;
  statusText : string;
  headers : list (string * string);
  body : string
}.

(** A cache maps request URLs to responses; the cache storage maps cache
    names to caches, in creation order. *)
Definition Cache := list (jsstring * Response).
Definition CacheStorage := list (jsstring * Cache).

(** [cache.match(u)]: [None] is [undefined]. *)
Fixpoint cache_match (c : Cache) (u : jsstring) : option Response :=
  match c with
  | [] => None
  | (k, r) :: c' => if str_eqb k u then Some r else cache_match c' u
  end.

(** [cache.put(u, r)]: an entry already held for the URL is removed, and
    the new one is added at the end. *)
Definition cache_put (c : Cache) (u : jsstring) (r : Response) : Cache :=
  filter (fun e => negb (str_eqb (fst e) u)) c ++ [(u, r)].

(** [caches.keys()] *)
Definition caches_keys (cs : CacheStorage) : list jsstring := map fst cs.

Fixpoint caches_lookup (cs : CacheStorage) (name : jsstring) : option Cache :=
  match cs with
  | [] => None
  | (k, c) :: cs' => if str_eqb k name then Some c else caches_lookup cs' name
  end.

(** [caches.open(name)] creates the cache when it does not exist yet. *)
Definition caches_open (cs : CacheStorage) (name : jsstring)
  : Cache * CacheStorage :=
  match caches_lookup cs name with
  | Some c => (c, cs)
  | None => ([], cs ++ [(name, [])])
  end.

(** [caches.delete(name)] *)
Definition caches_delete (cs : CacheStorage) (name : jsstring) : CacheStorage :=
  filter (fun e => negb (str_eqb (fst e) name)) cs.

(** [cache.put] through a handle obtained from [caches.open(name)]. *)
Fixpoint caches_put (cs : CacheStorage) (name u : jsstring) (r : Response)
  : CacheStorage :=
  match cs with
  | [] => []
  | (k, c) :: cs' =>
      if str_eqb k name then (k, cache_put c u r) :: cs'
      else (k, c) :: caches_put cs' name u r
  end.

(** *** Operands of [||]

    The return expressions of the worker combine responses and promises
    with [||]. A promise is an object, so it is truthy whatever it later
    settles to. *)
Inductive operand :=
| OUndefined
| OResponse (r : Response)
| OPromise (p : option Response).
  (* a promise, with the value it fulfils with; [None] is [undefined] *)

Definition operand_truthy (o : operand) : bool :=
  match o with
  | OUndefined => false
  | OResponse _ => true
  | OPromise _ => true
  end.

Definition of_match (m : option Response) : operand :=
  match m with
  | Some r => OResponse r
  | None => OUndefined
  end.

(** [a || b], where evaluating [b] may touch the cache storage. *)
Definition js_or (a : operand) (b : CacheStorage -> operand * CacheStorage)
  (cs : CacheStorage) : operand * CacheStorage :=
  if operand_truthy a then (a, cs) else b cs.

(** The value the promise of an [async] function resolves to when the
    function returns [o]. *)
Definition resolve (o : operand) : option Response :=
  match o with
  | OUndefined => None
  | OResponse r => Some r
  | OPromise p => p
  end.

Definition dq : string := String (ascii_of_nat 34) EmptyString.
Definition nl : string := String (ascii_of_nat 10) EmptyString.

(** [JSON.stringify] of an object whose properties are strings that need
    no escaping. *)
Definition JSON_stringify_object (props : list (string * string)) : string :=
  ("{" ++ String.concat ","
            (map (fun p => dq ++ fst p ++ dq ++ ":" ++ dq ++ snd p ++ dq) props)
       ++ "}")%string.

Definition offline_api_payload : list (string * string) :=
  [("error", "offline");
   ("message",
    "Você está offline. Os dados serão sincronizados quando a conexão for restaurada.")
  ]%string.

Definition offline_api_response : Response := {|
  status := 503;
  statusText := "Service Unavailable";
  headers := [("Content-Type", "application/json")]%string;
  body := JSON_stringify_object offline_api_payload
|}.

Definition offline_page_lines : list string :=
  [
     "<!DOCTYPE html>";
     "    <html lang=" ++ dq ++ "pt-AO" ++ dq ++ ">";
     "    <head>";
     "      <meta charset=" ++ dq ++ "UTF-8" ++ dq ++ ">";
     "      <meta name=" ++ dq ++ "viewport" ++ dq ++ " content=" ++ dq ++ "width=device-width, initial-scale=1.0" ++ dq ++ ">";
     "      <title>Offline - List Kamba</title>";
     "      <style>";
     "        body { ";
     "          font-family: -apple-system, BlinkMacSystemFont, 'Segoe UI', Roboto, sans-serif;";
     "          text-align: center; ";
     "          padding: 40px; ";
     "          background: #f5f5f5; ";
     "        }";
     "        .offline-message { ";
     "          max-width: 400px; ";
     "          margin: 0 auto; ";
     "          background: white; ";
     "          padding: 40px; ";
     "          border-radius: 12px; ";
     "          box-shadow: 0 4px 6px rgba(0,0,0,0.1);";
     "        }";
     "        .offline-icon { font-size: 64px; margin-bottom: 20px; }";
     "        h1 { color: #2F5F8F; margin-bottom: 16px; }";
     "        p { color: #666; line-height: 1.6; }";
     "        button { ";
     "          background: #2F5F8F; ";
     "          color: white; ";
     "          border: none; ";
     "          padding: 12px 24px; ";
     "          border-radius: 6px; ";
     "          cursor: pointer; ";
     "          margin-top: 20px;";
     "        }";
     "      </style>";
     "    </head>";
     "    <body>";
     "      <div class=" ++ dq ++ "offline-message" ++ dq ++ ">";
     "        <div class=" ++ dq ++ "offline-icon" ++ dq ++ ">📱</div>";
     "        <h1>Você está offline</h1>";
     "        <p>Não foi possível carregar esta página. Verifique sua conexão com a internet e tente novamente.</p>";
     "        <p>O List Kamba funciona offline para a maioria das funcionalidades!</p>";
     "        <button onclick=" ++ dq ++ "window.location.reload()" ++ dq ++ ">Tentar Novamente</button>";
     "      </div>";
     "    </body>";
     "    </html>"
  ]%string.

Definition offline_page_response : Response := {|
  status := 200;
  statusText := EmptyString;
  headers := [("Content-Type", "text/html")]%string;
  body := String.concat nl offline_page_lines
|}.

(** [handleOfflineRequest(request)]: the value its promise resolves to
    ([None] is [undefined]) and the cache storage afterwards. *)
Definition handleOfflineRequest (request : Request) (cs : CacheStorage)
  : option Response * CacheStorage :=
  if str_eqb (mode request) (lit "navigate") then
    let (cache, cs1) := caches_open cs STATIC_CACHE in
    let (o, cs2) :=
      js_or (OPromise (cache_match cache (lit "/index.html")))
            (fun s => (OPromise (cache_match cache (lit "/")), s)) cs1 in
    (resolve o, cs2)
  else if startsWith (pathname request) (lit "/api/") then
    (Some offline_api_response, cs)
  else
    (Some offline_page_response, cs).

(** [staleWhileRevalidate(request)], given what [fetch(request)] settles
    to. The return expression is evaluated before the fetch settles; the
    refresh of the runtime cache happens afterwards. *)
Definition staleWhileRevalidate (network : settled Response)
  (request : Request) (cs : CacheStorage) : option Response * CacheStorage :=
  let (cache, cs1) := caches_open cs RUNTIME_CACHE in
  let cachedResponse := cache_match cache (url request) in
  let fetchPromise :=
    OPromise (match network with
              | Fulfilled networkResponse => Some networkResponse
              | Rejected => None   (* the catch handler logs and returns nothing *)
              end) in
  let (o1, cs2) := js_or (of_match cachedResponse) (fun s => (fetchPromise, s)) cs1 in
  let (o, cs3) :=
    js_or o1 (fun s => let (r, s') := handleOfflineRequest request s in
                       (OPromise r, s')) cs2 in
  let cs4 :=
    match network with
    | Fulfilled networkResponse =>
        if (status networkResponse =? 200)%Z
        then caches_put cs3 RUNTIME_CACHE (url request) networkResponse
        else cs3
    | Rejected => cs3
    end in
  (resolve o, cs4).

(** The decision taken for each cache name by the [activate] listener. *)
Definition isOldCache (cacheName : jsstring) : bool :=
  includes cacheName (lit "list-kamba")
  && negb (str_eqb cacheName STATIC_CACHE)
  && negb (str_eqb cacheName DYNAMIC_CACHE)
  && negb (str_eqb cacheName RUNTIME_CACHE).

(** The callback mapped over [cacheNames]. *)
Definition evict (acc : CacheStorage) (cacheName : jsstring) : CacheStorage :=
  if isOldCache cacheName then caches_delete acc cacheName else acc.

(** The cache storage once the promise given to [event.waitUntil] by the
    [activate] listener has settled. *)
Definition activate (cs : CacheStorage) : CacheStorage :=
  fold_left evict (caches_keys cs) cs.

End ServiceWorker.

(** ** The persistence manager *)

Module StorageManager.

(** *** Data model *)

(** A date-valued property. The program writes such properties with
    [toISOString] and reads them back with [new Date(...)]; an ISO string is
    kept as the instant it denotes, in milliseconds since the epoch. *)
Inductive stamp :=
| SUndefined            (* the property is absent (or the empty string) *)
| SNull                 (* [null]: falsy, and [new Date(null)] is the epoch *)
| SInstant (ms : Z)     (* a truthy value that [Date] reads as [ms] *)
| SInvalid.             (* a truthy value that [Date] cannot read *)

Definition stamp_truthy (s : stamp) : bool :=
  match s with
  | SInstant _ | SInvalid => true
  | SUndefined | SNull => false
  end.

(** The time value of [new Date(s)]; [None] is [NaN]. *)
Definition time_value (s : stamp) : option Z :=
  match s with
  | SUndefined | SInvalid => None
  | SNull => Some 0%Z
  | SInstant ms => Some ms
  end.

Record Task := {
  id : value;
  title : value;
  description : value;
  category : value;
  priority : value;
  status : value;
  dueDate : stamp;
  createdAt : stamp;
  updatedAt : stamp;
  completedAt : stamp
}.

Definition set_id (v : value) (t : Task) : Task :=
  {| id := v; title := title t; description := description t;
     category := category t; priority := priority t; status := status t;
     dueDate := dueDate t; createdAt := createdAt t;
     updatedAt := updatedAt t; completedAt := completedAt t |}.

Definition set_title (v : value) (t : Task) : Task :=
  {| id := id t; title := v; description := description t;
     category := category t; priority := priority t; status := status t;
     dueDate := dueDate t; createdAt := createdAt t;
     updatedAt := updatedAt t; completedAt := completedAt t |}.

Definition set_description (v : value) (t : Task) : Task :=
  {| id := id t; title := title t; description := v;
     category := category t; priority := priority t; status := status t;
     dueDate := dueDate t; createdAt := createdAt t;
     updatedAt := updatedAt t; completedAt := completedAt t |}.

Definition set_category (v : value) (t : Task) : Task :=
  {| id := id t; title := title t; description := description t;
     category := v; priority := priority t; status := status t;
     dueDate := dueDate t; createdAt := createdAt t;
     updatedAt := updatedAt t; completedAt := completedAt t |}.

Definition set_priority (v : value) (t : Task) : Task :=
  {| id := id t; title := title t; description := description t;
     category := category t; priority := v; status := status t;
     dueDate := dueDate t; createdAt := createdAt t;
     updatedAt := updatedAt t; completedAt := completedAt t |}.

Definition set_status (v : value) (t : Task) : Task :=
  {| id := id t; title := title t; description := description t;
     category := category t; priority := priority t; status := v;
     dueDate := dueDate t; createdAt := createdAt t;
     updatedAt := updatedAt t; completedAt := completedAt t |}.

Definition set_createdAt (s : stamp) (t : Task) : Task :=
  {| id := id t; title := title t; description := description t;
     category := category t; priority := priority t; status := status t;
     dueDate := dueDate t; createdAt := s;
     updatedAt := updatedAt t; completedAt := completedAt t |}.

Definition set_updatedAt (s : stamp) (t : Task) : Task :=
  {| id := id t; title := title t; description := description t;
     category := category t; priority := priority t; status := status t;
     dueDate := dueDate t; createdAt := createdAt t;
     updatedAt := s; completedAt := completedAt t |}.

Definition set_completedAt (s : stamp) (t : Task) : Task :=
  {| id := id t; title := title t; description := description t;
     category := category t; priority := priority t; status := status t;
     dueDate := dueDate t; createdAt := createdAt t;
     updatedAt := updatedAt t; completedAt := s |}.

(** A number that may be [NaN]. *)
Inductive number :=
| NaN
| Num (n : Z).

(** The [data] of the analytics events the manager records itself. *)
Inductive payload :=
| TaskSavedData (taskId category priority : value)
| TaskDeletedData (taskId : value)
| TaskCompletedData (taskId category priority : value)
    (daysToComplete : option number)      (* [None] is [null] *)
| DataImportedData (tasksCount : nat) (importDate : stamp)
| FreeData (v : value).

Record Event := {
  event_id : value;
  event_type : jsstring;
  data : payload;
  date : stamp;
  timestamp : Z
}.

Record Setting := {
  key : jsstring;
  setting_value : value
}.

(** An operation waiting in the sync queue is a closure. Of its behaviour
    the queue only observes whether a given invocation throws; the closure
    remembers how often it has been invoked. *)
Record thunk := {
  invocations : nat;
  throwsOn : nat -> bool
}.

Definition invoke (op : thunk) : bool * thunk :=
  (throwsOn op (invocations op),
   {| invocations := S (invocations op); throwsOn := throwsOn op |}).

Record QueueItem := {
  item_id : jsstring;
  operation : thunk;
  item_timestamp : Z
}.

(** *** IndexedDB object stores

    An object store keeps its records in key order; the key of a record is
    read from it along the store's key path. Of the values of this model,
    numbers and strings are valid keys, and numbers sort before strings. *)

Definition valid_key (k : value) : bool :=
  match k with
  | VNumber _ | VString _ => true
  | _ => false
  end.

Fixpoint str_compare (a b : jsstring) : comparison :=
  match a, b with
  | [], [] => Eq
  | [], _ :: _ => Lt
  | _ :: _, [] => Gt
  | x :: a', y :: b' =>
      match N.compare x y with
      | Eq => str_compare a' b'
      | c => c
      end
  end.

Definition type_rank (v : value) : nat :=
  match v with
  | VUndefined => 0
  | VNull => 1
  | VBool _ => 2
  | VNumber _ => 3
  | VString _ => 4
  end.

(** The order of keys. Only numbers and strings are ever keys; the other
    values are placed before them so that the comparison is total. *)
Definition key_compare (a b : value) : comparison :=
  match a, b with
  | VNumber x, VNumber y => Z.compare x y
  | VString x, VString y => str_compare x y
  | VBool x, VBool y => Bool.compare x y
  | _, _ => Nat.compare (type_rank a) (type_rank b)
  end.

Definition key_eqb (a b : value) : bool :=
  match key_compare a b with Eq => true | _ => false end.

Section ObjectStore.
Variable A : Type.
Variable keyOf : A -> value.

(** [store.put(r)] *)
Fixpoint store_put (r : A) (s : list A) : list A :=
  match s with
  | [] => [r]
  | x :: s' =>
      match key_compare (keyOf r) (keyOf x) with
      | Eq => r :: s'
      | Lt => r :: x :: s'
      | Gt => x :: store_put r s'
      end
  end.

(** [store.get(k)] *)
Definition store_get (k : value) (s : list A) : option A :=
  find (fun x => key_eqb (keyOf x) k) s.

(** [store.delete(k)] *)
Definition store_delete (k : value) (s : list A) : list A :=
  filter (fun x => negb (key_eqb (keyOf x) k)) s.
End ObjectStore.

Record database := {
  tasksStore : list Task;
  settingsStore : list Setting;
  analyticsStore : list Event
}.

(** *** localStorage, through [Utils.Storage]

    The items are JSON texts, kept as the data they parse to. The keys the
    manager uses start with the name of one of its three stores; the items
    are kept in three areas accordingly, each holding single records and
    arrays of records of its store. The mirror of the sync queue lives under
    the key ['syncQueue']; [JSON.stringify] drops the function-valued
    [operation] of its items. *)
Inductive blob (A : Type) :=
| One (a : A)
| Many (l : list A).

Definition area (A : Type) := list (jsstring * blob A).

Record local_storage := {
  taskItems : area Task;
  settingItems : area Setting;
  analyticsItems : area Event;
  syncQueueItem : option (list (jsstring * Z))
}.

Section Area.
Variable A : Type.

(** [Utils.Storage.get(k)], with the default [null] as [None] *)
Fixpoint area_get (k : jsstring) (a : area A) : option (blob A) :=
  match a with
  | [] => None
  | (k', b) :: a' => if str_eqb k' k then Some b else area_get k a'
  end.

(** [Utils.Storage.set(k, b)] *)
Fixpoint area_set (k : jsstring) (b : blob A) (a : area A) : area A :=
  match a with
  | [] => [(k, b)]
  | (k', b') :: a' =>
      if str_eqb k' k then (k', b) :: a' else (k', b') :: area_set k b a'
  end.

(** [Utils.Storage.remove(k)] *)
Definition area_remove (k : jsstring) (a : area A) : area A :=
  filter (fun e => negb (str_eqb (fst e) k)) a.
End Area.

(** *** The manager's state and its environment *)

(** What the platform supplies: the successive readings of [Date.now()],
    the successive values of [Math.random().toString(36).substr(2, 9)], the
    offset of local time from UTC in milliseconds (taken constant, as in
    Angola, which has no daylight saving), and the Unicode functions
    [String.prototype.toLowerCase] and [normalize('NFD')]. *)
Record platform := {
  clock : nat -> Z;
  random : nat -> jsstring;
  tzOffset : Z;
  toLowerCase : jsstring -> jsstring;
  normalizeNFD : jsstring -> jsstring
}.

Record world := {
  db : option database;        (* [this.db]; [None] when IndexedDB failed *)
  localStorage : local_storage;
  isOnline : bool;
  syncQueue : list QueueItem;
  tick : nat                   (* how many platform readings were taken *)
}.

Definition with_db (d : option database) (w : world) : world :=
  {| db := d; localStorage := localStorage w; isOnline := isOnline w;
     syncQueue := syncQueue w; tick := tick w |}.

Definition with_localStorage (l : local_storage) (w : world) : world :=
  {| db := db w; localStorage := l; isOnline := isOnline w;
     syncQueue := syncQueue w; tick := tick w |}.

Definition with_syncQueue (q : list QueueItem) (w : world) : world :=
  {| db := db w; localStorage := localStorage w; isOnline := isOnline w;
     syncQueue := q; tick := tick w |}.

Definition with_tick (n : nat) (w : world) : world :=
  {| db := db w; localStorage := localStorage w; isOnline := isOnline w;
     syncQueue := syncQueue w; tick := n |}.

(** *** Exceptions and the state monad of the manager *)

Inductive error :=
| ValidationError      (* [Error('Task title is required')] *)
| FormatError          (* [Error('Invalid data format: tasks not found')] *)
| TypeError
| DataError            (* IndexedDB: the value is not a valid key *)
| SyntaxError.         (* [JSON.parse] *)

Inductive result (A : Type) :=
| Ok (a : A)
| Throw (e : error).
Arguments Throw {A}.

Definition M (A : Type) := world -> result A * world.

Definition ret {A} (a : A) : M A := fun w => (Ok a, w).

Definition throw {A} (e : error) : M A := fun w => (Throw e, w).

Definition bind {A B} (m : M A) (k : A -> M B) : M B :=
  fun w =>
    match m w with
    | (Ok a, w') => k a w'
    | (Throw e, w') => (Throw e, w')
    end.

(** [try { m } catch (error) { h error }] *)
Definition try_catch {A} (m : M A) (h : error -> M A) : M A :=
  fun w =>
    match m w with
    | (Ok a, w') => (Ok a, w')
    | (Throw e, w') => h e w'
    end.

Definition get_world : M world := fun w => (Ok w, w).
Definition modify (f : world -> world) : M unit := fun w => (Ok tt, f w).

Notation "x <- m ;; k" := (bind m (fun x => k))
  (at level 61, m at next level, right associativity).
Notation "m ;;; k" := (bind m (fun _ => k))
  (at level 61, right associativity).

(** [for (const x of l) { await body(x) }] *)
Fixpoint for_of {A} (l : list A) (body : A -> M unit) : M unit :=
  match l with
  | [] => ret tt
  | x :: l' => body x ;;; for_of l' body
  end.

(** [l.filter(p)] where the predicate may throw. *)
Fixpoint filter_result {A} (p : A -> result bool) (l : list A)
  : result (list A) :=
  match l with
  | [] => Ok []
  | x :: l' =>
      match p x with
      | Throw e => Throw e
      | Ok b =>
          match filter_result p l' with
          | Throw e => Throw e
          | Ok r => Ok (if b then x :: r else r)
          end
      end
  end.

Definition lift_result {A} (r : result A) : M A := fun w => (r, w).

(** *** Utilities ([Utils.String], [Utils.Angola], [Array.prototype.sort]) *)

(** The text of a DOM text node as [innerHTML] serialises it. *)
Definition escapeChar (c : N) : jsstring :=
  if (c =? 38)%N then lit "&amp;"
  else if (c =? 160)%N then lit "&nbsp;"
  else if (c =? 60)%N then lit "&lt;"
  else if (c =? 62)%N then lit "&gt;"
  else [c].

Definition escapeText (s : jsstring) : jsstring := flat_map escapeChar s.

(** [Utils.String.sanitizeHtml(str)] *)
Definition sanitizeHtml (str : value) : jsstring :=
  if negb (truthy str) then []
  else escapeText (toString str).

Definition taskCategories : list jsstring :=
  [lit "pessoal"; lit "trabalho"; lit "familia"; lit "saude";
   lit "financas"; lit "educacao"; lit "lazer"; lit "outros"].

Definition validPriorities : list jsstring :=
  [lit "alta"; lit "media"; lit "baixa"].

Definition validStatuses : list jsstring :=
  [lit "pending"; lit "completed"; lit "archived"].

Section ArraySort.
Variable A : Type.
Variable comparefn : A -> A -> option Z.    (* [None] is [NaN] *)

(** The sort key the platform derives from the comparator: [NaN] counts
    as zero. *)
Definition sortCompare (x y : A) : Z :=
  match comparefn x y with
  | Some v => v
  | None => 0%Z
  end.

Fixpoint insert (x : A) (l : list A) : list A :=
  match l with
  | [] => [x]
  | y :: l' => if (sortCompare x y <=? 0)%Z then x :: l else y :: insert x l'
  end.

(** [l.sort(comparefn)]. For a comparator that is consistent on the
    elements (it never returns [NaN] and orders them as a total preorder)
    the language fixes the result: the elements in ascending order, equal
    ones in their original order; that is what this stable insertion sort
    computes. For the other comparators the language leaves the order to
    the engine; of the result computed here only the fact that it is a
    rearrangement of [l] is then meaningful, and nothing more is stated
    of it below. *)
Definition Array_sort (l : list A) : list A := fold_right insert [] l.
End ArraySort.

(** *** Objects used as maps

    The own properties of an object are listed with the array indices
    first, in ascending order, and the other keys after them in the order
    of their creation. *)










(** *** Store descriptors: one per entry of [this.stores] *)

Record store_desc (A : Type) := {
  storeName : jsstring;
  data_id : A -> value;                  (* [data.id] *)
  keyPath : A -> value;                  (* the record's key in IndexedDB *)
  objects : database -> list A;
  with_objects : list A -> database -> database;
  items : local_storage -> area A;
  with_items : area A -> local_storage -> local_storage
}.

Definition tasks : store_desc Task := {|
  storeName := lit "tasks";
  data_id := id;
  keyPath := id;
  objects := tasksStore;
  with_objects := fun s d =>
    {| tasksStore := s; settingsStore := settingsStore d;
       analyticsStore := analyticsStore d |};
  items := taskItems;
  with_items := fun a l =>
    {| taskItems := a; settingItems := settingItems l;
       analyticsItems := analyticsItems l; syncQueueItem := syncQueueItem l |}
|}.

Definition settings : store_desc Setting := {|
  storeName := lit "settings";
  data_id := fun _ => VUndefined;
  keyPath := fun s => VString (key s);
  objects := settingsStore;
  with_objects := fun s d =>
    {| tasksStore := tasksStore d; settingsStore := s;
       analyticsStore := analyticsStore d |};
  items := settingItems;
  with_items := fun a l =>
    {| taskItems := taskItems l; settingItems := a;
       analyticsItems := analyticsItems l; syncQueueItem := syncQueueItem l |}
|}.

Definition analytics : store_desc Event := {|
  storeName := lit "analytics";
  data_id := event_id;
  keyPath := event_id;
  objects := analyticsStore;
  with_objects := fun s d =>
    {| tasksStore := tasksStore d; settingsStore := settingsStore d;
       analyticsStore := s |};
  items := analyticsItems;
  with_items := fun a l =>
    {| taskItems := taskItems l; settingItems := settingItems l;
       analyticsItems := a; syncQueueItem := syncQueueItem l |}
|}.

(** What [getFromStore] resolves to. *)
Inductive fetched (A : Type) :=
| FNothing               (* [undefined] or [null] *)
| FOne (a : A)
| FMany (l : list A).
Arguments FNothing {A}.

(** [if (!Array.isArray(x)) x = x ? [x] : []] *)
Definition as_array {A} (f : fetched A) : list A :=
  match f with
  | FMany l => l
  | FOne a => [a]
  | FNothing => []
  end.

Definition fetched_of_blob {A} (b : option (blob A)) : fetched A :=
  match b with
  | None => FNothing
  | Some (One a) => FOne a
  | Some (Many l) => FMany l
  end.

Definition fetched_of_option {A} (o : option A) : fetched A :=
  match o with
  | None => FNothing
  | Some a => FOne a
  end.

Record TaskFilters := {
  f_status : value;
  f_category : value;
  f_priority : value;
  f_today : value;
  f_search : value
}.

Definition no_filters : TaskFilters := {|
  f_status := VUndefined; f_category := VUndefined; f_priority := VUndefined;
  f_today := VUndefined; f_search := VUndefined
|}.

Record AnalyticsFilters := {
  a_type : value;
  a_startDate : stamp;
  a_endDate : stamp
}.


(** What [JSON.parse] makes of the text given to [importData]. *)
Record parsed := {
  p_tasks : option (list Task);     (* [None]: absent, or not an array *)
  p_settings : option (list (jsstring * value));   (* [None]: falsy *)
  p_exportDate : stamp
}.

Inductive json_text :=
| Malformed                 (* [JSON.parse] throws *)
| JsonNull                  (* the text [null] *)
| Json (d : parsed).



Definition MS_PER_HOUR : Z := 60 * 60 * 1000.
Definition MS_PER_DAY : Z := 1000 * 60 * 60 * 24.

(** [Math.ceil(a / b)] for a positive [b] *)
Definition ceil_div (a b : Z) : Z := (- ((- a) / b))%Z.

(** [new Date(x) - new Date(y)] *)
Definition date_minus (x y : stamp) : option Z :=
  match time_value x, time_value y with
  | Some a, Some b => Some (a - b)%Z
  | _, _ => None
  end.

(** [new Date(x) <= new Date(y)] *)
Definition date_le (x y : stamp) : bool :=
  match time_value x, time_value y with
  | Some a, Some b => (a <=? b)%Z
  | _, _ => false
  end.

(** The members every object literal inherits from [Object.prototype]. *)
Definition inheritedMembers : list jsstring :=
  [lit "constructor"; lit "__defineGetter__"; lit "__defineSetter__";
   lit "hasOwnProperty"; lit "__lookupGetter__"; lit "__lookupSetter__";
   lit "isPrototypeOf"; lit "propertyIsEnumerable"; lit "toString";
   lit "valueOf"; lit "__proto__"; lit "toLocaleString"].

(** What the lookup of a priority gives: a number of the table (or the
    default), or, for the name of an inherited member, that member, which
    is a function or an object and so truthy. *)
Inductive rank :=
| Rank (n : Z)
| Member (name : jsstring).

(** [priorityOrder[p] || 1] *)
Definition priorityRank (p : value) : rank :=
  let k := toString p in
  if str_eqb k (lit "alta") then Rank 3
  else if str_eqb k (lit "media") then Rank 2
  else if str_eqb k (lit "baixa") then Rank 1
  else if existsb (str_eqb k) inheritedMembers then Member k
  else Rank 1.

(** [x === y] on two such values: the inherited members are distinct
    objects. *)
Definition rank_eqb (x y : rank) : bool :=
  match x, y with
  | Rank n, Rank m => (n =? m)%Z
  | Member a, Member b => str_eqb a b
  | _, _ => false
  end.

(** [x - y]: a function or an object converts to [NaN]. *)
Definition rank_minus (x y : rank) : option Z :=
  match x, y with
  | Rank n, Rank m => Some (n - m)%Z
  | _, _ => None
  end.

(** The comparator given to [tasks.sort] in [getTasks]. *)
Definition compareTasks (a b : Task) : option Z :=
  let aPriority := priorityRank (priority a) in
  let bPriority := priorityRank (priority b) in
  if negb (rank_eqb aPriority bPriority) then rank_minus bPriority aPriority
  else if stamp_truthy (dueDate a) && stamp_truthy (dueDate b)
  then date_minus (dueDate a) (dueDate b)
  else date_minus (createdAt b) (createdAt a).

(** *** The operations of [StorageManager] *)

Section Operations.
Variable P : platform.

(** [Date.now()] *)
Definition Date_now : M Z :=
  fun w => (Ok (clock P (tick w)), with_tick (S (tick w)) w).

(** [Math.random().toString(36).substr(2, 9)] *)
Definition Math_random36 : M jsstring :=
  fun w => (Ok (random P (tick w)), with_tick (S (tick w)) w).

(** [Utils.Date.now()]: the [Date] object, as its time value *)
Definition Utils_Date_now : M Z :=
  n <- Date_now ;; ret (n + MS_PER_HOUR)%Z.

(** [d.toISOString()] *)
Definition toISOString (d : Z) : stamp := SInstant d.

(** [Utils.String.generateId()] *)
Definition generateId : M jsstring :=
  r <- Math_random36 ;;
  n <- Date_now ;;
  ret (lit "id_" ++ r ++ lit "_" ++ decimal n).

(** [Utils.String.removeAccents(str)] *)
Definition removeAccents (str : jsstring) : jsstring :=
  if isEmpty str then []
  else filter (fun c => negb ((768 <=? c) && (c <=? 879))%N)
              (normalizeNFD P str).

(** [Utils.String.searchMatch(text, search)] *)
Definition searchMatch (text : value) (search : jsstring) : result bool :=
  if negb (truthy text) || isEmpty search then Ok false
  else
    match text with
    | VString s =>
        Ok (includes (removeAccents (toLowerCase P s))
                     (removeAccents (toLowerCase P search)))
    | _ => Throw TypeError        (* [text.toLowerCase] is not a function *)
    end.

(** The key of a store's item in localStorage:
    [storeName + (k ? '_' + k : '')] *)
Definition itemKey {A} (S : store_desc A) (k : value) : jsstring :=
  storeName S ++ (if truthy k then lit "_" ++ toString k else []).

Definition getFromStore {A} (S : store_desc A) (k : value) : M (fetched A) :=
  w <- get_world ;;
  match db w with
  | None =>
      ret (fetched_of_blob (area_get (itemKey S k) (items S (localStorage w))))
  | Some d =>
      if truthy k then
        if valid_key k
        then ret (fetched_of_option (store_get (keyPath S) k (objects S d)))
        else throw DataError
      else ret (FMany (objects S d))
  end.

Definition saveToStore {A} (S : store_desc A) (data : A) : M unit :=
  w <- get_world ;;
  match db w with
  | None =>
      let l := localStorage w in
      modify (with_localStorage
                (with_items S (area_set (itemKey S (data_id S data)) (One data)
                                        (items S l)) l))
  | Some d =>
      if valid_key (keyPath S data)
      then modify (with_db
                     (Some (with_objects S
                              (store_put (keyPath S) data (objects S d)) d)))
      else throw DataError
  end.

Definition deleteFromStore {A} (S : store_desc A) (k : value) : M unit :=
  w <- get_world ;;
  match db w with
  | None =>
      let l := localStorage w in
      modify (with_localStorage
                (with_items S (area_remove (storeName S ++ lit "_" ++ toString k)
                                           (items S l)) l))
  | Some d =>
      if valid_key k
      then modify (with_db
                     (Some (with_objects S
                              (store_delete (keyPath S) k (objects S d)) d)))
      else throw DataError
  end.

(** The local calendar day of an instant, which is what two equal
    [toDateString()] results have in common. *)
Definition localDay (ms : Z) : Z := ((ms + tzOffset P) / MS_PER_DAY)%Z.

Definition dueOn (today : Z) (task : Task) : bool :=
  if negb (stamp_truthy (dueDate task)) then false
  else
    match time_value (dueDate task) with
    | Some ms => (localDay ms =? localDay today)%Z
    | None => false           (* ['Invalid Date'] *)
    end.

Definition matchesSearch (searchTerm : jsstring) (task : Task) : result bool :=
  match searchMatch (title task) searchTerm with
  | Throw e => Throw e
  | Ok true => Ok true
  | Ok false => searchMatch (description task) searchTerm
  end.

(** "Apply filters" *)
Definition applyFilters (filters : TaskFilters) (tasks0 : list Task)
  : M (list Task) :=
  let tasks1 :=
    if truthy (f_status filters)
    then filter (fun task => strict_eq (status task) (f_status filters)) tasks0
    else tasks0 in
  let tasks2 :=
    if truthy (f_category filters)
    then filter (fun task => strict_eq (category task) (f_category filters)) tasks1
    else tasks1 in
  let tasks3 :=
    if truthy (f_priority filters)
    then filter (fun task => strict_eq (priority task) (f_priority filters)) tasks2
    else tasks2 in
  tasks4 <- (if truthy (f_today filters)
             then today <- Utils_Date_now ;; ret (filter (dueOn today) tasks3)
             else ret tasks3) ;;
  if truthy (f_search filters)
  then
    match f_search filters with
    | VString s =>
        lift_result (filter_result (matchesSearch (toLowerCase P s)) tasks4)
    | _ => throw TypeError     (* [filters.search.toLowerCase] is not a function *)
    end
  else ret tasks4.

Definition getTasks (filters : TaskFilters) : M (list Task) :=
  try_catch
    (f <- getFromStore tasks VNull ;;
     tasks <- applyFilters filters (as_array f) ;;
     (* Sort by priority and due date *)
     ret (Array_sort compareTasks tasks))
    (fun _ => ret []).

Definition getTask (i : value) : M (fetched Task) :=
  try_catch
    (w <- get_world ;;
     match db w with
     | Some _ => getFromStore tasks i
     | None =>
         l <- getTasks no_filters ;;
         ret (fetched_of_option (find (fun task => strict_eq (id task) i) l))
     end)
    (fun _ => ret FNothing).

Definition trackEvent (type : jsstring) (d : payload) : M bool :=
  try_catch
    (i <- generateId ;;
     now <- Utils_Date_now ;;
     ts <- Date_now ;;
     saveToStore analytics
       {| event_id := VString i; event_type := type; data := d;
          date := toISOString now; timestamp := ts |} ;;;
     ret true)
    (fun _ => ret false).

(** [saveTask], block by block. *)

(** "Validate task data" *)
Definition validateTitle (task : Task) : M unit :=
  if negb (truthy (title task)) then throw ValidationError
  else
    match title task with
    | VString s => if isEmpty (trim s) then throw ValidationError else ret tt
    | _ => throw TypeError      (* [task.title.trim] is not a function *)
    end.

(** "Set defaults", and the refresh of [updatedAt] *)
Definition setDefaults (task : Task) : M Task :=
  task <- (if negb (truthy (id task))
           then i <- generateId ;; ret (set_id (VString i) task)
           else ret task) ;;
  task <- (if negb (stamp_truthy (createdAt task))
           then now <- Utils_Date_now ;; ret (set_createdAt (toISOString now) task)
           else ret task) ;;
  now <- Utils_Date_now ;;
  ret (set_updatedAt (toISOString now) task).

(** "Sanitize data" *)
Definition sanitizeData (task : Task) : Task :=
  let task := set_title (VString (sanitizeHtml (title task))) task in
  set_description
    (VString (sanitizeHtml (if truthy (description task)
                            then description task else VString [])))
    task.

(** "Validate priority" *)
Definition validatePriority (task : Task) : Task :=
  if negb (array_includes validPriorities (priority task))
  then set_priority (VString (lit "media")) task else task.

(** "Validate category" *)
Definition validateCategory (task : Task) : Task :=
  if negb (array_includes taskCategories (category task))
  then set_category (VString (lit "outros")) task else task.

(** "Validate status" *)
Definition validateStatus (task : Task) : Task :=
  if negb (array_includes validStatuses (status task))
  then set_status (VString (lit "pending")) task else task.

Definition saveTask (task : Task) : M Task :=
  try_catch
    (validateTitle task ;;;
     task <- setDefaults task ;;
     let task := sanitizeData task in
     let task := validatePriority task in
     let task := validateCategory task in
     let task := validateStatus task in
     saveToStore tasks task ;;;
     (* Track analytics *)
     trackEvent (lit "task_saved")
       (TaskSavedData (id task) (category task) (priority task)) ;;;
     ret task)
    (fun e => throw e).

Definition deleteTask (i : value) : M bool :=
  try_catch
    (deleteFromStore tasks i ;;;
     trackEvent (lit "task_deleted") (TaskDeletedData i) ;;;
     ret true)
    (fun _ => ret false).

(** [Math.ceil((new Date(task.completedAt) - new Date(task.createdAt))
    / (1000 * 60 * 60 * 24))] *)
Definition daysBetween (from to : stamp) : number :=
  match date_minus to from with
  | Some d => Num (ceil_div d MS_PER_DAY)
  | None => NaN
  end.

Definition completeTask (i : value) : M bool :=
  try_catch
    (f <- getTask i ;;
     match f with
     | FNothing => ret false
     | FMany _ =>
         (* an array came back: it is truthy and has no title *)
         Utils_Date_now ;;; throw ValidationError
     | FOne task =>
         let task := set_status (VString (lit "completed")) task in
         now <- Utils_Date_now ;;
         let task := set_completedAt (toISOString now) task in
         task <- saveTask task ;;
         trackEvent (lit "task_completed")
           (TaskCompletedData i (category task) (priority task)
              (if stamp_truthy (dueDate task)
               then Some (daysBetween (createdAt task) (completedAt task))
               else None)) ;;;
         ret true
     end)
    (fun _ => ret false).

Definition setSetting (k : jsstring) (v : value) : M bool :=
  try_catch
    (saveToStore settings {| key := k; setting_value := v |} ;;; ret true)
    (fun _ => ret false).

Definition getAnalytics (filters : AnalyticsFilters) : M (list Event) :=
  try_catch
    (f <- getFromStore analytics VNull ;;
     let events0 := as_array f in
     let events1 :=
       if truthy (a_type filters)
       then filter (fun event => strict_eq (VString (event_type event))
                                           (a_type filters)) events0
       else events0 in
     let events2 :=
       if stamp_truthy (a_startDate filters)
       then filter (fun event => date_le (a_startDate filters) (date event)) events1
       else events1 in
     let events3 :=
       if stamp_truthy (a_endDate filters)
       then filter (fun event => date_le (date event) (a_endDate filters)) events2
       else events2 in
     ret events3)
    (fun _ => ret []).

Definition no_analytics_filters : AnalyticsFilters :=
  {| a_type := VUndefined; a_startDate := SUndefined; a_endDate := SUndefined |}.




(** "Import tasks" *)
Definition importTasks (ts : list Task) : M unit :=
  for_of ts (fun task => saveTask task ;;; ret tt).

(** "Import settings" *)
Definition importSettings (entries : option (list (jsstring * value))) : M unit :=
  match entries with
  | Some l => for_of l (fun e => setSetting (fst e) (snd e) ;;; ret tt)
  | None => ret tt
  end.

Definition importData (jsonData : json_text) : M bool :=
  try_catch
    (d <- (match jsonData with
           | Malformed => throw SyntaxError
           | JsonNull => throw TypeError
           | Json d => ret d
           end) ;;
     (* Validate data structure *)
     match p_tasks d with
     | None => throw FormatError
     | Some ts =>
         importTasks ts ;;;
         importSettings (p_settings d) ;;;
         (* Track import *)
         trackEvent (lit "data_imported")
           (DataImportedData (List.length ts) (p_exportDate d)) ;;;
         ret true
     end)
    (fun e => throw e).

Definition cleanupOldData : M value :=
  try_catch
    (now <- Date_now ;;
     let thirtyDaysAgo := (now - 30 * MS_PER_DAY)%Z in
     oldEvents <- getAnalytics
                    {| a_type := VUndefined; a_startDate := SUndefined;
                       a_endDate := toISOString thirtyDaysAgo |} ;;
     for_of oldEvents (fun event => deleteFromStore analytics (event_id event)) ;;;
     ret (VBool true))
    (fun _ => ret (VBool false)).

(** [Utils.Storage.set('syncQueue', this.syncQueue)] *)
Definition persistSyncQueue : M unit :=
  modify (fun w =>
    let l := localStorage w in
    with_localStorage
      {| taskItems := taskItems l; settingItems := settingItems l;
         analyticsItems := analyticsItems l;
         syncQueueItem :=
           Some (map (fun it => (item_id it, item_timestamp it)) (syncQueue w)) |}
      w).

Definition push (it : QueueItem) : M unit :=
  modify (fun w => with_syncQueue (syncQueue w ++ [it]) w).

Definition addToSyncQueue (op : thunk) : M unit :=
  i <- generateId ;;
  ts <- Date_now ;;
  push {| item_id := i; operation := op; item_timestamp := ts |} ;;;
  persistSyncQueue.

(** The body of the loop of [processSyncQueue]: the [try] around
    [await item.operation()]. The item pushed back is the same object,
    whose closure has been invoked once more. *)
Definition syncItem (item : QueueItem) : M unit :=
  let (threw, op) := invoke (operation item) in
  if threw
  then (* Re-add to queue for retry *)
    push {| item_id := item_id item; operation := op;
            item_timestamp := item_timestamp item |}
  else ret tt.

Definition processSyncQueue : M unit :=
  w <- get_world ;;
  if negb (isOnline w) || (List.length (syncQueue w) =? 0)%nat then ret tt
  else
    let queue := syncQueue w in
    modify (with_syncQueue []) ;;;
    for_of queue syncItem ;;;
    (* Update persisted queue *)
    persistSyncQueue.

End Operations.

End StorageManager.

(** ** Vocabulary of the statements *)

Module Vocabulary.
Import StorageManager.

(** The title is empty after trimming (or is not there at all). *)
Definition blank_title (v : value) : bool :=
  negb (truthy v)
  || match v with
     | VString s => isEmpty (trim s)
     | _ => false
     end.

(** The task the tasks store holds under an id. *)
Definition taskUnder (w : world) (k : value) : option Task :=
  match db w with
  | Some d => store_get id k (tasksStore d)
  | None =>
      match area_get (itemKey tasks k) (taskItems (localStorage w)) with
      | Some (One t) => Some t
      | _ => None
      end
  end.

(** The task is what the tasks store holds under the task's id. *)
Definition persistedTask (w : world) (t : Task) : Prop :=
  taskUnder w (id t) = Some t.

(** The events the analytics store holds. *)
Definition recordedEvents (w : world) : list Event :=
  match db w with
  | Some d => analyticsStore d
  | None =>
      flat_map (fun e => match snd e with One a => [a] | Many l => l end)
               (analyticsItems (localStorage w))
  end.

(** The identifier [generateId] builds from the platform readings
    [n] and [n + 1]. *)
Definition generatedId (P : platform) (n : nat) : jsstring :=
  lit "id_" ++ random P n ++ lit "_" ++ decimal (clock P (S n)).

(** The event [trackEvent] builds from the platform readings [n] to
    [n + 3]. *)
Definition eventAt (P : platform) (n : nat) (type : jsstring) (d : payload)
  : Event :=
  {| event_id := VString (generatedId P n);
     event_type := type;
     data := d;
     date := SInstant (clock P (S (S n)) + MS_PER_HOUR);
     timestamp := clock P (S (S (S n))) |}.

(** The world after a record has been written to a store. *)
Definition written {A} (S : store_desc A) (data : A) (w : world) : world :=
  match db w with
  | None =>
      let l := localStorage w in
      with_localStorage
        (with_items S (area_set (itemKey S (data_id S data)) (One data)
                                (items S l)) l) w
  | Some d =>
      with_db (Some (with_objects S (store_put (keyPath S) data (objects S d)) d)) w
  end.

(** The store accepts the record: localStorage takes anything, IndexedDB
    wants a valid key. *)
Definition storable {A} (S : store_desc A) (data : A) (w : world) : bool :=
  match db w with
  | None => true
  | Some _ => valid_key (keyPath S data)
  end.

(** The task as [saveTask] leaves it after the defaults are set. *)
Definition normalised (task : Task) : Task :=
  validateStatus (validateCategory (validatePriority (sanitizeData task))).

(** Whether the next invocation of a queued operation throws, and the
    item as it is after that invocation. *)
Definition throwsNow (item : QueueItem) : bool :=
  fst (invoke (operation item)).

Definition invoked (item : QueueItem) : QueueItem :=
  {| item_id := item_id item;
     operation := snd (invoke (operation item));
     item_timestamp := item_timestamp item |}.

(** What [JSON.stringify] keeps of the queue. *)
Definition mirror (q : list QueueItem) : list (jsstring * Z) :=
  map (fun it => (item_id it, item_timestamp it)) q.

(** The tasks [getFromStore(this.stores.tasks)] hands to [getTasks]. *)
Definition storedTasks (w : world) : list Task :=
  match db w with
  | Some d => tasksStore d
  | None =>
      as_array (fetched_of_blob
                  (area_get (lit "tasks") (taskItems (localStorage w))))
  end.

(** [a] does not rank below [b]: high before medium before low. (Two
    tasks whose priorities name the same inherited member rank equal; a
    member and anything else are not comparable.) *)
Definition byPriority (a b : Task) : Prop :=
  match priorityRank (priority a), priorityRank (priority b) with
  | Rank n, Rank m => (m <= n)%Z
  | Member x, Member y => x = y
  | _, _ => False
  end.

(** The comparator is consistent on the elements of [l], which is when
    the language fixes the result of [sort]: it never returns [NaN], and
    "not after" is transitive. (The comparator of [getTasks] is reflexive
    and antisymmetric by its form as soon as it returns numbers.) *)
Definition consistentOn {A} (comparefn : A -> A -> option Z) (l : list A)
  : Prop :=
  (forall a b, In a l -> In b l -> comparefn a b <> None)
  /\ (forall a b c, In a l -> In b l -> In c l ->
        (sortCompare comparefn a b <= 0)%Z ->
        (sortCompare comparefn b c <= 0)%Z ->
        (sortCompare comparefn a c <= 0)%Z).

(** The same, as a test. *)
Definition consistentOnb {A} (comparefn : A -> A -> option Z) (l : list A)
  : bool :=
  forallb
    (fun a =>
       forallb
         (fun b =>
            match comparefn a b with Some _ => true | None => false end
            && forallb
                 (fun c =>
                    implb ((sortCompare comparefn a b <=? 0)%Z
                           && (sortCompare comparefn b c <=? 0)%Z)
                          (sortCompare comparefn a c <=? 0)%Z)
                 l)
         l)
    l.

(** The tasks the filters of [getTasks] select among [l]; no task when the
    selection throws. *)
Definition selectedTasks (P : platform) (filters : TaskFilters)
  (l : list Task) (w : world) : list Task :=
  match applyFilters P filters l w with
  | (Ok selected, _) => selected
  | (Throw _, _) => []
  end.

(** The order of two tasks of equal rank of which [a] comes before [b]:
    by due date, earliest first, when both have one; otherwise by creation
    time, latest first. A date that cannot be read orders nothing. *)
Definition bySecondaryKey (a b : Task) : Prop :=
  priorityRank (priority a) = priorityRank (priority b) ->
  if stamp_truthy (dueDate a) && stamp_truthy (dueDate b)
  then forall da db : Z,
         time_value (dueDate a) = Some da ->
         time_value (dueDate b) = Some db -> (da <= db)%Z
  else forall ca cb : Z,
         time_value (createdAt a) = Some ca ->
         time_value (createdAt b) = Some cb -> (cb <= ca)%Z.

(** The settings the manager holds, in IndexedDB and in localStorage. *)
Definition settingsOf (w : world) : option (list Setting) * area Setting :=
  (match db w with
   | Some d => Some (settingsStore d)
   | None => None
   end,
   settingItems (localStorage w)).

(** What [saveTask] guarantees of a task it has stored. *)
Definition savedTask (t : Task) : Prop :=
  (exists s, title t = VString s /\ isEmpty (trim s) = false)
  /\ (exists s, description t = VString s)
  /\ truthy (id t) = true
  /\ valid_key (id t) = true
  /\ stamp_truthy (createdAt t) = true
  /\ array_includes validPriorities (priority t) = true
  /\ array_includes taskCategories (category t) = true
  /\ array_includes validStatuses (status t) = true.

Definition key_lt (a b : value) : Prop := key_compare a b = Lt.

(** The tasks store of a database that only [saveTask] has written to:
    records in strict key order, each as [saveTask] leaves it. *)
Definition wellFormedTasks (s : list Task) : Prop :=
  StronglySorted key_lt (map id s) /\ Forall savedTask s.

(** How a stored task [t] reads after it has been exported and imported
    again ([t2]): everything is as it was, except that [updatedAt] is a new
    reading of the clock and that title and description have been
    HTML-escaped once more. *)
Definition reimported (P : platform) (t t2 : Task) : Prop :=
  id t2 = id t
  /\ createdAt t2 = createdAt t
  /\ dueDate t2 = dueDate t
  /\ completedAt t2 = completedAt t
  /\ priority t2 = priority t
  /\ category t2 = category t
  /\ status t2 = status t
  /\ title t2 = VString (sanitizeHtml (title t))
  /\ description t2 = VString (sanitizeHtml (description t))
  /\ exists n, updatedAt t2 = SInstant (clock P n + MS_PER_HOUR).

End Vocabulary.

(** ** Example inputs *)

Module Examples.
Import ServiceWorker.

Definition shell_response : Response := {|
  status := 200;
  statusText := "OK";
  headers := [("Content-Type", "text/html")]%string;
  body := "<!DOCTYPE html><title>List Kamba</title>"
|}.

(** A page that is not part of the app shell, opened by navigation. *)
Definition page_request : Request := {|
  url := lit "/pages/tasks.html";
  pathname := lit "/pages/tasks.html";
  mode := lit "navigate"
|}.

(** The cache storage after a successful install: the static generation
    holds the app shell (of which the two documents are shown). *)
Definition installed_caches : CacheStorage :=
  [(STATIC_CACHE, [(lit "/", shell_response); (lit "/index.html", shell_response)])].

(** Generations of two versions side by side, and a cache of another
    application. *)
Definition mixed_caches : CacheStorage :=
  [(lit "list-kamba-v0.9.0-static", [(lit "/", shell_response)]);
   (STATIC_CACHE, [(lit "/index.html", shell_response)]);
   (lit "workbox-precache", []);
   (RUNTIME_CACHE, [])].

End Examples.

Module StorageExamples.
Import StorageManager.

(** A platform whose clock advances by one millisecond per reading, with
    the identity for the two Unicode functions (sufficient for ASCII lower
    case text). *)
Definition examplePlatform : platform := {|
  clock := fun n => (1700000000000 + Z.of_nat n)%Z;
  random := fun n => lit "r" ++ decimal (Z.of_nat n);
  tzOffset := 3600000;
  toLowerCase := fun s => s;
  normalizeNFD := fun s => s
|}.

Definition empty_database : database :=
  {| tasksStore := []; settingsStore := []; analyticsStore := [] |}.

Definition empty_localStorage : local_storage :=
  {| taskItems := []; settingItems := []; analyticsItems := [];
     syncQueueItem := None |}.

(** A fresh installation with IndexedDB open. *)
Definition empty_world : world :=
  {| db := Some empty_database; localStorage := empty_localStorage;
     isOnline := true; syncQueue := []; tick := 0 |}.

(** The object a form or an import file supplies for a new task. *)
Definition new_task (t : jsstring) (p c : value) (due : stamp) : Task :=
  {| id := VUndefined; title := VString t; description := VUndefined;
     category := c; priority := p; status := VUndefined;
     dueDate := due; createdAt := SUndefined; updatedAt := SUndefined;
     completedAt := SUndefined |}.

(** "Pagar conta", with a priority and a category of the form. *)
Definition bill_task : Task :=
  new_task (lit "Pagar conta") (VString (lit "alta")) (VString (lit "financas"))
           SUndefined.

(** A title of 101 letters. *)
Definition long_title_task : Task :=
  new_task (repeat 97%N 101) (VString (lit "urgent")) VNull SUndefined.

(** "Pagar conta", due some days ahead, saved on a fresh installation;
    the id it was given and the world it left. *)
Definition due_task : Task :=
  new_task (lit "Pagar conta") (VString (lit "alta")) (VString (lit "financas"))
           (SInstant 1700500000000).

Definition saved_world : world :=
  snd (saveTask examplePlatform due_task empty_world).

Definition saved_id : value :=
  match fst (saveTask examplePlatform due_task empty_world) with
  | Ok t => id t
  | Throw _ => VUndefined
  end.

(** An operation that throws on its first invocation only, one that
    always succeeds, and a queue holding both. *)
Definition flaky : thunk :=
  {| invocations := 0; throwsOn := fun n => (n =? 0)%nat |}.

Definition steady : thunk :=
  {| invocations := 0; throwsOn := fun _ => false |}.

Definition flaky_item : QueueItem :=
  {| item_id := lit "id_flaky_1"; operation := flaky; item_timestamp := 1 |}.

Definition steady_item : QueueItem :=
  {| item_id := lit "id_steady_2"; operation := steady; item_timestamp := 2 |}.

Definition queued_world : world :=
  with_syncQueue [steady_item; flaky_item] empty_world.

(** Two saved tasks of medium priority: the older one has a due date, the
    newer one has none. *)
Definition dated_task : Task :=
  {| id := VString (lit "t1"); title := VString (lit "Pagar renda");
     description := VString []; category := VString (lit "financas");
     priority := VString (lit "media"); status := VString (lit "pending");
     dueDate := SInstant 1700500000000;
     createdAt := SInstant 1700000100000;
     updatedAt := SInstant 1700000100000;
     completedAt := SUndefined |}.

Definition undated_task : Task :=
  {| id := VString (lit "t2"); title := VString (lit "Ligar ao Kamba");
     description := VString []; category := VString (lit "pessoal");
     priority := VString (lit "media"); status := VString (lit "pending");
     dueDate := SNull;
     createdAt := SInstant 1700000200000;
     updatedAt := SInstant 1700000200000;
     completedAt := SUndefined |}.

Definition two_tasks_world : world :=
  with_db (Some {| tasksStore := [dated_task; undated_task];
                   settingsStore := []; analyticsStore := [] |})
          empty_world.

(** Four saved tasks, stored in the order of their ids: a low one, a high
    one, and two medium ones of which the later created is due first. *)
Definition ranked_task (i p : string) (due : stamp) (created : Z) : Task :=
  {| id := VString (lit i); title := VString (lit "Pagar renda");
     description := VString []; category := VString (lit "financas");
     priority := VString (lit p); status := VString (lit "pending");
     dueDate := due;
     createdAt := SInstant created;
     updatedAt := SInstant created;
     completedAt := SUndefined |}.

Definition low_task : Task :=
  ranked_task "a" "baixa" SNull 1700000100000.
Definition high_task : Task :=
  ranked_task "b" "alta" (SInstant 1700900000000) 1700000200000.
Definition late_task : Task :=
  ranked_task "c" "media" (SInstant 1700800000000) 1700000300000.
Definition early_task : Task :=
  ranked_task "d" "media" (SInstant 1700500000000) 1700000400000.

Definition ranked_tasks : list Task :=
  [low_task; high_task; late_task; early_task].

Definition ranked_world : world :=
  with_db (Some {| tasksStore := ranked_tasks;
                   settingsStore := []; analyticsStore := [] |})
          empty_world.

(** Three recorded events: two from long before the example clock starts,
    one from a quarter of an hour before it. *)
Definition event_on (i : string) (d : Z) : Event :=
  {| event_id := VString (lit i); event_type := lit "task_saved";
     data := FreeData VNull; date := SInstant d; timestamp := (d - 3600000)%Z |}.

Definition events_world : world :=
  with_db (Some {| tasksStore := []; settingsStore := [];
                   analyticsStore :=
                     [event_on "id_a_1" 1690000000000;
                      event_on "id_b_2" 1695000000000;
                      event_on "id_c_3" 1699999100000] |})
          empty_world.

(** An import file whose second task has a blank title. *)
Definition blank_task : Task :=
  new_task (lit "   ") (VString (lit "baixa")) (VString (lit "lazer")) SUndefined.

Definition broken_import : json_text :=
  Json {| p_tasks := Some [bill_task; blank_task; due_task];
          p_settings := Some [(lit "theme", VString (lit "dark"))];
          p_exportDate := SInstant 1699000000000 |}.



Definition database_of (w : world) : database :=
  match db w with
  | Some d => d
  | None => empty_database
  end.

End StorageExamples.

(** ** The service worker: routing, the other strategies, cache control *)

Module CacheRouter.
Import ServiceWorker.

(** Files to cache immediately (app shell). *)
Definition STATIC_FILES : list jsstring :=
  [lit "/";
   lit "/index.html";
   lit "/manifest.json";
   lit "/assets/css/variables.css";
   lit "/assets/css/base.css";
   lit "/assets/css/components.css";
   lit "/assets/css/themes.css";
   lit "/assets/css/animations.css";
   lit "/assets/js/utils.js";
   lit "/assets/js/storage.js";
   lit "/assets/js/tasks.js";
   lit "/assets/js/notifications.js";
   lit "/assets/js/app.js";
   lit "/assets/icons/icon-192x192.png";
   lit "/assets/icons/icon-512x512.png"].

Definition NETWORK_FIRST_ROUTES : list jsstring :=
  [lit "/api/"; lit "/sync/"; lit "/analytics/"].

Definition CACHE_FIRST_ROUTES : list jsstring :=
  [lit "/assets/"; lit "/icons/"; lit "/images/"; lit "/sounds/"].

Definition isStaticFile (pathname : jsstring) : bool :=
  existsb (fun file => str_eqb file pathname) STATIC_FILES.

Definition isNetworkFirstRoute (pathname : jsstring) : bool :=
  existsb (fun route => startsWith pathname route) NETWORK_FIRST_ROUTES.

Definition isCacheFirstRoute (pathname : jsstring) : bool :=
  existsb (fun route => startsWith pathname route) CACHE_FIRST_ROUTES.

(** [caches.match(request)]: the first match, over the caches in creation
    order. *)
Fixpoint caches_match (cs : CacheStorage) (u : jsstring) : option Response :=
  match cs with
  | [] => None
  | (_, c) :: cs' =>
      match cache_match c u with
      | Some r => Some r
      | None => caches_match cs' u
      end
  end.

(** [cacheFirst(request)], given what [fetch(request)] settles to (it is
    only consulted on a cache miss). The store into the dynamic generation
    is not awaited by the function; the storage returned is the one left
    once it has happened. *)
Definition cacheFirst (network : settled Response) (request : Request)
  (cs : CacheStorage) : option Response * CacheStorage :=
  match caches_match cs (url request) with
  | Some cachedResponse => (Some cachedResponse, cs)
  | None =>
      match network with
      | Fulfilled networkResponse =>
          if (status networkResponse =? 200)%Z
          then
            let (_, cs1) := caches_open cs DYNAMIC_CACHE in
            (Some networkResponse,
             caches_put cs1 DYNAMIC_CACHE (url request) networkResponse)
          else (Some networkResponse, cs)
      | Rejected => handleOfflineRequest request cs
      end
  end.

(** [networkFirst(request)] *)
Definition networkFirst (network : settled Response) (request : Request)
  (cs : CacheStorage) : option Response * CacheStorage :=
  match network with
  | Fulfilled networkResponse =>
      if (status networkResponse =? 200)%Z
      then
        let (_, cs1) := caches_open cs RUNTIME_CACHE in
        (Some networkResponse,
         caches_put cs1 RUNTIME_CACHE (url request) networkResponse)
      else (Some networkResponse, cs)
  | Rejected =>
      match caches_match cs (url request) with
      | Some cachedResponse => (Some cachedResponse, cs)
      | None => handleOfflineRequest request cs
      end
  end.

(** What the [fetch] listener reads of its event besides the request
    itself: the method, and whether the URL has the worker's origin. *)
Record FetchEvent := {
  request : Request;
  method : jsstring;
  sameOrigin : bool
}.

Inductive strategy :=
| CacheFirst
| NetworkFirst
| StaleWhileRevalidate.

(** The choice made by the first of the two [fetch] listeners, the one
    that routes; [None] when it returns without calling [respondWith].
    (The second listener, which times the requests, calls [respondWith]
    with a plain [fetch]; for an event the first listener has answered,
    that call throws and the answer stands.) *)
Definition chooseStrategy (event : FetchEvent) : option strategy :=
  if negb (str_eqb (method event) (lit "GET")) then None
  else if negb (sameOrigin event) then None
  else if isStaticFile (pathname (request event)) then Some CacheFirst
  else if isNetworkFirstRoute (pathname (request event)) then Some NetworkFirst
  else if isCacheFirstRoute (pathname (request event)) then Some CacheFirst
  else Some StaleWhileRevalidate.

(** The routing [fetch] listener: what [respondWith] is given, if
    anything. *)
Definition onFetch (network : settled Response) (event : FetchEvent)
  (cs : CacheStorage) : option (option Response * CacheStorage) :=
  match chooseStrategy event with
  | None => None
  | Some CacheFirst => Some (cacheFirst network (request event) cs)
  | Some NetworkFirst => Some (networkFirst network (request event) cs)
  | Some StaleWhileRevalidate =>
      Some (staleWhileRevalidate network (request event) cs)
  end.

(** [cache.addAll(urls)] on the cache [name], given what the fetch of
    each URL settles to: every response is stored, or none is when a fetch
    fails or a response is not acceptable (its status is outside 200-299,
    or is 206). *)
Definition acceptable (fetched : settled Response) : bool :=
  match fetched with
  | Fulfilled r =>
      (200 <=? status r)%Z && (status r <=? 299)%Z && negb (status r =? 206)%Z
  | Rejected => false
  end.

Definition caches_addAll (network : jsstring -> settled Response)
  (urls : list jsstring) (name : jsstring) (cs : CacheStorage) : CacheStorage :=
  if forallb (fun u => acceptable (network u)) urls
  then fold_left
         (fun acc u =>
            match network u with
            | Fulfilled r => caches_put acc name u r
            | Rejected => acc
            end)
         urls cs
  else cs.

(** The cache storage once the promise given to [event.waitUntil] by the
    [install] listener has settled. *)
Definition install (network : jsstring -> settled Response)
  (cs : CacheStorage) : CacheStorage :=
  let (_, cs1) := caches_open cs STATIC_CACHE in
  caches_addAll network STATIC_FILES STATIC_CACHE cs1.

(** [cacheUrls(urls)]: each URL comes with what its fetch settles to. *)
Definition cacheUrls (fetches : list (jsstring * settled Response))
  (cs : CacheStorage) : CacheStorage :=
  let (_, cs0) := caches_open cs DYNAMIC_CACHE in
  fold_left
    (fun acc f =>
       match snd f with
       | Fulfilled response =>
           if (status response =? 200)%Z
           then caches_put acc DYNAMIC_CACHE (fst f) response
           else acc
       | Rejected => acc        (* logged *)
       end)
    fetches cs0.

(** [clearCaches()] *)
Definition clearCaches (cs : CacheStorage) : CacheStorage :=
  fold_left caches_delete
    (filter (fun name => includes name (lit "list-kamba")) (caches_keys cs))
    cs.

(** [blob.size] of a response body *)
Definition blobSize (response : Response) : Z :=
  Z.of_nat (String.length (body response)).

(** The inner loop of [getCacheSize]: over [cache.keys()]. *)
Definition addCacheSize (cache : Cache) (totalSize : Z) : Z :=
  fold_left
    (fun total req =>
       match cache_match cache req with
       | Some response => (total + blobSize response)%Z
       | None => total
       end)
    (map fst cache) totalSize.

(** [getCacheSize()]: the total, and the cache storage afterwards. *)
Definition getCacheSize (cs : CacheStorage) : Z * CacheStorage :=
  fold_left
    (fun (st : Z * CacheStorage) cacheName =>
       let (totalSize, acc) := st in
       if includes cacheName (lit "list-kamba")
       then
         let (cache, acc') := caches_open acc cacheName in
         (addCacheSize cache totalSize, acc')
       else (totalSize, acc))
    (caches_keys cs) (0%Z, cs).

End CacheRouter.

(** ** Vocabulary and examples for the cache router *)

Module RouterExamples.
Import ServiceWorker CacheRouter Examples.

(** The bytes held by the caches of the application: what [getCacheSize]
    is meant to measure. *)
Definition cacheBytes (c : Cache) : Z :=
  fold_right (fun e total => (blobSize (snd e) + total)%Z) 0%Z c.

Definition storedBytes (cs : CacheStorage) : Z :=
  fold_right
    (fun e total =>
       if includes (fst e) (lit "list-kamba")
       then (cacheBytes (snd e) + total)%Z
       else total)
    0%Z cs.

(** Cache names are unique in a cache storage, and request URLs are unique
    in a cache. *)
Definition well_keyed (cs : CacheStorage) : Prop :=
  NoDup (caches_keys cs) /\ Forall (fun e => NoDup (map fst (snd e))) cs.

(** The cache storages the worker produces, starting without any cache:
    by its [install] and [activate] listeners, by answering a fetch, and
    by the three commands of its [message] listener. *)
Inductive produced : CacheStorage -> Prop :=
| produced_start : produced []
| produced_install network cs :
    produced cs -> produced (install network cs)
| produced_activate cs :
    produced cs -> produced (activate cs)
| produced_fetch network event cs response cs' :
    produced cs ->
    onFetch network event cs = Some (response, cs') ->
    produced cs'
| produced_cacheUrls fetches cs :
    produced cs -> produced (cacheUrls fetches cs)
| produced_clearCaches cs :
    produced cs -> produced (clearCaches cs)
| produced_getCacheSize cs :
    produced cs -> produced (snd (getCacheSize cs)).

(** The static generation holds the root document only together with the
    index document. The worker writes to that cache in [install] alone,
    which stores the whole application shell or nothing. *)
Definition shellWhole (cs : CacheStorage) : Prop :=
  let cache := fst (caches_open cs STATIC_CACHE) in
  cache_match cache (lit "/") <> None ->
  cache_match cache (lit "/index.html") <> None.

(** The application shell as the offline fallback looks for it: the index
    document, or the root, whichever is cached. *)
Definition cachedShell (cs : CacheStorage) : option Response :=
  let cache := fst (caches_open cs STATIC_CACHE) in
  match cache_match cache (lit "/index.html") with
  | Some r => Some r
  | None => cache_match cache (lit "/")
  end.

(** A network on which every fetch gives the shell document. *)
Definition shell_network (u : jsstring) : settled Response :=
  Fulfilled shell_response.

(** A background request of the page to the API. *)
Definition api_request : Request := {|
  url := lit "/api/tasks";
  pathname := lit "/api/tasks";
  mode := lit "cors"
|}.

Definition api_event : FetchEvent := {|
  request := api_request;
  method := lit "GET";
  sameOrigin := true
|}.

Definition not_found_response : Response := {|
  status := 404;
  statusText := "Not Found";
  headers := [("Content-Type", "text/plain")]%string;
  body := "not found"
|}.

(** The pages the application asks the worker to cache: the second one is
    fetched twice, and only the first of the two fetches succeeds. *)
Definition page_fetches : list (jsstring * settled Response) :=
  [(lit "/pages/tasks.html", Fulfilled shell_response);
   (lit "/pages/timer.html", Fulfilled shell_response);
   (lit "/pages/timer.html", Fulfilled not_found_response);
   (lit "/pages/calendar.html", Rejected)].

End RouterExamples.

(** ** The persistence manager: start-up, settings, connectivity *)

Module StorageManagerSetup.
Import StorageManager.

Definition with_isOnline (b : bool) (w : world) : world :=
  {| db := db w; localStorage := localStorage w; isOnline := b;
     syncQueue := syncQueue w; tick := tick w |}.

Section Operations.
Variable P : platform.

(** [initIndexedDB()], given what the request of [indexedDB.open] comes
    to: the database, or the error of the request. *)
Definition initIndexedDB (opened : result database) : M unit :=
  match opened with
  | Ok d => modify (with_db (Some d))
  | Throw e => throw e
  end.

(** [Utils.Storage.remove('tasks')] *)
Definition removeOldTasks : M unit :=
  modify (fun w =>
    let l := localStorage w in
    with_localStorage
      (with_items tasks (area_remove (lit "tasks") (items tasks l)) l) w).

(** [migrateData()]: an item that is not an array is left alone. *)
Definition migrateData : M unit :=
  w <- get_world ;;
  match area_get (lit "tasks") (items tasks (localStorage w)) with
  | Some (Many oldTasks) =>
      for_of oldTasks (fun task => saveTask P task ;;; ret tt) ;;;
      removeOldTasks
  | _ => ret tt
  end.

(** [init()] *)
Definition init (opened : result database) : M unit :=
  try_catch
    (initIndexedDB opened ;;; migrateData)
    (fun _ => (* Fallback to localStorage only *) modify (with_db None)).

(** [getSetting(key, defaultValue)]: an array read from the store is
    truthy and has no [value]. *)
Definition getSetting (k : jsstring) (defaultValue : value) : M value :=
  try_catch
    (setting <- getFromStore settings (VString k) ;;
     ret (match setting with
          | FOne s => setting_value s
          | FMany _ => VUndefined
          | FNothing => defaultValue
          end))
    (fun _ => ret defaultValue).

(** The listener of the window's [online] event. *)
Definition onOnline : M unit :=
  modify (with_isOnline true) ;;; processSyncQueue.

End Operations.

End StorageManagerSetup.

Module SetupExamples.
Import StorageManager Vocabulary StorageManagerSetup StorageExamples.

(** IndexedDB is open, and its tasks store is as [saveTask] keeps it. *)
Definition wellFormedWorld (w : world) : Prop :=
  exists d, db w = Some d /\ wellFormedTasks (tasksStore d).

(** A fresh installation on which IndexedDB is not available. *)
Definition fallback_world : world := with_db None empty_world.

(** Tasks left under ['tasks'] in localStorage by an earlier version. *)
Definition old_tasks_storage (l : list Task) : local_storage :=
  {| taskItems := [(lit "tasks", Many l)]; settingItems := [];
     analyticsItems := []; syncQueueItem := None |}.

Definition old_tasks_world : world :=
  with_localStorage (old_tasks_storage [bill_task; due_task]) fallback_world.

(** The same, with a task in between whose title is blank. *)
Definition bad_old_tasks_world : world :=
  with_localStorage (old_tasks_storage [bill_task; blank_task; due_task])
                    fallback_world.

Definition offline_world : world :=
  with_isOnline false empty_world.

End SetupExamples.

(** ** Utilities used by the task screen *)

Module Utils.
Import StorageManager.

(** [Utils.String.capitalize(str)], for a string of ASCII characters. *)
Definition asciiUpper (c : N) : N :=
  if ((97 <=? c) && (c <=? 122))%N then (c - 32)%N else c.

Definition asciiLower (c : N) : N :=
  if ((65 <=? c) && (c <=? 90))%N then (c + 32)%N else c.

Definition capitalize (str : jsstring) : jsstring :=
  match str with
  | [] => []
  | c :: rest => asciiUpper c :: map asciiLower rest
  end.

(** *** [Utils.Validation] *)

Definition isRequired (v : value) : bool :=
  match v with
  | VNull | VUndefined => false
  | _ => negb (isEmpty (trim (toString v)))
  end.

(** [minLength(value, min)] returns [value] itself when it is falsy; the
    callers only test the result, which is kept as its truth value. *)
Definition minLength (v : value) (min : nat) : bool :=
  truthy v && (min <=? List.length (toString v))%nat.

Definition maxLength (v : value) (max : nat) : bool :=
  negb (truthy v) || (List.length (toString v) <=? max)%nat.

(** [isValidDate(date)], for a [Date] object given by its time value. *)
Definition isValidDate (date : option Z) : bool :=
  match date with
  | Some _ => true
  | None => false
  end.

(** *** [Utils.Angola] *)

Record Category := {
  cat_id : jsstring;
  cat_name : jsstring;
  icon : jsstring;
  color : jsstring
}.

Definition outros : Category :=
  {| cat_id := lit "outros"; cat_name := lit "Outros";
     icon := [55357; 56541]%N; color := lit "#95A5A6" |}.

(** [Utils.Angola.taskCategories], whose ids are [taskCategories] above. *)
Definition categories : list Category :=
  [{| cat_id := lit "pessoal"; cat_name := lit "Pessoal";
      icon := [55357; 56420]%N; color := lit "#4A90E2" |};
   {| cat_id := lit "trabalho"; cat_name := lit "Trabalho";
      icon := [55357; 56508]%N; color := lit "#2F5F8F" |};
   {| cat_id := lit "familia"; cat_name := lit "Fam" ++ [237]%N ++ lit "lia";
      icon := [55357; 56424; 8205; 55357; 56425; 8205; 55357; 56423; 8205;
               55357; 56422]%N;
      color := lit "#27AE60" |};
   {| cat_id := lit "saude"; cat_name := lit "Sa" ++ [250]%N ++ lit "de";
      icon := [55356; 57317]%N; color := lit "#E74C3C" |};
   {| cat_id := lit "financas"; cat_name := lit "Finan" ++ [231]%N ++ lit "as";
      icon := [55357; 56496]%N; color := lit "#F39C12" |};
   {| cat_id := lit "educacao"; cat_name := lit "Educa" ++ [231; 227]%N ++ lit "o";
      icon := [55357; 56538]%N; color := lit "#9B59B6" |};
   {| cat_id := lit "lazer"; cat_name := lit "Lazer";
      icon := [55356; 57263]%N; color := lit "#1ABC9C" |};
   outros].

(** [getCategory(id)] *)
Definition getCategory (i : value) : Category :=
  match find (fun cat => strict_eq (VString (cat_id cat)) i) categories with
  | Some cat => cat
  | None => nth 7 categories outros
  end.

End Utils.

(** ** The task screen ([TaskManager]) *)

Module TaskManager.
Import StorageManager Utils.

(** The error messages of the form, by field. *)
Record FormErrors := {
  err_title : option jsstring;
  err_description : option jsstring;
  err_dueDate : option jsstring
}.

Record Validation := {
  isValid : bool;
  errors : FormErrors
}.

Definition validateTaskForm (data : Task) : Validation :=
  let e_title :=
    if negb (isRequired (title data))
    then Some (lit "T" ++ [237]%N ++ lit "tulo " ++ [233]%N ++ lit " obrigat"
               ++ [243]%N ++ lit "rio")
    else if negb (minLength (title data) 3)
    then Some (lit "T" ++ [237]%N ++ lit "tulo deve ter pelo menos 3 caracteres")
    else if negb (maxLength (title data) 100)
    then Some (lit "T" ++ [237]%N ++ lit "tulo deve ter no m" ++ [225]%N
               ++ lit "ximo 100 caracteres")
    else None in
  let e_description :=
    if truthy (description data) && negb (maxLength (description data) 500)
    then Some (lit "Descri" ++ [231; 227]%N ++ lit "o deve ter no m" ++ [225]%N
               ++ lit "ximo 500 caracteres")
    else None in
  let e_dueDate :=
    if stamp_truthy (dueDate data)
    then if negb (isValidDate (time_value (dueDate data)))
         then Some (lit "Data de vencimento inv" ++ [225]%N ++ lit "lida")
         else None
    else None in
  {| isValid :=
       match e_title, e_description, e_dueDate with
       | None, None, None => true
       | _, _, _ => false
       end;
     errors := {| err_title := e_title; err_description := e_description;
                  err_dueDate := e_dueDate |} |}.

(** The inputs of the task form: the [value] of each element, [None]
    when the element is not in the page. The due date is kept as what its
    text denotes. *)
Record TaskForm := {
  taskTitle : option jsstring;
  taskDescription : option jsstring;
  taskCategory : option jsstring;
  taskPriority : option jsstring;
  taskDueDate : stamp
}.

(** [x || d] for an optional string *)
Definition orElse (x : option jsstring) (d : jsstring) : jsstring :=
  match x with
  | Some s => if isEmpty s then d else s
  | None => d
  end.

Definition getTaskFormData (form : TaskForm) : Task :=
  {| id := VUndefined;
     title := VString (orElse (option_map trim (taskTitle form)) []);
     description := VString (orElse (option_map trim (taskDescription form)) []);
     category := VString (orElse (taskCategory form) (lit "outros"));
     priority := VString (orElse (taskPriority form) (lit "media"));
     status := VString (lit "pending");
     dueDate := if stamp_truthy (taskDueDate form) then taskDueDate form
                else SNull;
     createdAt := SUndefined; updatedAt := SUndefined;
     completedAt := SUndefined |}.

(** What the screen shows: the tasks it holds, the toasts it has raised
    (the page is taken to have the elements the handlers use), and the
    errors displayed in the form. The rendering of the list is not part of
    the embedding: it is taken to complete, as it does for tasks that
    [saveTask] has stored, and the readings of the clock it makes are not
    counted. *)
Record Toast := {
  message : jsstring;
  toastType : jsstring
}.

Record screen := {
  currentTasks : list Task;
  toasts : list Toast;
  formErrors : option FormErrors
}.

Definition showToast (m t : jsstring) (u : screen) : screen :=
  {| currentTasks := currentTasks u;
     toasts := toasts u ++ [{| message := m; toastType := t |}];
     formErrors := formErrors u |}.

(** The inputs of the task form in the page: the elements
    [getTaskFormData] reads. *)
Definition formInputs : list jsstring :=
  [lit "taskTitle"; lit "taskDescription"; lit "taskCategory";
   lit "taskPriority"; lit "taskDueDate"].

(** The message of a field is displayed next to the element
    [#task<Field>], if the page has one. *)
Definition displayed (field : jsstring) (message : option jsstring)
  : option jsstring :=
  if existsb (str_eqb (lit "task" ++ capitalize field)) formInputs
  then message else None.

Definition showFormErrors (e : FormErrors) (u : screen) : screen :=
  {| currentTasks := currentTasks u; toasts := toasts u;
     formErrors :=
       Some {| err_title := displayed (lit "title") (err_title e);
               err_description :=
                 displayed (lit "description") (err_description e);
               err_dueDate := displayed (lit "dueDate") (err_dueDate e) |} |}.

Definition closeTaskModal (u : screen) : screen :=
  {| currentTasks := currentTasks u; toasts := toasts u; formErrors := None |}.

Section Handlers.
Variable P : platform.

(** [loadTasks()]. Of [renderTasks] and [updateDashboardStats] it is kept
    only that they complete: the count of readings of the platform stays
    as [getTasks] left it. *)
Definition loadTasks (u : screen) : M screen :=
  try_catch
    (l <- getTasks P no_filters ;;
     ret {| currentTasks := l; toasts := toasts u;
            formErrors := formErrors u |})
    (fun _ => ret (showToast (lit "Erro ao carregar tarefas") (lit "danger") u)).

(** [handleTaskSubmit()], given the form and the [editingTask] entry of
    the modal's dataset. *)
Definition handleTaskSubmit (form : TaskForm) (editingTask : value)
  (u : screen) : M screen :=
  try_catch
    (let formData := getTaskFormData form in
     (* Validate form *)
     let validation := validateTaskForm formData in
     if negb (isValid validation)
     then ret (showFormErrors (errors validation) u)
     else
       (* Check if editing existing task *)
       let taskId := editingTask in
       let formData := if truthy taskId then set_id taskId formData
                       else formData in
       (* Save task *)
       savedTask <- saveTask P formData ;;
       (* Update UI *)
       u <- loadTasks u ;;
       let u := closeTaskModal u in
       (* Show success message *)
       let u := showToast (if truthy taskId
                           then lit "Tarefa atualizada com sucesso!"
                           else lit "Tarefa criada com sucesso!")
                          (lit "success") u in
       (* Track analytics *)
       trackEvent P (if truthy taskId then lit "task_updated"
                     else lit "task_created")
         (TaskSavedData (id savedTask) (category savedTask)
                        (priority savedTask)) ;;;
       ret u)
    (fun _ => ret (showToast (lit "Erro ao salvar tarefa") (lit "danger") u)).

Definition toggleTaskComplete (taskId : value) (u : screen) : M screen :=
  try_catch
    (f <- getTask P taskId ;;
     match f with
     | FNothing =>
         ret (showToast (lit "Tarefa n" ++ [227]%N ++ lit "o encontrada")
                        (lit "danger") u)
     | FOne task =>
         u <- (if strict_eq (status task) (VString (lit "completed"))
               then
                 (* Mark as pending *)
                 saveTask P (set_completedAt SNull
                               (set_status (VString (lit "pending")) task)) ;;;
                 ret (showToast (lit "Tarefa marcada como pendente")
                                (lit "info") u)
               else
                 (* Mark as completed *)
                 completeTask P taskId ;;;
                 ret (showToast (lit "Tarefa conclu" ++ [237]%N ++ lit "da! "
                                 ++ [55356; 57225]%N)
                                (lit "success") u)) ;;
         (* Update UI *)
         loadTasks u
     | FMany _ =>
         (* an array has no status *)
         completeTask P taskId ;;;
         loadTasks (showToast (lit "Tarefa conclu" ++ [237]%N ++ lit "da! "
                               ++ [55356; 57225]%N)
                              (lit "success") u)
     end)
    (fun _ => ret (showToast (lit "Erro ao atualizar tarefa") (lit "danger") u)).

(** [bulkDelete(taskIds)], given the answer to the confirmation. *)
Definition bulkDelete (taskIds : list value) (confirmed : bool) (u : screen)
  : M screen :=
  try_catch
    (if negb confirmed then ret u
     else
       for_of taskIds (fun taskId => deleteTask P taskId ;;; ret tt) ;;;
       u <- loadTasks u ;;
       ret (showToast (decimal (Z.of_nat (List.length taskIds))
                       ++ lit " tarefas exclu" ++ [237]%N ++ lit "das")
                      (lit "success") u))
    (fun _ => ret (showToast (lit "Erro ao excluir tarefas") (lit "danger") u)).

End Handlers.

End TaskManager.

Module ScreenExamples.
Import StorageManager TaskManager StorageExamples.

Definition blank_screen : screen :=
  {| currentTasks := []; toasts := []; formErrors := None |}.

(** The form as a user fills it in for a new task. *)
Definition bill_form : TaskForm :=
  {| taskTitle := Some (lit "  Pagar conta ");
     taskDescription := Some [];
     taskCategory := Some (lit "financas");
     taskPriority := Some (lit "alta");
     taskDueDate := SInstant 1700500000000 |}.

(** The same with a title of two letters. *)
Definition short_form : TaskForm :=
  {| taskTitle := Some (lit " ab ");
     taskDescription := Some [];
     taskCategory := Some (lit "financas");
     taskPriority := Some (lit "alta");
     taskDueDate := SUndefined |}.

(** The two tasks of [two_tasks_world], the first one completed. *)
Definition done_task : Task :=
  set_completedAt (SInstant 1700000300000)
    (set_status (VString (lit "completed")) dated_task).

Definition done_world : world :=
  with_db (Some {| tasksStore := [done_task; undated_task];
                   settingsStore := []; analyticsStore := [] |})
          empty_world.

End ScreenExamples.

(* ================================================================== *)
(** * Part II. Properties                                              *)
(* ================================================================== *)

Unset Implicit Arguments.

(** ** Strings *)

Lemma str_eqb_eq (a b : jsstring) : str_eqb a b = true <-> a = b.
Proof.
  revert b; induction a as [|x a IH]; intros [|y b]; simpl;
    try (split; [discriminate | congruence]); try tauto.
  rewrite andb_true_iff, N.eqb_eq, IH.
  split; [intros [-> ->]; reflexivity | intros H; inversion H; auto].
Qed.

Lemma str_eqb_refl (a : jsstring) : str_eqb a a = true.
Proof. apply str_eqb_eq; reflexivity. Qed.

Lemma str_eqb_neq (a b : jsstring) : str_eqb a b = false <-> a <> b.
Proof.
  rewrite <- str_eqb_eq. destruct (str_eqb a b); split; congruence.
Qed.

Lemma str_eqb_sym (a b : jsstring) : str_eqb a b = str_eqb b a.
Proof.
  destruct (str_eqb a b) eqn:E.
  - apply str_eqb_eq in E; subst; symmetry; apply str_eqb_refl.
  - symmetry; apply str_eqb_neq; apply str_eqb_neq in E; congruence.
Qed.

(** ** The service worker *)

Module ServiceWorkerFacts.
Import ServiceWorker Examples.

(** *** Activation *)

Lemma keys_delete (cs : CacheStorage) (n name : jsstring) :
  In name (caches_keys (caches_delete cs n)) <->
  In name (caches_keys cs) /\ name <> n.
Proof.
  unfold caches_keys, caches_delete.
  rewrite !in_map_iff. split.
  - intros [e [<- He]]. apply filter_In in He as [He Hn].
    split; [exists e; auto|].
    apply negb_true_iff, str_eqb_neq in Hn; exact Hn.
  - intros [[e [<- He]] Hn]. exists e; split; auto.
    apply filter_In; split; auto.
    apply negb_true_iff, str_eqb_neq; exact Hn.
Qed.

Lemma lookup_delete (cs : CacheStorage) (n name : jsstring) :
  name <> n -> caches_lookup (caches_delete cs n) name = caches_lookup cs name.
Proof.
  intros Hn. induction cs as [|[k c] cs IH]; simpl; auto.
  destruct (str_eqb k n) eqn:Ekn; simpl.
  - apply str_eqb_eq in Ekn; subst k.
    assert (str_eqb n name = false) as -> by (apply str_eqb_neq; congruence).
    exact IH.
  - destruct (str_eqb k name); auto.
Qed.

Lemma keys_evict_all (names : list jsstring) (acc : CacheStorage) (name : jsstring) :
  In name (caches_keys (fold_left evict names acc)) <->
  In name (caches_keys acc) /\ ~ (In name names /\ isOldCache name = true).
Proof.
  revert acc; induction names as [|n names IH]; intros acc; simpl.
  - tauto.
  - rewrite IH. unfold evict.
    destruct (isOldCache n) eqn:En.
    + rewrite keys_delete. split.
      * intros [[Hin Hne] Hno]. split; auto.
        intros [[->|Hin'] Hold]; [congruence | tauto].
      * intros [Hin Hno]. split; [split; auto|].
        -- intros ->. apply Hno; auto.
        -- intros [Hin' Hold]; apply Hno; auto.
    + split; intros [Hin Hno]; split; auto.
      * intros [[->|Hin'] Hold]; [congruence | tauto].
      * intros [Hin' Hold]; apply Hno; auto.
Qed.

Lemma lookup_evict_all (names : list jsstring) (acc : CacheStorage) (name : jsstring) :
  isOldCache name = false ->
  caches_lookup (fold_left evict names acc) name = caches_lookup acc name.
Proof.
  intros Hkeep. revert acc; induction names as [|n names IH]; intros acc; simpl; auto.
  rewrite IH. unfold evict. destruct (isOldCache n) eqn:En; auto.
  apply lookup_delete. intros ->; congruence.
Qed.

Lemma isOldCache_true (name : jsstring) :
  isOldCache name = true <->
  includes name (lit "list-kamba") = true /\
  name <> STATIC_CACHE /\ name <> DYNAMIC_CACHE /\ name <> RUNTIME_CACHE.
Proof.
  unfold isOldCache.
  rewrite !andb_true_iff, !negb_true_iff, !str_eqb_neq. tauto.
Qed.

Lemma isOldCache_false (name : jsstring) :
  isOldCache name = false <->
  includes name (lit "list-kamba") = false \/
  name = STATIC_CACHE \/ name = DYNAMIC_CACHE \/ name = RUNTIME_CACHE.
Proof.
  unfold isOldCache.
  rewrite !andb_false_iff, !negb_false_iff, !str_eqb_eq. tauto.
Qed.

(** C5. After activation, every cache name of the enumeration taken before
    it that contains the application's namespace ['list-kamba'] and is none
    of the three current generation names is gone from the cache storage;
    a name that is one of the three current generation names, or that does
    not contain the namespace, is still there, with the cache it named. *)
Theorem activate_evicts_exactly_old_generations
  (cs : CacheStorage) (name : jsstring) :
  In name (caches_keys cs) ->
  (includes name (lit "list-kamba") = true ->
   name <> STATIC_CACHE -> name <> DYNAMIC_CACHE -> name <> RUNTIME_CACHE ->
   ~ In name (caches_keys (activate cs)))
  /\
  (name = STATIC_CACHE \/ name = DYNAMIC_CACHE \/ name = RUNTIME_CACHE
   \/ includes name (lit "list-kamba") = false ->
   In name (caches_keys (activate cs))
   /\ caches_lookup (activate cs) name = caches_lookup cs name).
Proof.
  intros Hin. unfold activate. split.
  - intros Hns H1 H2 H3 Habs.
    apply keys_evict_all in Habs as [_ Hno]. apply Hno. split; auto.
    apply isOldCache_true; auto.
  - intros Hkeep.
    assert (isOldCache name = false) as Hk by (apply isOldCache_false; tauto).
    split.
    + apply keys_evict_all. split; auto. intros [_ Hold]; congruence.
    + apply lookup_evict_all; exact Hk.
Qed.

Lemma activate_evicts_exactly_old_generations_witness :
  ~ In (lit "list-kamba-v0.9.0-static") (caches_keys (activate mixed_caches))
  /\ In STATIC_CACHE (caches_keys (activate mixed_caches))
  /\ In (lit "workbox-precache") (caches_keys (activate mixed_caches)).
Proof.
  split; [|split].
  - assert (In (lit "list-kamba-v0.9.0-static") (caches_keys mixed_caches)) as Hin
      by (simpl; left; reflexivity).
    destruct (activate_evicts_exactly_old_generations mixed_caches _ Hin)
      as [Hgone _].
    apply Hgone.
    + reflexivity.
    + vm_compute; discriminate.
    + vm_compute; discriminate.
    + vm_compute; discriminate.
  - assert (In STATIC_CACHE (caches_keys mixed_caches)) as Hin
      by (simpl; right; left; reflexivity).
    destruct (activate_evicts_exactly_old_generations mixed_caches _ Hin)
      as [_ Hkept].
    apply Hkept. left; reflexivity.
  - assert (In (lit "workbox-precache") (caches_keys mixed_caches)) as Hin
      by (simpl; right; right; left; reflexivity).
    destruct (activate_evicts_exactly_old_generations mixed_caches _ Hin)
      as [_ Hkept].
    apply Hkept. right; right; right; reflexivity.
Defined.

(** *** Stale-while-revalidate *)

(** A cached copy is what the caller gets, whatever the fetch does. *)
Lemma staleWhileRevalidate_cached
  (network : settled Response) (request : Request) (cs : CacheStorage)
  (r : Response) :
  cache_match (fst (caches_open cs RUNTIME_CACHE)) (url request) = Some r ->
  fst (staleWhileRevalidate network request cs) = Some r.
Proof.
  unfold staleWhileRevalidate.
  destruct (caches_open cs RUNTIME_CACHE) as [cache cs1]; simpl.
  intros ->; simpl. destruct network; reflexivity.
Qed.

(** Without a cached copy the caller gets what the fetch produced. *)
Lemma staleWhileRevalidate_miss_online
  (networkResponse : Response) (request : Request) (cs : CacheStorage) :
  cache_match (fst (caches_open cs RUNTIME_CACHE)) (url request) = None ->
  fst (staleWhileRevalidate (Fulfilled networkResponse) request cs)
  = Some networkResponse.
Proof.
  unfold staleWhileRevalidate.
  destruct (caches_open cs RUNTIME_CACHE) as [cache cs1]; simpl.
  intros ->; reflexivity.
Qed.

(** C3. When the runtime cache has no copy of the request and the fetch
    fails, the promise of [staleWhileRevalidate] resolves to [undefined]:
    the promise of the fetch is truthy, so the offline fallback in the
    return expression is never reached. *)
Theorem staleWhileRevalidate_miss_offline_is_undefined
  (request : Request) (cs : CacheStorage) :
  cache_match (fst (caches_open cs RUNTIME_CACHE)) (url request) = None ->
  fst (staleWhileRevalidate Rejected request cs) = None.
Proof.
  unfold staleWhileRevalidate.
  destruct (caches_open cs RUNTIME_CACHE) as [cache cs1]; simpl.
  intros ->; reflexivity.
Qed.

Lemma staleWhileRevalidate_miss_offline_is_undefined_witness :
  fst (staleWhileRevalidate Rejected page_request installed_caches) = None
  /\ fst (handleOfflineRequest page_request installed_caches)
     = Some shell_response.
Proof.
  split.
  - apply (staleWhileRevalidate_miss_offline_is_undefined
             page_request installed_caches).
    reflexivity.
  - reflexivity.
Defined.

(** *** Offline fallback *)

Lemma handleOfflineRequest_navigate_index
  (request : Request) (cs : CacheStorage) (r : Response) :
  mode request = lit "navigate" ->
  cache_match (fst (caches_open cs STATIC_CACHE)) (lit "/index.html") = Some r ->
  fst (handleOfflineRequest request cs) = Some r.
Proof.
  intros Hm. unfold handleOfflineRequest. rewrite Hm, str_eqb_refl.
  destruct (caches_open cs STATIC_CACHE) as [cache cs1]; simpl.
  intros ->; reflexivity.
Qed.

Lemma handleOfflineRequest_api (request : Request) (cs : CacheStorage) :
  mode request <> lit "navigate" ->
  startsWith (pathname request) (lit "/api/") = true ->
  handleOfflineRequest request cs = (Some offline_api_response, cs)
  /\ status offline_api_response = 503%Z
  /\ body offline_api_response
     = JSON_stringify_object
         (("error", "offline")%string :: tl offline_api_payload).
Proof.
  intros Hm Hp. unfold handleOfflineRequest.
  apply str_eqb_neq in Hm. rewrite Hm, Hp. repeat split.
Qed.

Lemma handleOfflineRequest_other (request : Request) (cs : CacheStorage) :
  mode request <> lit "navigate" ->
  startsWith (pathname request) (lit "/api/") = false ->
  handleOfflineRequest request cs = (Some offline_page_response, cs)
  /\ status offline_page_response = 200%Z
  /\ headers offline_page_response = [("Content-Type", "text/html")%string].
Proof.
  intros Hm Hp. unfold handleOfflineRequest.
  apply str_eqb_neq in Hm. rewrite Hm, Hp. repeat split.
Qed.

(** The promise of the first lookup is truthy, so the lookup of ['/'] is
    never made: a navigation request gets what the static cache holds for
    ['/index.html'] and nothing else. *)
Lemma handleOfflineRequest_navigate_without_index
  (request : Request) (cs : CacheStorage) :
  mode request = lit "navigate" ->
  cache_match (fst (caches_open cs STATIC_CACHE)) (lit "/index.html") = None ->
  fst (handleOfflineRequest request cs) = None.
Proof.
  intros Hm. unfold handleOfflineRequest. rewrite Hm, str_eqb_refl.
  destruct (caches_open cs STATIC_CACHE) as [cache cs1]; simpl.
  intros ->; reflexivity.
Qed.

End ServiceWorkerFacts.

(** ** The persistence manager *)

Module StorageFacts.
Import StorageManager Vocabulary.

#[local] Arguments lit : simpl never.
#[local] Arguments decimal : simpl never.
#[local] Arguments trim : simpl never.
#[local] Arguments escapeText : simpl never.
#[local] Arguments array_includes : simpl never.
#[local] Arguments store_put : simpl never.
#[local] Arguments area_set : simpl never.
#[local] Arguments Z.add : simpl never.
#[local] Arguments MS_PER_HOUR : simpl never.

Lemma str_compare_eq (a b : jsstring) : str_compare a b = Eq <-> a = b.
Proof.
  revert b; induction a as [|x a IH]; intros [|y b]; simpl;
    try (split; [discriminate | congruence]); try tauto.
  destruct (N.compare x y) eqn:E.
  - apply N.compare_eq_iff in E; subst. rewrite IH.
    split; [intros ->; reflexivity | intros H; inversion H; auto].
  - split; [discriminate|]. intros H; inversion H; subst.
    rewrite N.compare_refl in E; discriminate.
  - split; [discriminate|]. intros H; inversion H; subst.
    rewrite N.compare_refl in E; discriminate.
Qed.

Lemma key_compare_eq (a b : value) : key_compare a b = Eq <-> a = b.
Proof.
  destruct a as [| |x|x|x], b as [| |y|y|y]; simpl;
    try (split; [discriminate | congruence]); try tauto.
  - destruct x, y; simpl; split; congruence.
  - rewrite Z.compare_eq_iff. split; congruence.
  - rewrite str_compare_eq. split; congruence.
Qed.

Lemma key_compare_refl (a : value) : key_compare a a = Eq.
Proof. apply key_compare_eq; reflexivity. Qed.

Lemma key_compare_Eq_sym (a b : value) :
  key_compare a b = Eq -> key_compare b a = Eq.
Proof. rewrite !key_compare_eq. auto. Qed.

Lemma key_eqb_refl (a : value) : key_eqb a a = true.
Proof. unfold key_eqb; rewrite key_compare_refl; reflexivity. Qed.

Lemma key_eqb_sym (a b : value) : key_eqb a b = key_eqb b a.
Proof.
  unfold key_eqb.
  destruct (key_compare a b) eqn:E1, (key_compare b a) eqn:E2; auto;
    try (apply key_compare_Eq_sym in E1; congruence);
    try (apply key_compare_Eq_sym in E2; congruence).
Qed.

Section Stores.
Variable A : Type.
Variable keyOf : A -> value.

Lemma store_get_put_same (r : A) (s : list A) :
  store_get keyOf (keyOf r) (store_put keyOf r s) = Some r.
Proof.
  unfold store_get. induction s as [|x s IH]; unfold store_put; simpl.
  - rewrite key_eqb_refl; reflexivity.
  - fold (store_put keyOf r s).
    destruct (key_compare (keyOf r) (keyOf x)) eqn:E; simpl.
    + rewrite key_eqb_refl; reflexivity.
    + rewrite key_eqb_refl; reflexivity.
    + rewrite key_eqb_sym. unfold key_eqb at 1. rewrite E. exact IH.
Qed.

Lemma store_put_In (r x : A) (s : list A) :
  In x (store_put keyOf r s) -> x = r \/ In x s.
Proof.
  induction s as [|y s IH]; unfold store_put; simpl.
  - intros [<-|[]]; auto.
  - fold (store_put keyOf r s).
    destruct (key_compare (keyOf r) (keyOf y)); simpl.
    + intros [<-|H]; auto.
    + intros [<-|[<-|H]]; auto.
    + intros [<-|H]; auto. apply IH in H as [->|H]; auto.
Qed.

Lemma store_put_In_new (r : A) (s : list A) : In r (store_put keyOf r s).
Proof.
  induction s as [|y s IH]; unfold store_put; simpl; auto.
  fold (store_put keyOf r s).
  destruct (key_compare (keyOf r) (keyOf y)); simpl; auto.
Qed.

End Stores.

Lemma area_get_set_same {A} (k : jsstring) (b : blob A) (a : area A) :
  area_get k (area_set k b a) = Some b.
Proof.
  induction a as [|[k' b'] a IH]; unfold area_set; simpl.
  - rewrite str_eqb_refl; reflexivity.
  - fold (area_set k b a). destruct (str_eqb k' k) eqn:E; simpl; rewrite E; auto.
Qed.

(** *** Running the primitives *)

Section Runs.
Variable P : platform.

Lemma validateTitle_run (task : Task) (w : world) :
  validateTitle task w =
  (if blank_title (title task) then Throw ValidationError
   else match title task with
        | VString _ => Ok tt
        | _ => Throw TypeError
        end, w).
Proof.
  unfold validateTitle, blank_title.
  destruct (title task) as [| |b|n|s]; simpl; try reflexivity.
  - destruct b; reflexivity.
  - destruct (n =? 0)%Z; reflexivity.
  - destruct s as [|c s]; simpl; try reflexivity.
    destruct (isEmpty (trim (c :: s))); reflexivity.
Qed.

(** The identifier [generateId] returns at the [n]-th platform reading. *)
Lemma generateId_run (w : world) :
  generateId P w =
  (Ok (lit "id_" ++ random P (tick w) ++ lit "_" ++ decimal (clock P (S (tick w)))),
   with_tick (S (S (tick w))) w).
Proof. reflexivity. Qed.

Lemma Utils_Date_now_run (w : world) :
  Utils_Date_now P w =
  (Ok (clock P (tick w) + MS_PER_HOUR)%Z, with_tick (S (tick w)) w).
Proof. reflexivity. Qed.

End Runs.

Section SaveTask.
Variable P : platform.

Lemma saveToStore_run {A} (S : store_desc A) (data : A) (w : world) :
  saveToStore S data w =
  if storable S data w then (Ok tt, written S data w) else (Throw DataError, w).
Proof.
  unfold saveToStore, storable, written, bind, get_world, modify, throw.
  destruct (db w); [destruct (valid_key (keyPath S data))|]; reflexivity.
Qed.

Lemma trackEvent_run (type : jsstring) (d : payload) (w : world) :
  trackEvent P type d w =
  (Ok true,
   written analytics (eventAt P (tick w) type d) (with_tick (4 + tick w) w)).
Proof.
  unfold trackEvent, try_catch, bind.
  rewrite generateId_run. cbn [with_tick tick].
  rewrite Utils_Date_now_run. cbn [ret with_tick tick Date_now].
  rewrite saveToStore_run.
  unfold storable, written, eventAt, generatedId, toISOString; cbn.
  destruct (db w); reflexivity.
Qed.

(** [setDefaults] only reads the platform. *)
Lemma setDefaults_run (task : Task) (w : world) :
  exists t1 n,
    setDefaults P task w = (Ok t1, with_tick (S n) w)
    /\ (tick w <= n)%nat
    /\ id t1 = (if truthy (id task) then id task
                else VString (generatedId P (tick w)))
    /\ createdAt t1 = (if stamp_truthy (createdAt task) then createdAt task
                       else SInstant (clock P (pred n) + MS_PER_HOUR))
    /\ updatedAt t1 = SInstant (clock P n + MS_PER_HOUR)
    /\ title t1 = title task
    /\ description t1 = description task
    /\ category t1 = category task
    /\ priority t1 = priority task
    /\ status t1 = status task
    /\ dueDate t1 = dueDate task
    /\ completedAt t1 = completedAt task.
Proof.
  unfold setDefaults, generateId, Utils_Date_now, Date_now, Math_random36,
    bind, ret, toISOString, generatedId.
  destruct (truthy (id task)) eqn:Eid; cbn [negb];
    destruct (stamp_truthy (createdAt task)) eqn:Ec; cbn; rewrite ?Ec; cbn.
  - eexists _, (tick w). repeat split; auto.
  - eexists _, (S (tick w)). repeat split; auto.
  - eexists _, (S (S (tick w))). repeat split; auto.
  - eexists _, (S (S (S (tick w)))). repeat split; auto.
Qed.

End SaveTask.

(** *** Trimming and escaping *)

Lemma trimStart_nil (s : jsstring) :
  trimStart s = [] <-> forallb isWhiteSpace s = true.
Proof.
  induction s as [|c s IH]; simpl; [tauto|].
  destruct (isWhiteSpace c); simpl; [exact IH|].
  split; discriminate.
Qed.

Lemma trimStart_forallb (s : jsstring) :
  forallb isWhiteSpace (trimStart s) = forallb isWhiteSpace s.
Proof.
  induction s as [|c s IH]; simpl; auto.
  destruct (isWhiteSpace c) eqn:E; simpl; auto. rewrite E; reflexivity.
Qed.

Lemma forallb_rev {A} (f : A -> bool) (l : list A) :
  forallb f (rev l) = forallb f l.
Proof.
  induction l as [|x l IH]; simpl; auto.
  rewrite forallb_app, IH; simpl. rewrite andb_true_r, andb_comm; reflexivity.
Qed.

Lemma trim_nil (s : jsstring) :
  trim s = [] <-> forallb isWhiteSpace s = true.
Proof.
  unfold trim.
  rewrite <- trimStart_forallb, <- (forallb_rev _ (trimStart s)), <- trimStart_nil.
  split; intros H.
  - apply (f_equal (@rev N)) in H. rewrite rev_involutive in H. exact H.
  - rewrite H; reflexivity.
Qed.

Lemma isEmpty_nil (s : jsstring) : isEmpty s = true <-> s = [].
Proof. destruct s; simpl; split; congruence. Qed.

Lemma escapeChar_keeps_ink (c : N) :
  isWhiteSpace c = false -> forallb isWhiteSpace (escapeChar c) = false.
Proof.
  intros H. unfold escapeChar.
  destruct (c =? 38)%N; [reflexivity|].
  destruct (c =? 160)%N; [reflexivity|].
  destruct (c =? 60)%N; [reflexivity|].
  destruct (c =? 62)%N; [reflexivity|].
  simpl. rewrite H; reflexivity.
Qed.

(** A text that is not blank is not blank once escaped. *)
Lemma escapeText_not_blank (s : jsstring) :
  isEmpty (trim s) = false -> isEmpty (trim (escapeText s)) = false.
Proof.
  intros H.
  destruct (isEmpty (trim (escapeText s))) eqn:E; auto.
  apply isEmpty_nil, trim_nil in E.
  assert (forallb isWhiteSpace s = true) as Hs.
  { clear H. induction s as [|c s IH]; auto.
    unfold escapeText in E; simpl in E. rewrite forallb_app in E.
    apply andb_true_iff in E as [E1 E2]. simpl.
    destruct (isWhiteSpace c) eqn:Ec; simpl.
    - apply IH; exact E2.
    - rewrite (escapeChar_keeps_ink _ Ec) in E1; discriminate. }
  apply trim_nil in Hs. rewrite Hs in H; discriminate.
Qed.

Lemma not_blank_not_empty (s : jsstring) :
  isEmpty (trim s) = false -> s <> [].
Proof. intros H ->. discriminate. Qed.

Lemma array_includes_In (l : list jsstring) (v : value) :
  array_includes l v = true <-> In v (map VString l).
Proof.
  unfold array_includes. rewrite existsb_exists, in_map_iff.
  split; intros [s [H1 H2]]; exists s.
  - destruct v; simpl in H2; try discriminate.
    apply str_eqb_eq in H2; subst; auto.
  - subst v; simpl; split; auto. apply str_eqb_refl.
Qed.

(** *** [saveTask] *)

Section SaveTaskFacts.
Variable P : platform.

Lemma tick_written {A} (S : store_desc A) (data : A) (w : world) :
  tick (written S data w) = tick w.
Proof. unfold written; destruct (db w); reflexivity. Qed.

Lemma saveTask_run (task : Task) (w : world) :
  saveTask P task w =
  if blank_title (title task) then (Throw ValidationError, w)
  else
    match title task with
    | VString _ =>
        match setDefaults P task w with
        | (Ok t1, w1) =>
            let t' := normalised t1 in
            if storable tasks t' w1
            then (Ok t',
                  written analytics
                    (eventAt P (tick w1) (lit "task_saved")
                       (TaskSavedData (id t') (category t') (priority t')))
                    (with_tick (4 + tick w1) (written tasks t' w1)))
            else (Throw DataError, w1)
        | (Throw e, w1) => (Throw e, w1)
        end
    | _ => (Throw TypeError, w)
    end.
Proof.
  unfold saveTask, try_catch, bind at 1.
  rewrite validateTitle_run.
  destruct (blank_title (title task)); [reflexivity|].
  destruct (title task); try reflexivity.
  unfold bind at 1.
  destruct (setDefaults P task w) as [[t1 | e] w1]; [|reflexivity].
  fold (normalised t1). unfold bind at 1.
  rewrite saveToStore_run.
  destruct (storable tasks (normalised t1) w1); [|reflexivity].
  unfold bind. rewrite trackEvent_run, tick_written. reflexivity.
Qed.

#[local] Arguments sanitizeHtml : simpl never.

Ltac normalised_cases t :=
  unfold normalised, validateStatus, validateCategory, validatePriority,
    sanitizeData;
  cbn;
  destruct (array_includes validPriorities (priority t)); cbn;
  destruct (array_includes taskCategories (category t)); cbn;
  destruct (array_includes validStatuses (status t)); cbn.

Lemma normalised_id (t : Task) : id (normalised t) = id t.
Proof. normalised_cases t; reflexivity. Qed.

Lemma normalised_stamps (t : Task) :
  dueDate (normalised t) = dueDate t
  /\ createdAt (normalised t) = createdAt t
  /\ updatedAt (normalised t) = updatedAt t
  /\ completedAt (normalised t) = completedAt t.
Proof. normalised_cases t; repeat split; reflexivity. Qed.

Lemma normalised_title (t : Task) :
  title (normalised t) = VString (sanitizeHtml (title t)).
Proof. normalised_cases t; reflexivity. Qed.

Lemma normalised_description (t : Task) :
  description (normalised t)
  = VString (sanitizeHtml (if truthy (description t) then description t
                           else VString [])).
Proof. normalised_cases t; reflexivity. Qed.

Lemma normalised_priority (t : Task) :
  priority (normalised t)
  = if array_includes validPriorities (priority t) then priority t
    else VString (lit "media").
Proof. normalised_cases t; reflexivity. Qed.

Lemma normalised_category (t : Task) :
  category (normalised t)
  = if array_includes taskCategories (category t) then category t
    else VString (lit "outros").
Proof. normalised_cases t; reflexivity. Qed.

Lemma normalised_status (t : Task) :
  status (normalised t)
  = if array_includes validStatuses (status t) then status t
    else VString (lit "pending").
Proof. normalised_cases t; reflexivity. Qed.

Lemma persisted_written (t : Task) (w : world) :
  persistedTask (written tasks t w) t.
Proof.
  unfold persistedTask, taskUnder, written. destruct w as [[d|] l o q k]; cbn.
  - apply store_get_put_same.
  - rewrite area_get_set_same. reflexivity.
Qed.

Lemma persisted_after_event (t : Task) (e : Event) (n : nat) (w : world) :
  persistedTask w t -> persistedTask (written analytics e (with_tick n w)) t.
Proof.
  unfold persistedTask, taskUnder, written.
  destruct w as [[d|] l o q k]; cbn; auto.
Qed.

End SaveTaskFacts.

Section SaveTaskClaim.
Variable P : platform.

Lemma sanitizeHtml_string (s : jsstring) :
  sanitizeHtml (VString s) = escapeText s.
Proof. unfold sanitizeHtml; destruct s; reflexivity. Qed.

Lemma escapeText_not_empty (s : jsstring) :
  isEmpty (trim s) = false -> escapeText s <> [].
Proof.
  intros H E. apply escapeText_not_blank in H. rewrite E in H. discriminate.
Qed.

Lemma blank_title_string (s : jsstring) :
  blank_title (VString s) = isEmpty (trim s).
Proof. unfold blank_title; destruct s; reflexivity. Qed.

Lemma saveTask_throws_validation (task : Task) (w : world) :
  fst (saveTask P task w) = Throw ValidationError
  <-> blank_title (title task) = true.
Proof.
  rewrite saveTask_run.
  destruct (blank_title (title task)) eqn:Eb; [tauto|].
  split; [|discriminate].
  destruct (title task); try discriminate.
  destruct (setDefaults_run P task w) as (t1 & n & Hrun & _).
  rewrite Hrun. cbv zeta.
  destruct (storable tasks (normalised t1) (with_tick (S n) w)); discriminate.
Qed.

(** What a successful [saveTask] returns, and where it leaves it. *)
Lemma saveTask_ok (task t' : Task) (w w' : world) :
  saveTask P task w = (Ok t', w') ->
  exists t1 n,
    setDefaults P task w = (Ok t1, with_tick (S n) w)
    /\ (tick w <= n)%nat
    /\ t' = normalised t1
    /\ storable tasks t' (with_tick (S n) w) = true
    /\ w' = written analytics
              (eventAt P (S n) (lit "task_saved")
                 (TaskSavedData (id t') (category t') (priority t')))
              (with_tick (4 + S n) (written tasks t' (with_tick (S n) w)))
    /\ exists s, title task = VString s /\ isEmpty (trim s) = false.
Proof.
  rewrite saveTask_run.
  destruct (blank_title (title task)) eqn:Eb; [discriminate|].
  destruct (title task) as [| | | |s] eqn:Et; try discriminate.
  destruct (setDefaults_run P task w) as (t1 & n & Hrun & Hn & _).
  rewrite Hrun. cbv zeta.
  destruct (storable tasks (normalised t1) (with_tick (S n) w)) eqn:Es;
    [|discriminate].
  intros H; inversion H; subst t'. clear H.
  exists t1, n. repeat split; auto.
  exists s. split; auto. rewrite blank_title_string in Eb; exact Eb.
Qed.

Lemma saveTask_persists (task t' : Task) (w w' : world) :
  saveTask P task w = (Ok t', w') -> persistedTask w' t'.
Proof.
  intros H.
  destruct (saveTask_ok _ _ _ _ H) as (t1 & n & _ & _ & -> & _ & -> & _).
  apply persisted_after_event, persisted_written.
Qed.

Lemma saveTask_title (task t' : Task) (w w' : world) :
  saveTask P task w = (Ok t', w') ->
  exists s, title task = VString s /\ title t' = VString (escapeText s).
Proof.
  intros H.
  destruct (saveTask_ok _ _ _ _ H) as (t1 & n & Hrun & _ & -> & _ & _ & s & Ht & _).
  destruct (setDefaults_run P task w) as (t1' & n' & Hrun' & _ & _ & _ & _ & Htitle & _).
  rewrite Hrun in Hrun'. inversion Hrun'; subst t1' n'.
  exists s. split; auto.
  rewrite normalised_title, Htitle, Ht. apply f_equal, sanitizeHtml_string.
Qed.

(** C1 (as amended). [saveTask] fails with the validation error exactly
    when the title is empty after trimming. When it succeeds, the task it
    returns is the one the tasks store holds under its id, and in it:
    priority, status and category belong to their fixed sets, a value
    outside the set having been replaced by ['media'], ['pending'] and
    ['outros'] and a value inside it kept; the title is the HTML-escaped
    text of the given title and is not empty (no bound is put on its
    length); [updatedAt] is a fresh reading of the clock; the id and
    [createdAt] given are kept, and assigned when missing. *)
Theorem saveTask_validates_and_normalises (task : Task) (w : world) :
  (fst (saveTask P task w) = Throw ValidationError
   <-> blank_title (title task) = true)
  /\
  (forall (t' : Task) (w' : world),
     saveTask P task w = (Ok t', w') ->
     In (priority t') (map VString validPriorities)
     /\ (In (priority task) (map VString validPriorities) ->
         priority t' = priority task)
     /\ (~ In (priority task) (map VString validPriorities) ->
         priority t' = VString (lit "media"))
     /\ In (status t') (map VString validStatuses)
     /\ (In (status task) (map VString validStatuses) ->
         status t' = status task)
     /\ (~ In (status task) (map VString validStatuses) ->
         status t' = VString (lit "pending"))
     /\ In (category t') (map VString taskCategories)
     /\ (In (category task) (map VString taskCategories) ->
         category t' = category task)
     /\ (~ In (category task) (map VString taskCategories) ->
         category t' = VString (lit "outros"))
     /\ (exists s, title task = VString s
                   /\ isEmpty (trim s) = false
                   /\ title t' = VString (escapeText s)
                   /\ escapeText s <> [])
     /\ (exists n, (tick w <= n < tick w')%nat
                   /\ updatedAt t' = SInstant (clock P n + MS_PER_HOUR))
     /\ truthy (id t') = true
     /\ (truthy (id task) = true -> id t' = id task)
     /\ (truthy (id task) = false ->
         id t' = VString (generatedId P (tick w)))
     /\ stamp_truthy (createdAt t') = true
     /\ (stamp_truthy (createdAt task) = true ->
         createdAt t' = createdAt task)
     /\ persistedTask w' t').
Proof.
  split; [apply saveTask_throws_validation|].
  intros t' w' H.
  destruct (saveTask_ok _ _ _ _ H) as (t1 & n & Hrun & Hn & -> & Hs & -> & s & Ht & Hb).
  destruct (setDefaults_run P task w)
    as (t1' & n' & Hrun' & _ & Hid & Hc & Hu & Htitle & _ & Hcat & Hpri & Hst & _).
  rewrite Hrun in Hrun'. inversion Hrun' as [[E1 E2]]. subst t1' n'. clear Hrun'.
  destruct (normalised_stamps t1) as (_ & Ecr & Eup & _).
  rewrite normalised_priority, normalised_status, normalised_category,
    normalised_title, normalised_id, Ecr, Eup, Hpri, Hst, Hcat, Htitle, Ht.
  repeat match goal with |- _ /\ _ => split end.
  - destruct (array_includes validPriorities (priority task)) eqn:E.
    + apply array_includes_In; exact E.
    + simpl; auto.
  - intros Hin. apply array_includes_In in Hin. rewrite Hin; reflexivity.
  - intros Hin. destruct (array_includes validPriorities (priority task)) eqn:E; auto.
    apply array_includes_In in E; contradiction.
  - destruct (array_includes validStatuses (status task)) eqn:E.
    + apply array_includes_In; exact E.
    + simpl; auto.
  - intros Hin. apply array_includes_In in Hin. rewrite Hin; reflexivity.
  - intros Hin. destruct (array_includes validStatuses (status task)) eqn:E; auto.
    apply array_includes_In in E; contradiction.
  - destruct (array_includes taskCategories (category task)) eqn:E.
    + apply array_includes_In; exact E.
    + simpl; auto 10.
  - intros Hin. apply array_includes_In in Hin. rewrite Hin; reflexivity.
  - intros Hin. destruct (array_includes taskCategories (category task)) eqn:E; auto.
    apply array_includes_In in E; contradiction.
  - exists s. rewrite sanitizeHtml_string. repeat split; auto.
    apply escapeText_not_empty; exact Hb.
  - exists n. rewrite tick_written. cbn [tick with_tick]. split; [lia|exact Hu].
  - rewrite Hid. destruct (truthy (id task)) eqn:E; auto.
  - intros E. rewrite Hid, E; reflexivity.
  - intros E. rewrite Hid, E; reflexivity.
  - rewrite Hc. destruct (stamp_truthy (createdAt task)) eqn:E; auto.
  - intros E. rewrite Hc, E; reflexivity.
  - apply persisted_after_event, persisted_written.
Qed.

(** A task whose title is a string that is not blank is accepted, unless
    IndexedDB refuses its id as a key. *)
Lemma saveTask_accepts (task : Task) (w : world) (s : jsstring) :
  title task = VString s ->
  isEmpty (trim s) = false ->
  db w = None \/ truthy (id task) = false \/ valid_key (id task) = true ->
  exists t' w', saveTask P task w = (Ok t', w').
Proof.
  intros Ht Hb Hk. rewrite saveTask_run, Ht, blank_title_string, Hb.
  destruct (setDefaults_run P task w) as (t1 & n & Hrun & _ & Hid & _).
  rewrite Hrun. cbv zeta.
  assert (storable tasks (normalised t1) (with_tick (S n) w) = true) as ->.
  { unfold storable. cbn [db with_tick]. destruct (db w) eqn:Ed; auto.
    cbn [keyPath tasks]. rewrite normalised_id, Hid.
    destruct Hk as [Hk|[Hk|Hk]]; [discriminate| |].
    - rewrite Hk; reflexivity.
    - destruct (truthy (id task)); auto. }
  eauto.
Qed.

End SaveTaskClaim.

Import StorageExamples.

Lemma saveTask_validates_and_normalises_witness :
  exists t' w',
    saveTask examplePlatform bill_task empty_world = (Ok t', w')
    /\ In (priority t') (map VString validPriorities)
    /\ status t' = VString (lit "pending")
    /\ persistedTask w' t'.
Proof.
  destruct (saveTask_validates_and_normalises examplePlatform bill_task empty_world)
    as [_ H].
  destruct (saveTask examplePlatform bill_task empty_world) as [[t'|e] w'] eqn:E.
  - exists t', w'. specialize (H t' w' eq_refl).
    destruct H as (H1 & _ & _ & _ & _ & H6 & _ & _ & _ & _ & _ & _ & _ & _ & _ & _ & H17).
    repeat split; auto.
    apply H6. vm_compute. intuition discriminate.
  - vm_compute in E. discriminate.
Defined.

(** C1, counterexample: a title of 101 characters is accepted and
    persisted as it is. *)
Lemma saveTask_title_longer_than_100 :
  exists t' w',
    saveTask examplePlatform long_title_task empty_world = (Ok t', w')
    /\ persistedTask w' t'
    /\ exists s, title t' = VString s /\ (100 < List.length s)%nat.
Proof.
  eexists. eexists. split; [vm_compute; reflexivity|].
  split; [vm_compute; reflexivity|].
  eexists. split; [reflexivity|]. vm_compute. lia.
Qed.

(** *** [completeTask] *)

Section CompleteTask.
Variable P : platform.

Lemma ceil_div_spec (a b : Z) :
  (0 < b)%Z ->
  ((ceil_div a b - 1) * b < a <= ceil_div a b * b)%Z.
Proof.
  intros Hb. unfold ceil_div.
  pose proof (Z.div_mod (- a) b ltac:(lia)) as Hdm.
  pose proof (Z.mod_pos_bound (- a) b Hb) as Hm.
  nia.
Qed.

Lemma area_set_holds {A} (key : jsstring) (e : A) (a : area A) :
  In e (flat_map (fun x => match snd x with One r => [r] | Many l => l end)
                 (area_set key (One e) a)).
Proof.
  induction a as [|[k' b] a IH]; unfold area_set; simpl; auto.
  fold (area_set key (One e) a).
  destruct (str_eqb k' key); simpl; auto.
  apply in_or_app; right; exact IH.
Qed.

Lemma recorded_written (e : Event) (w : world) :
  In e (recordedEvents (written analytics e w)).
Proof.
  unfold recordedEvents, written. destruct w as [[d|] l o q k];
    cbn [db with_db with_localStorage localStorage analytics objects
         with_objects items with_items analyticsStore analyticsItems].
  - apply store_put_In_new.
  - apply area_set_holds.
Qed.

(** [getTask] leaves the world as it is. *)
Lemma getTask_world (i : value) (w : world) : snd (getTask P i w) = w.
Proof.
  destruct w as [[d|] l o q k];
    unfold getTask, getTasks, getFromStore, try_catch, bind, get_world,
      throw, ret; cbn.
  - destruct (truthy i); [destruct (valid_key i)|]; reflexivity.
  - reflexivity.
Qed.

(** C10. When [completeTask(id)] succeeds, a [task_completed] event has
    been recorded whose [daysToComplete] is [null] if the task has no due
    date and otherwise the ceiling, in whole days, of the time from the
    task's [createdAt] to the completion instant just stamped in
    [completedAt]; the due date itself does not enter the figure. *)
Theorem completeTask_days_from_creation (i : value) (w w' : world) :
  completeTask P i w = (Ok true, w') ->
  exists (found saved : Task) (e : Event) (n : nat),
    fst (getTask P i w) = Ok (FOne found)
    /\ (tick w <= n)%nat
    /\ completedAt saved = SInstant (clock P n + MS_PER_HOUR)
    /\ dueDate saved = dueDate found
    /\ (stamp_truthy (createdAt found) = true ->
        createdAt saved = createdAt found)
    /\ status saved = VString (lit "completed")
    /\ In e (recordedEvents w')
    /\ event_type e = lit "task_completed"
    /\ data e =
         TaskCompletedData i (category saved) (priority saved)
           (if stamp_truthy (dueDate found)
            then Some (daysBetween (createdAt saved) (completedAt saved))
            else None)
    /\ (forall c : Z,
          time_value (createdAt saved) = Some c ->
          exists d : Z,
            daysBetween (createdAt saved) (completedAt saved) = Num d
            /\ ((d - 1) * MS_PER_DAY
                < clock P n + MS_PER_HOUR - c
                <= d * MS_PER_DAY)%Z).
Proof.
  unfold completeTask, try_catch, bind at 1.
  destruct (getTask P i w) as [[f|err] wg] eqn:Eg; [|discriminate].
  destruct f as [|found|l]; [discriminate| |].
  2:{ unfold bind. rewrite Utils_Date_now_run. discriminate. }
  unfold bind at 1. rewrite Utils_Date_now_run. cbn [ret].
  unfold bind at 1.
  set (task2 := set_completedAt _ _).
  destruct (saveTask P task2 (with_tick (S (tick wg)) wg))
    as [[saved|err] ws] eqn:Es; [|discriminate].
  unfold bind. rewrite trackEvent_run. cbn [ret].
  intros H; inversion H; subst w'; clear H.
  assert (tick w <= tick wg)%nat as Htick.
  { pose proof (getTask_world i w) as Hw. rewrite Eg in Hw. cbn in Hw.
    subst wg. auto. }
  destruct (saveTask_ok P _ _ _ _ Es) as (t1 & m & Hrun & Hm & -> & _ & _ & _).
  destruct (setDefaults_run P task2 (with_tick (S (tick wg)) wg))
    as (t1' & m' & Hrun' & _ & _ & Hc & _ & _ & _ & _ & _ & Hst & Hdue & Hcomp).
  rewrite Hrun in Hrun'. inversion Hrun'; subst t1' m'. clear Hrun'.
  destruct (normalised_stamps t1) as (Edue & Ecr & _ & Eco).
  eexists found, (normalised t1), _, (tick wg).
  split; [reflexivity|].
  split; [exact Htick|].
  split; [rewrite Eco, Hcomp; reflexivity|].
  split; [rewrite Edue, Hdue; reflexivity|].
  split.
  { intros Ht. rewrite Ecr, Hc. subst task2; cbn. rewrite Ht; reflexivity. }
  split.
  { rewrite normalised_status, Hst. subst task2; cbn.
    replace (array_includes validStatuses (VString (lit "completed")))
      with true by reflexivity.
    reflexivity. }
  split; [apply recorded_written|].
  split; [reflexivity|].
  split.
  { cbn [data eventAt]. rewrite Edue, Hdue. reflexivity. }
  intros c Hcv. unfold daysBetween, date_minus.
  rewrite Hcv, Eco, Hcomp. subst task2; cbn [completedAt set_completedAt time_value toISOString].
  eexists; split; [reflexivity|].
  apply ceil_div_spec. reflexivity.
Qed.

End CompleteTask.

Lemma completeTask_days_from_creation_witness :
  exists e,
    In e (recordedEvents (snd (completeTask examplePlatform saved_id saved_world)))
    /\ event_type e = lit "task_completed"
    /\ exists c p days, data e = TaskCompletedData saved_id c p (Some days).
Proof.
  assert (completeTask examplePlatform saved_id saved_world
          = (Ok true, snd (completeTask examplePlatform saved_id saved_world)))
    as H by (vm_compute; reflexivity).
  destruct (completeTask_days_from_creation examplePlatform _ _ _ H)
    as (found & saved & e & n & Hf & _ & _ & _ & _ & _ & Hin & Hty & Hd & _).
  exists e. split; [exact Hin|]. split; [exact Hty|].
  exists (category saved), (priority saved). rewrite Hd.
  vm_compute in Hf. inversion Hf; subst found. clear Hf.
  cbn [dueDate stamp_truthy]. eexists; reflexivity.
Defined.

(** *** The sync queue *)

Lemma drain_run (queue : list QueueItem) (w : world) :
  for_of queue syncItem w =
  (Ok tt, with_syncQueue (syncQueue w ++ map invoked (filter throwsNow queue)) w).
Proof.
  revert w; induction queue as [|item queue IH]; intros w.
  - cbn. rewrite app_nil_r. destruct w; reflexivity.
  - cbn [for_of filter]. unfold bind at 1, syncItem at 1, throwsNow at 1.
    destruct (invoke (operation item)) as [threw op] eqn:Ei.
    cbn [fst]. destruct threw.
    + assert (invoked item =
              {| item_id := item_id item; operation := op;
                 item_timestamp := item_timestamp item |}) as Hinv
        by (unfold invoked; rewrite Ei; reflexivity).
      unfold push, modify. rewrite IH. cbn [map syncQueue with_syncQueue].
      rewrite Hinv, <- app_assoc. destruct w; reflexivity.
    + cbn [ret]. apply IH.
Qed.

Lemma NoDup_map_injective {A B} (f : A -> B) (l : list A) (a b : A) :
  NoDup (map f l) -> In a l -> In b l -> f a = f b -> a = b.
Proof.
  induction l as [|x l IH]; simpl; [tauto|].
  intros Hnd Ha Hb Hf. inversion Hnd as [|? ? Hx Hl]; subst.
  destruct Ha as [->|Ha], Hb as [->|Hb]; auto.
  - exfalso. apply Hx. rewrite Hf. apply in_map; exact Hb.
  - exfalso. apply Hx. rewrite <- Hf. apply in_map; exact Ha.
Qed.

Lemma processSyncQueue_idle (w : world) :
  isOnline w = false \/ syncQueue w = [] ->
  processSyncQueue w = (Ok tt, w).
Proof.
  intros H. unfold processSyncQueue, bind, get_world.
  destruct H as [-> | ->]; [reflexivity|].
  rewrite orb_true_r; reflexivity.
Qed.

Lemma processSyncQueue_drains (w : world) :
  isOnline w = true -> syncQueue w <> [] ->
  processSyncQueue w =
  (Ok tt,
   let q := map invoked (filter throwsNow (syncQueue w)) in
   {| db := db w;
      localStorage :=
        {| taskItems := taskItems (localStorage w);
           settingItems := settingItems (localStorage w);
           analyticsItems := analyticsItems (localStorage w);
           syncQueueItem := Some (mirror q) |};
      isOnline := isOnline w;
      syncQueue := q;
      tick := tick w |}).
Proof.
  intros Hon Hq. unfold processSyncQueue, bind at 1, get_world.
  rewrite Hon. destruct (syncQueue w) as [|item queue] eqn:Eq; [congruence|].
  cbn [negb orb List.length Nat.eqb].
  unfold bind at 1, modify. unfold bind at 1.
  rewrite drain_run. cbn [syncQueue with_syncQueue app].
  unfold persistSyncQueue, modify, mirror, with_localStorage, with_syncQueue.
  cbn [db localStorage isOnline syncQueue tick]. rewrite Hon. reflexivity.
Qed.

Lemma drained_queue (w : world) :
  isOnline w = true ->
  syncQueue (snd (processSyncQueue w))
  = map invoked (filter throwsNow (syncQueue w))
  /\ isOnline (snd (processSyncQueue w)) = true.
Proof.
  intros Hon. destruct (syncQueue w) as [|item queue] eqn:Eq.
  - rewrite processSyncQueue_idle by auto. cbn [snd]. rewrite Eq; auto.
  - rewrite processSyncQueue_drains by congruence.
    cbn [snd syncQueue isOnline]. rewrite Eq; auto.
Qed.

(** C6. [processSyncQueue] changes nothing when the manager is offline or
    the queue is empty. Otherwise it invokes the operation of every item of
    the queue as it stood, once and in order; the queue it leaves holds
    exactly the items whose operation threw, and the persisted mirror is
    the mirror of that queue. Hence an item whose operation throws on this
    invocation and succeeds on the next is in the queue after one drain and
    no longer in it after two (item ids being distinct). *)
Theorem processSyncQueue_retries_failures (w : world) :
  (isOnline w = false \/ syncQueue w = [] -> processSyncQueue w = (Ok tt, w))
  /\
  (isOnline w = true -> syncQueue w <> [] ->
   exists w',
     processSyncQueue w = (Ok tt, w')
     /\ syncQueue w' = map invoked (filter throwsNow (syncQueue w))
     /\ syncQueueItem (localStorage w') = Some (mirror (syncQueue w'))
     /\ db w' = db w /\ isOnline w' = isOnline w /\ tick w' = tick w
     /\ taskItems (localStorage w') = taskItems (localStorage w)
     /\ settingItems (localStorage w') = settingItems (localStorage w)
     /\ analyticsItems (localStorage w') = analyticsItems (localStorage w))
  /\
  (forall item : QueueItem,
     isOnline w = true ->
     NoDup (map item_id (syncQueue w)) ->
     In item (syncQueue w) ->
     throwsNow item = true ->
     throwsNow (invoked item) = false ->
     let w1 := snd (processSyncQueue w) in
     let w2 := snd (processSyncQueue w1) in
     In (item_id item) (map item_id (syncQueue w1))
     /\ ~ In (item_id item) (map item_id (syncQueue w2))).
Proof.
  split; [apply processSyncQueue_idle|]. split.
  - intros Hon Hq. eexists. split; [apply processSyncQueue_drains; auto|].
    cbn. repeat split; reflexivity.
  - intros item Hon Hnd Hin Hthrows Hthen w1 w2.
    destruct (drained_queue w Hon) as [Hq1 Hon1]. fold w1 in Hq1, Hon1.
    destruct (drained_queue w1 Hon1) as [Hq2 _]. fold w2 in Hq2.
    split.
    + rewrite Hq1. apply in_map_iff. exists (invoked item). split; auto.
      apply in_map. apply filter_In; auto.
    + rewrite Hq2, Hq1. intros Habs.
      apply in_map_iff in Habs as (x & Hid & Hx).
      apply in_map_iff in Hx as (y & <- & Hy).
      apply filter_In in Hy as [Hy Hty].
      apply in_map_iff in Hy as (z & <- & Hz).
      apply filter_In in Hz as [Hz Htz].
      assert (z = item) as ->.
      { apply (NoDup_map_injective item_id (syncQueue w)); auto. }
      congruence.
Qed.

Lemma processSyncQueue_retries_failures_witness :
  In (item_id flaky_item)
     (map item_id (syncQueue (snd (processSyncQueue queued_world))))
  /\ ~ In (item_id flaky_item)
        (map item_id
           (syncQueue (snd (processSyncQueue
                              (snd (processSyncQueue queued_world)))))).
Proof.
  destruct (processSyncQueue_retries_failures queued_world) as (_ & _ & H).
  apply (H flaky_item).
  - reflexivity.
  - cbn. repeat constructor; cbn; intuition discriminate.
  - cbn. right; left; reflexivity.
  - reflexivity.
  - reflexivity.
Defined.

(** *** [Array.prototype.sort] *)

Section ArraySortFacts.
Variable A : Type.
Variable comparefn : A -> A -> option Z.

#[local] Abbreviation before := (fun x y => (sortCompare comparefn x y <= 0)%Z).

Lemma insert_perm (x : A) (l : list A) :
  Permutation (insert comparefn x l) (x :: l).
Proof.
  induction l as [|y l IH]; simpl; auto.
  destruct (sortCompare comparefn x y <=? 0)%Z; auto.
  rewrite IH. apply perm_swap.
Qed.

Lemma Array_sort_perm (l : list A) : Permutation (Array_sort comparefn l) l.
Proof.
  induction l as [|x l IH]; simpl; auto.
  rewrite insert_perm. auto.
Qed.

(** The comparator never says "after" both ways. *)
Hypothesis antisymmetric :
  forall x y, (0 < sortCompare comparefn x y)%Z ->
              (sortCompare comparefn y x <= 0)%Z.

Lemma insert_HdRel (x y : A) (l : list A) :
  before y x -> HdRel before y l -> HdRel before y (insert comparefn x l).
Proof.
  intros Hyx Hy. destruct l as [|z l]; simpl.
  - constructor; exact Hyx.
  - destruct (sortCompare comparefn x z <=? 0)%Z.
    + constructor; exact Hyx.
    + inversion Hy; subst. constructor; assumption.
Qed.

Lemma insert_Sorted (x : A) (l : list A) :
  Sorted before l -> Sorted before (insert comparefn x l).
Proof.
  induction l as [|y l IH]; simpl; intros Hs.
  - repeat constructor.
  - destruct (sortCompare comparefn x y <=? 0)%Z eqn:E.
    + constructor; auto. constructor. apply Z.leb_le; exact E.
    + inversion Hs; subst. constructor; auto.
      apply insert_HdRel; auto.
      apply antisymmetric. apply Z.leb_gt in E. exact E.
Qed.

(** Any two neighbours of the sorted array are in comparator order. *)
Lemma Array_sort_Sorted (l : list A) : Sorted before (Array_sort comparefn l).
Proof.
  induction l as [|x l IH]; simpl; [constructor|].
  apply insert_Sorted; exact IH.
Qed.

End ArraySortFacts.

(** *** [getTasks] *)

Lemma rank_eqb_sym (x y : rank) : rank_eqb x y = rank_eqb y x.
Proof.
  destruct x, y; cbn; auto using Z.eqb_sym, str_eqb_sym.
Qed.

Lemma rank_eqb_eq (x y : rank) : rank_eqb x y = true <-> x = y.
Proof.
  destruct x as [n|k], y as [m|k']; cbn.
  - rewrite Z.eqb_eq. split; congruence.
  - split; discriminate.
  - split; discriminate.
  - rewrite str_eqb_eq. split; congruence.
Qed.

Lemma compareTasks_antisymmetric (x y : Task) :
  (0 < sortCompare compareTasks x y)%Z -> (sortCompare compareTasks y x <= 0)%Z.
Proof.
  unfold sortCompare, compareTasks, date_minus.
  rewrite (rank_eqb_sym (priorityRank (priority y))).
  rewrite (andb_comm (stamp_truthy (dueDate y))).
  destruct (rank_eqb (priorityRank (priority x)) (priorityRank (priority y)));
    cbn [negb].
  - destruct (stamp_truthy (dueDate x) && stamp_truthy (dueDate y)).
    + destruct (time_value (dueDate x)), (time_value (dueDate y)); lia.
    + destruct (time_value (createdAt x)), (time_value (createdAt y)); lia.
  - destruct (priorityRank (priority x)), (priorityRank (priority y));
      cbn; lia.
Qed.

(** Where the comparator gives a number, it puts no task before one of
    higher rank. *)
Lemma compareTasks_priority (a b : Task) :
  compareTasks a b <> None ->
  (sortCompare compareTasks a b <= 0)%Z -> byPriority a b.
Proof.
  unfold sortCompare, compareTasks, byPriority.
  destruct (priorityRank (priority a)) as [n|k],
           (priorityRank (priority b)) as [m|k']; cbn.
  - destruct (Z.eqb_spec n m); cbn; intros _ H; lia.
  - intros H; exfalso; apply H; reflexivity.
  - intros H; exfalso; apply H; reflexivity.
  - destruct (str_eqb k k') eqn:E; cbn.
    + intros _ _. apply str_eqb_eq; exact E.
    + intros H; exfalso; apply H; reflexivity.
Qed.

Lemma compareTasks_secondary (a b : Task) :
  (sortCompare compareTasks a b <= 0)%Z -> bySecondaryKey a b.
Proof.
  unfold sortCompare, compareTasks, bySecondaryKey, date_minus.
  intros H Heq. apply rank_eqb_eq in Heq. rewrite Heq in H. cbn [negb] in H.
  destruct (stamp_truthy (dueDate a) && stamp_truthy (dueDate b)).
  - intros da db Ha Hb. rewrite Ha, Hb in H. lia.
  - intros ca cb Ha Hb. rewrite Ha, Hb in H. lia.
Qed.

(** A list whose neighbours are in order is in order throughout, when the
    order is transitive on its elements. *)
Lemma Sorted_StronglySorted_on {A} (R : A -> A -> Prop) (l : list A) :
  (forall a b c, In a l -> In b l -> In c l -> R a b -> R b c -> R a c) ->
  Sorted R l -> StronglySorted R l.
Proof.
  induction l as [|x l IH]; intros Htrans Hs; [constructor|].
  inversion Hs as [|? ? Hl Hd]; subst.
  assert (StronglySorted R l) as Hss.
  { apply IH; auto. intros a b c Ha Hb Hc. apply Htrans; right; assumption. }
  constructor; [exact Hss|].
  clear IH Hs. revert Hd Htrans.
  induction Hss as [|y l Hss IH Hy]; intros Hd Htrans; [constructor|].
  inversion Hd as [|? ? Hxy]; subst.
  constructor; [exact Hxy|].
  apply Forall_forall. intros z Hz. rewrite Forall_forall in Hy.
  apply (Htrans x y z); cbn; auto.
Qed.

Lemma StronglySorted_weaken_on {A} (R R' : A -> A -> Prop) (l : list A) :
  (forall a b, In a l -> In b l -> R a b -> R' a b) ->
  StronglySorted R l -> StronglySorted R' l.
Proof.
  intros Himp Hs. induction Hs as [|x l Hl IH Hx]; [constructor|].
  constructor.
  - apply IH. intros a b Ha Hb. apply Himp; right; assumption.
  - apply Forall_forall. intros z Hz. rewrite Forall_forall in Hx.
    apply Himp; cbn; auto.
Qed.

(** The test of consistency is sound. *)
Lemma consistentOnb_sound {A} (comparefn : A -> A -> option Z) (l : list A) :
  consistentOnb comparefn l = true -> consistentOn comparefn l.
Proof.
  unfold consistentOnb, consistentOn. rewrite forallb_forall. intros H. split.
  - intros a b Ha Hb. specialize (H a Ha). rewrite forallb_forall in H.
    specialize (H b Hb). apply andb_true_iff in H as [H _].
    destruct (comparefn a b); [discriminate|discriminate H].
  - intros a b c Ha Hb Hc Hab Hbc. specialize (H a Ha).
    rewrite forallb_forall in H. specialize (H b Hb).
    apply andb_true_iff in H as [_ H]. rewrite forallb_forall in H.
    specialize (H c Hc).
    apply Z.leb_le in Hab, Hbc. rewrite Hab, Hbc in H. cbn in H.
    apply Z.leb_le; exact H.
Qed.

Lemma consistentOn_incl {A} (comparefn : A -> A -> option Z) (l l' : list A) :
  incl l' l -> consistentOn comparefn l -> consistentOn comparefn l'.
Proof.
  intros Hincl [Hnum Htrans]. split.
  - intros a b Ha Hb. apply Hnum; apply Hincl; assumption.
  - intros a b c Ha Hb Hc. apply Htrans; apply Hincl; assumption.
Qed.

Section GetTasks.
Variable P : platform.

Lemma filter_result_incl {A} (p : A -> result bool) (l r : list A) :
  filter_result p l = Ok r -> incl r l.
Proof.
  revert r; induction l as [|x l IH]; simpl; intros r H.
  - inversion H; subst. apply incl_refl.
  - destruct (p x) as [b|]; [|discriminate].
    destruct (filter_result p l) as [r'|]; [|discriminate].
    inversion H; subst. specialize (IH _ eq_refl).
    destruct b; [apply incl_cons; [left; auto|apply incl_tl; auto]
                |apply incl_tl; auto].
Qed.

Lemma incl_filter_of {A} (f : A -> bool) (b : bool) (l : list A) :
  incl (if b then filter f l else l) l.
Proof. destruct b; [apply incl_filter | apply incl_refl]. Qed.

Lemma applyFilters_incl (filters : TaskFilters) (l r : list Task) (w w' : world) :
  applyFilters P filters l w = (Ok r, w') -> incl r l.
Proof.
  unfold applyFilters.
  set (t3 := if truthy (f_priority filters) then _ else _).
  assert (incl t3 l) as H3.
  { subst t3. eapply incl_tran; [apply incl_filter_of|].
    eapply incl_tran; [apply incl_filter_of|]. apply incl_filter_of. }
  clearbody t3. unfold bind.
  destruct (truthy (f_today filters)).
  - rewrite Utils_Date_now_run. cbn [ret].
    destruct (truthy (f_search filters)).
    + destruct (f_search filters); try discriminate.
      unfold lift_result. intros H; inversion H as [[Hr Hw]].
      apply filter_result_incl in Hr.
      eapply incl_tran; [exact Hr|]. eapply incl_tran; [apply incl_filter|exact H3].
    + intros H; inversion H; subst.
      eapply incl_tran; [apply incl_filter|exact H3].
  - cbn [ret]. destruct (truthy (f_search filters)).
    + destruct (f_search filters); try discriminate.
      unfold lift_result. intros H; inversion H as [[Hr Hw]].
      apply filter_result_incl in Hr.
      eapply incl_tran; [exact Hr|exact H3].
    + intros H; inversion H; subst. exact H3.
Qed.

Lemma getFromStore_tasks_all (w : world) :
  getFromStore tasks VNull w = (Ok (FMany (storedTasks w)), w)
  \/ exists f, getFromStore tasks VNull w = (Ok f, w)
               /\ as_array f = storedTasks w.
Proof.
  unfold getFromStore, storedTasks, bind, get_world.
  destruct (db w); cbn; [left; reflexivity|].
  right. eexists; split; reflexivity.
Qed.

(** [getTasks] always resolves, to the sorted selection of the stored
    tasks. *)
Lemma getTasks_selected (filters : TaskFilters) (w : world) :
  exists w',
    getTasks P filters w
    = (Ok (Array_sort compareTasks
             (selectedTasks P filters (storedTasks w) w)), w').
Proof.
  unfold getTasks, selectedTasks, try_catch, bind at 1.
  destruct (getFromStore_tasks_all w) as [H | [f [H Hf]]]; rewrite H.
  - unfold bind. cbn [as_array].
    destruct (applyFilters P filters (storedTasks w) w) as [[r|e] w'];
      exists w'; reflexivity.
  - unfold bind. rewrite Hf.
    destruct (applyFilters P filters (storedTasks w) w) as [[r|e] w'];
      exists w'; reflexivity.
Qed.

Lemma selectedTasks_incl (filters : TaskFilters) (l : list Task) (w : world) :
  incl (selectedTasks P filters l w) l.
Proof.
  unfold selectedTasks.
  destruct (applyFilters P filters l w) as [[r|e] w'] eqn:E.
  - apply applyFilters_incl in E. exact E.
  - apply incl_nil_l.
Qed.

(** Without filters, all the stored tasks are returned, sorted. *)
Lemma getTasks_all (w : world) :
  getTasks P no_filters w = (Ok (Array_sort compareTasks (storedTasks w)), w).
Proof.
  unfold getTasks, try_catch, bind at 1.
  destruct (getFromStore_tasks_all w) as [H | [f [H Hf]]]; rewrite H;
    unfold bind, applyFilters; cbn; rewrite ?Hf; reflexivity.
Qed.

(** C2 (as amended). Whatever the filters, [getTasks] resolves to a
    rearrangement of the tasks the filters select, all of them stored.
    When the comparator is consistent on the selected tasks (it gives a
    number for any two of them and orders them transitively, which is when
    the language fixes the result of [sort]), priority is the primary key
    of the result: no task is preceded by one of lower rank (['alta']
    before ['media'] before ['baixa'] and the priorities the table
    misses). Any two tasks of equal rank are then ordered by due date,
    earliest first, when both have a due date, and otherwise, that is as
    soon as one of them has none, by creation time, latest first: a task
    without a due date is placed by its creation time, not after the tasks
    that have one. *)
Theorem getTasks_sorted (filters : TaskFilters) (w : world) :
  exists (l : list Task) (w' : world),
    getTasks P filters w = (Ok l, w')
    /\ Permutation l (selectedTasks P filters (storedTasks w) w)
    /\ incl l (storedTasks w)
    /\ (consistentOn compareTasks (selectedTasks P filters (storedTasks w) w) ->
        StronglySorted byPriority l /\ StronglySorted bySecondaryKey l).
Proof.
  destruct (getTasks_selected filters w) as [w' Hrun].
  set (l0 := selectedTasks P filters (storedTasks w) w) in *.
  pose proof (Array_sort_perm _ compareTasks l0) as Hperm.
  exists (Array_sort compareTasks l0), w'.
  split; [exact Hrun|]. split; [exact Hperm|]. split.
  { intros t Ht. apply (selectedTasks_incl filters (storedTasks w) w).
    apply (Permutation_in _ Hperm); exact Ht. }
  intros Hcons.
  assert (consistentOn compareTasks (Array_sort compareTasks l0))
    as [Hnum Htrans].
  { eapply consistentOn_incl; [|exact Hcons].
    intros t Ht. apply (Permutation_in _ Hperm); exact Ht. }
  assert (StronglySorted
            (fun x y => (sortCompare compareTasks x y <= 0)%Z)
            (Array_sort compareTasks l0)) as Hsorted.
  { apply Sorted_StronglySorted_on; [exact Htrans|].
    apply Array_sort_Sorted. apply compareTasks_antisymmetric. }
  split.
  - eapply StronglySorted_weaken_on; [|exact Hsorted].
    intros a b Ha Hb. apply compareTasks_priority. apply Hnum; assumption.
  - eapply StronglySorted_weaken_on; [|exact Hsorted].
    intros a b _ _. apply compareTasks_secondary.
Qed.

End GetTasks.

Lemma getTasks_sorted_witness :
  consistentOn compareTasks
    (selectedTasks examplePlatform no_filters (storedTasks ranked_world)
       ranked_world)
  /\ exists (l : list Task) (w' : world),
       getTasks examplePlatform no_filters ranked_world = (Ok l, w')
       /\ l = [high_task; early_task; late_task; low_task]
       /\ Permutation l ranked_tasks
       /\ StronglySorted byPriority l
       /\ StronglySorted bySecondaryKey l.
Proof.
  assert (consistentOn compareTasks
            (selectedTasks examplePlatform no_filters
               (storedTasks ranked_world) ranked_world)) as Hcons.
  { apply consistentOnb_sound. vm_compute. reflexivity. }
  split; [exact Hcons|].
  destruct (getTasks_sorted examplePlatform no_filters ranked_world)
    as (l & w' & Hrun & Hperm & _ & Hsorted).
  destruct (Hsorted Hcons) as [Hp Hs].
  assert (getTasks examplePlatform no_filters ranked_world
          = (Ok [high_task; early_task; late_task; low_task], ranked_world))
    as Hc by (vm_compute; reflexivity).
  exists l, w'. split; [exact Hrun|]. split; [congruence|].
  split; [exact Hperm|]. split; [exact Hp|exact Hs].
Defined.

(** C2, counterexample: of two tasks of equal priority, the one without a
    due date comes first because it was created later. *)
Lemma getTasks_undated_task_first :
  exists w',
    getTasks examplePlatform no_filters two_tasks_world
    = (Ok [undated_task; dated_task], w')
    /\ priority undated_task = priority dated_task
    /\ stamp_truthy (dueDate undated_task) = false
    /\ stamp_truthy (dueDate dated_task) = true.
Proof.
  eexists. split; [vm_compute; reflexivity|]. repeat split.
Qed.

(** *** [cleanupOldData] *)

Section Cleanup.
Variable P : platform.

Lemma filter_filter {A} (f g : A -> bool) (l : list A) :
  filter f (filter g l) = filter (fun x => g x && f x) l.
Proof.
  induction l as [|x l IH]; simpl; auto.
  destruct (g x); simpl; [destruct (f x)|]; rewrite IH; reflexivity.
Qed.

(** Deleting the records of [olds] one by one. *)
Lemma delete_all {A} (keyOf : A -> value) (olds s : list A) :
  fold_left (fun acc e => store_delete keyOf (keyOf e) acc) olds s
  = filter (fun x => negb (existsb (fun e => key_eqb (keyOf x) (keyOf e)) olds)) s.
Proof.
  revert s; induction olds as [|e olds IH]; intros s; simpl.
  - symmetry. apply forallb_filter_id. apply forallb_forall; auto.
  - rewrite IH. unfold store_delete. rewrite filter_filter.
    apply filter_ext. intros x. rewrite negb_orb. reflexivity.
Qed.

Lemma deleteEvents_run (olds : list Event) (d : database) (w : world) :
  db w = Some d ->
  (forall e, In e olds -> valid_key (event_id e) = true) ->
  for_of olds (fun event => deleteFromStore analytics (event_id event)) w
  = (Ok tt,
     with_db (Some {| tasksStore := tasksStore d;
                      settingsStore := settingsStore d;
                      analyticsStore :=
                        fold_left (fun acc e => store_delete event_id (event_id e) acc)
                                  olds (analyticsStore d) |}) w).
Proof.
  revert d w; induction olds as [|e olds IH]; intros d w Hd Hk.
  - cbn. destruct w, d. cbn in Hd. subst. reflexivity.
  - cbn [for_of fold_left]. unfold bind at 1.
    unfold deleteFromStore at 1, bind, get_world. rewrite Hd.
    rewrite (Hk e) by (left; reflexivity).
    unfold modify. cbn [analytics objects with_objects keyPath].
    set (d1 := {| tasksStore := tasksStore d; settingsStore := settingsStore d;
                  analyticsStore :=
                    store_delete event_id (event_id e) (analyticsStore d) |}).
    rewrite (IH d1 (with_db (Some d1) w) eq_refl)
      by (intros; apply Hk; right; auto).
    cbn. destruct w; reflexivity.
Qed.

Lemma getAnalytics_until (threshold : Z) (d : database) (w : world) :
  db w = Some d ->
  getAnalytics
    {| a_type := VUndefined; a_startDate := SUndefined;
       a_endDate := SInstant threshold |} w
  = (Ok (filter (fun e => date_le (date e) (SInstant threshold))
                (analyticsStore d)), w).
Proof.
  intros Hd. destruct w as [dbo l o q k]. cbn in Hd. subst dbo. reflexivity.
Qed.

Lemma date_le_instant (s : stamp) (threshold : Z) :
  date_le s (SInstant threshold) = true
  <-> exists t, time_value s = Some t /\ (t <= threshold)%Z.
Proof.
  unfold date_le. cbn [time_value].
  destruct (time_value s) as [t|].
  - rewrite Z.leb_le. split; [eauto|]. intros (t' & E & H). congruence.
  - split; [discriminate|]. intros (t' & E & H). discriminate.
Qed.

(** C8 (as amended). With IndexedDB open, [cleanupOldData] removes from
    the analytics store exactly the events whose date can be read and lies
    at or before the instant thirty days before the current reading of the
    clock; it keeps every other event, leaves the tasks, the settings,
    localStorage and the sync queue as they were, and resolves to [true]
    (the number of removed events is only logged). *)
Theorem cleanupOldData_removes_old_events (w : world) (d : database) :
  db w = Some d ->
  (forall e, In e (analyticsStore d) -> valid_key (event_id e) = true) ->
  NoDup (map event_id (analyticsStore d)) ->
  let threshold := (clock P (tick w) - 30 * MS_PER_DAY)%Z in
  exists (w' : world) (d' : database),
    cleanupOldData P w = (Ok (VBool true), w')
    /\ db w' = Some d'
    /\ (forall e, In e (analyticsStore d') <->
                  In e (analyticsStore d)
                  /\ ~ (exists t, time_value (date e) = Some t
                                  /\ (t <= threshold)%Z))
    /\ analyticsStore d'
       = filter (fun e => negb (date_le (date e) (SInstant threshold)))
                (analyticsStore d)
    /\ tasksStore d' = tasksStore d
    /\ settingsStore d' = settingsStore d
    /\ localStorage w' = localStorage w
    /\ syncQueue w' = syncQueue w
    /\ isOnline w' = isOnline w.
Proof.
  intros Hd Hk Hnd threshold.
  set (old := fun e : Event => date_le (date e) (SInstant threshold)).
  assert (fold_left (fun acc e => store_delete event_id (event_id e) acc)
                    (filter old (analyticsStore d)) (analyticsStore d)
          = filter (fun e => negb (old e)) (analyticsStore d)) as Hdel.
  { rewrite delete_all. apply filter_ext_in. intros x Hx. f_equal.
    destruct (old x) eqn:Eo.
    - apply existsb_exists. exists x. split; [apply filter_In; auto|].
      apply key_eqb_refl.
    - destruct (existsb _ _) eqn:Ee; auto.
      apply existsb_exists in Ee as (e & He & Heq).
      apply filter_In in He as [He Hold].
      assert (x = e) as ->; [|congruence].
      apply (NoDup_map_injective event_id (analyticsStore d)); auto.
      unfold key_eqb in Heq.
      destruct (key_compare (event_id x) (event_id e)) eqn:Ek; try discriminate.
      apply key_compare_eq in Ek; auto. }
  eexists. eexists. split; [|split; [|split]].
  - unfold cleanupOldData, try_catch, bind at 1. cbn [Date_now].
    unfold bind at 1. unfold toISOString. fold threshold.
    rewrite (getAnalytics_until threshold d) by exact Hd.
    unfold bind. fold old.
    rewrite (deleteEvents_run _ d).
    + cbn [ret]. rewrite Hdel. reflexivity.
    + exact Hd.
    + intros e He. apply filter_In in He as [He _]. apply Hk; exact He.
  - reflexivity.
  - cbn [analyticsStore]. intros e. rewrite filter_In. unfold old.
    rewrite negb_true_iff, <- date_le_instant.
    destruct (date_le (date e) (SInstant threshold)); intuition congruence.
  - cbn [db with_db with_tick analyticsStore tasksStore settingsStore
         localStorage syncQueue isOnline].
    repeat split; reflexivity.
Qed.

End Cleanup.

Lemma cleanupOldData_removes_old_events_witness :
  exists w' d',
    cleanupOldData examplePlatform events_world = (Ok (VBool true), w')
    /\ db w' = Some d'
    /\ analyticsStore d' = [event_on "id_c_3" 1699999100000].
Proof.
  destruct (cleanupOldData_removes_old_events examplePlatform events_world
              {| tasksStore := []; settingsStore := [];
                 analyticsStore :=
                   [event_on "id_a_1" 1690000000000;
                    event_on "id_b_2" 1695000000000;
                    event_on "id_c_3" 1699999100000] |})
    as (w' & d' & Hrun & Hd & _ & Hs & _).
  - reflexivity.
  - intros e [<-|[<-|[<-|[]]]]; reflexivity.
  - cbn. repeat constructor; cbn; intuition discriminate.
  - exists w', d'. repeat split; auto.
Defined.

(** C8, counterexample: two events are removed, and the value returned is
    [true], not their number. *)
Lemma cleanupOldData_returns_true_not_the_count :
  exists w',
    cleanupOldData examplePlatform events_world = (Ok (VBool true), w')
    /\ (List.length (recordedEvents events_world)
        - List.length (recordedEvents w') = 2)%nat
    /\ VBool true <> VNumber 2.
Proof.
  eexists. split; [vm_compute; reflexivity|].
  split; [reflexivity | discriminate].
Qed.

(** *** What a write leaves alone *)

Lemma store_get_put {A} (keyOf : A -> value) (k : value) (r : A) (s : list A) :
  store_get keyOf k (store_put keyOf r s)
  = if key_eqb (keyOf r) k then Some r else store_get keyOf k s.
Proof.
  unfold store_get. induction s as [|x s IH]; unfold store_put; simpl.
  - reflexivity.
  - fold (store_put keyOf r s).
    destruct (key_compare (keyOf r) (keyOf x)) eqn:E; simpl.
    + apply key_compare_eq in E. rewrite <- E.
      destruct (key_eqb (keyOf r) k); reflexivity.
    + reflexivity.
    + rewrite IH. destruct (key_eqb (keyOf x) k) eqn:Ex; auto.
      unfold key_eqb in Ex.
      destruct (key_compare (keyOf x) k) eqn:Ek; try discriminate.
      apply key_compare_eq in Ek. subst k.
      unfold key_eqb. rewrite E. reflexivity.
Qed.

Lemma area_get_set {A} (k k' : jsstring) (b : blob A) (a : area A) :
  area_get k' (area_set k b a)
  = if str_eqb k k' then Some b else area_get k' a.
Proof.
  induction a as [|[k0 b0] a IH]; unfold area_set; simpl.
  - reflexivity.
  - fold (area_set k b a). destruct (str_eqb k0 k) eqn:E; simpl.
    + apply str_eqb_eq in E. subst k0.
      destruct (str_eqb k k'); reflexivity.
    + rewrite IH. destruct (str_eqb k0 k') eqn:E'; auto.
      apply str_eqb_eq in E'. subst k'.
      rewrite str_eqb_sym, E. reflexivity.
Qed.

Lemma area_set_In {A} (key : jsstring) (e x : A) (a : area A) :
  In x (flat_map (fun y => match snd y with One r => [r] | Many l => l end)
                 (area_set key (One e) a)) ->
  x = e \/
  In x (flat_map (fun y => match snd y with One r => [r] | Many l => l end) a).
Proof.
  induction a as [|[k' b] a IH]; unfold area_set; simpl.
  - intros [<-|[]]; auto.
  - fold (area_set key (One e) a).
    destruct (str_eqb k' key); simpl.
    + intros [<-|H]; auto. right. apply in_or_app; auto.
    + intros H. apply in_app_or in H as [H|H].
      * right. apply in_or_app; auto.
      * apply IH in H as [->|H]; auto. right. apply in_or_app; auto.
Qed.

Section Frames.
Variable P : platform.

Lemma taskUnder_written_event (e : Event) (n : nat) (w : world) (k : value) :
  taskUnder (written analytics e (with_tick n w)) k = taskUnder w k.
Proof. unfold taskUnder, written. destruct w as [[d|] l o q t]; reflexivity. Qed.

Lemma taskUnder_written_task_kept (t : Task) (w : world) (k : value) :
  taskUnder w k <> None -> taskUnder (written tasks t w) k <> None.
Proof.
  unfold taskUnder, written. destruct w as [[d|] l o q n];
    cbn [db with_db with_localStorage localStorage tasks objects with_objects
         items with_items tasksStore taskItems keyPath data_id].
  - rewrite store_get_put. destruct (key_eqb (id t) k); congruence.
  - rewrite area_get_set.
    destruct (str_eqb (itemKey tasks (id t)) (itemKey tasks k)); congruence.
Qed.

Lemma settingsOf_written_task (t : Task) (w : world) :
  settingsOf (written tasks t w) = settingsOf w.
Proof. unfold settingsOf, written. destruct w as [[d|] l o q n]; reflexivity. Qed.

Lemma settingsOf_written_event (e : Event) (w : world) :
  settingsOf (written analytics e w) = settingsOf w.
Proof. unfold settingsOf, written. destruct w as [[d|] l o q n]; reflexivity. Qed.

Lemma recorded_written_task (t : Task) (w : world) :
  recordedEvents (written tasks t w) = recordedEvents w.
Proof. unfold recordedEvents, written. destruct w as [[d|] l o q n]; reflexivity. Qed.

Lemma recorded_written_event (e x : Event) (w : world) :
  In x (recordedEvents (written analytics e w)) ->
  x = e \/ In x (recordedEvents w).
Proof.
  unfold recordedEvents, written. destruct w as [[d|] l o q n];
    cbn [db with_db with_localStorage localStorage analytics objects
         with_objects items with_items analyticsStore analyticsItems].
  - apply store_put_In.
  - apply area_set_In.
Qed.

(** What [saveTask] leaves alone, whether it succeeds or throws: the
    settings, the tasks already stored (their ids stay occupied), and the
    events already recorded; the only event it may add is of type
    ['task_saved']. *)
Lemma saveTask_frame (task : Task) (w w' : world) (r : result Task) :
  saveTask P task w = (r, w') ->
  settingsOf w' = settingsOf w
  /\ (forall k, taskUnder w k <> None -> taskUnder w' k <> None)
  /\ (forall e, In e (recordedEvents w') ->
                In e (recordedEvents w) \/ event_type e = lit "task_saved").
Proof.
  rewrite saveTask_run.
  assert (forall n, settingsOf (with_tick n w) = settingsOf w) as Hs
    by (intros; reflexivity).
  assert (forall n k, taskUnder (with_tick n w) k = taskUnder w k) as Ht
    by (intros; reflexivity).
  assert (forall n, recordedEvents (with_tick n w) = recordedEvents w) as He
    by (intros; reflexivity).
  destruct (blank_title (title task));
    [intros H; inversion H; subst; auto|].
  destruct (title task);
    try (intros H; inversion H; subst; auto; fail).
  destruct (setDefaults_run P task w) as (t1 & n & Hrun & _).
  rewrite Hrun. cbv zeta.
  destruct (storable tasks (normalised t1) (with_tick (S n) w)).
  - intros H; inversion H; subst. clear H. split; [|split].
    + rewrite settingsOf_written_event.
      change (settingsOf (written tasks (normalised t1) (with_tick (S n) w))
              = settingsOf w).
      rewrite settingsOf_written_task. apply Hs.
    + intros k Hk. rewrite taskUnder_written_event.
      apply taskUnder_written_task_kept. rewrite Ht. exact Hk.
    + intros e Hin. apply recorded_written_event in Hin as [->|Hin].
      * right; reflexivity.
      * left.
        change (In e (recordedEvents
                        (written tasks (normalised t1) (with_tick (S n) w)))) in Hin.
        rewrite recorded_written_task, He in Hin. exact Hin.
  - intros H; inversion H; subst. rewrite Hs. repeat split; auto.
Qed.

Lemma importTasks_frame (ts : list Task) (w w' : world) (r : result unit) :
  importTasks P ts w = (r, w') ->
  settingsOf w' = settingsOf w
  /\ (forall k, taskUnder w k <> None -> taskUnder w' k <> None)
  /\ (forall e, In e (recordedEvents w') ->
                In e (recordedEvents w) \/ event_type e = lit "task_saved").
Proof.
  unfold importTasks. revert w; induction ts as [|t ts IH]; intros w; cbn [for_of].
  - intros H; inversion H; subst. auto.
  - unfold bind at 1. unfold bind at 1.
    destruct (saveTask P t w) as [[t'|e] w1] eqn:Es.
    + cbn [ret]. intros H. apply IH in H as (H1 & H2 & H3).
      apply saveTask_frame in Es as (E1 & E2 & E3).
      split; [congruence|]. split; [auto|].
      intros e He. apply H3 in He as [He|He]; auto.
    + intros H; inversion H; subst.
      apply saveTask_frame in Es. exact Es.
Qed.

(** The tasks saved before the loop stopped are in the store. *)
Lemma importTasks_persists (pre : list Task) (w w1 : world) :
  importTasks P pre w = (Ok tt, w1) ->
  forall task, In task pre ->
    exists (t' : Task) (wa wb : world),
      saveTask P task wa = (Ok t', wb) /\ taskUnder w1 (id t') <> None.
Proof.
  unfold importTasks. revert w; induction pre as [|t pre IH]; intros w;
    cbn [for_of]; [intros _ task []|].
  unfold bind at 1. unfold bind at 1.
  destruct (saveTask P t w) as [[t'|e] wa] eqn:Es; [|discriminate].
  cbn [ret]. intros Hrest task [<-|Hin].
  - exists t', w, wa. split; [exact Es|].
    apply (importTasks_frame pre wa w1 (Ok tt) Hrest).
    pose proof (saveTask_persists P t t' w wa Es) as Hp.
    unfold persistedTask in Hp. congruence.
  - eapply IH; eauto.
Qed.

(** C9. When the task at some position of the imported array has a blank
    title and the tasks before it were accepted, [importData] throws the
    validation error and leaves the world exactly as the saves of those
    earlier tasks left it: each of them is in the store under the id it was
    saved with, the settings are untouched, and no ['data_imported'] event
    has been recorded. *)
Theorem importData_not_atomic
  (pre post : list Task) (bad : Task)
  (entries : option (list (jsstring * value))) (exported : stamp)
  (w w1 : world) :
  importTasks P pre w = (Ok tt, w1) ->
  blank_title (title bad) = true ->
  importData P (Json {| p_tasks := Some (pre ++ bad :: post);
                        p_settings := entries;
                        p_exportDate := exported |}) w
  = (Throw ValidationError, w1)
  /\ (forall task, In task pre ->
        exists (t' : Task) (wa wb : world),
          saveTask P task wa = (Ok t', wb) /\ taskUnder w1 (id t') <> None)
  /\ settingsOf w1 = settingsOf w
  /\ (forall e, In e (recordedEvents w1) ->
                event_type e = lit "data_imported" ->
                In e (recordedEvents w)).
Proof.
  intros Hpre Hbad. split; [|split; [|split]].
  - unfold importData, try_catch, bind at 1. cbn [ret p_tasks].
    unfold bind at 1.
    assert (importTasks P (pre ++ bad :: post) w = (Throw ValidationError, w1))
      as ->; [|reflexivity].
    clear entries exported. unfold importTasks in *.
    revert w Hpre; induction pre as [|t pre IH]; intros w Hpre.
    + cbn in Hpre. inversion Hpre; subst. cbn [app for_of].
      unfold bind at 1. unfold bind at 1.
      rewrite saveTask_run, Hbad. reflexivity.
    + cbn [app for_of] in *. unfold bind at 1. unfold bind at 1 in Hpre.
      unfold bind at 1. unfold bind at 1 in Hpre.
      destruct (saveTask P t w) as [[t'|e] wa]; [|discriminate].
      cbn [ret] in *. apply IH; exact Hpre.
  - apply (importTasks_persists pre w w1 Hpre).
  - apply (importTasks_frame pre w w1 (Ok tt) Hpre).
  - intros e He Hty.
    destruct (importTasks_frame pre w w1 (Ok tt) Hpre) as (_ & _ & H).
    apply H in He as [He|He]; auto.
    rewrite Hty in He. vm_compute in He. discriminate.
Qed.

End Frames.

Lemma importData_not_atomic_witness :
  exists w1 t',
    importData examplePlatform broken_import empty_world
    = (Throw ValidationError, w1)
    /\ taskUnder w1 (id t') <> None
    /\ title t' = VString (lit "Pagar conta")
    /\ settingsOf w1 = settingsOf empty_world.
Proof.
  assert (exists w1, importTasks examplePlatform [bill_task] empty_world = (Ok tt, w1))
    as [w1 H1] by (eexists; vm_compute; reflexivity).
  destruct (importData_not_atomic examplePlatform [bill_task] [due_task] blank_task
              (Some [(lit "theme", VString (lit "dark"))])
              (SInstant 1699000000000) empty_world w1 H1 eq_refl)
    as (Hrun & Hp & Hs & _).
  destruct (Hp bill_task (or_introl eq_refl)) as (t' & wa & wb & Hsave & Hu).
  exists w1, t'. repeat split; auto.
  destruct (saveTask_title examplePlatform bill_task t' wa wb Hsave)
    as (s & Hs1 & Hs2).
  rewrite Hs2. inversion Hs1; subst s. reflexivity.
Defined.

(** *** Key order and in-place replacement *)

Lemma str_compare_antisym (a b : jsstring) :
  str_compare b a = CompOpp (str_compare a b).
Proof.
  revert b; induction a as [|x a IH]; intros [|y b]; simpl; auto.
  rewrite (N.compare_antisym x y).
  destruct (N.compare x y); simpl; auto.
Qed.

Lemma key_compare_antisym (a b : value) :
  key_compare b a = CompOpp (key_compare a b).
Proof.
  destruct a as [| |x|x|x], b as [| |y|y|y]; simpl; auto.
  - destruct x, y; reflexivity.
  - apply Z.compare_antisym.
  - apply str_compare_antisym.
Qed.

Lemma key_eqb_eq (a b : value) : key_eqb a b = true <-> a = b.
Proof.
  unfold key_eqb. rewrite <- key_compare_eq.
  destruct (key_compare a b); split; congruence.
Qed.

Section Replacement.
Variable A : Type.
Variable keyOf : A -> value.




Lemma store_get_Some (k : value) (x : A) (s : list A) :
  store_get keyOf k s = Some x -> In x s /\ keyOf x = k.
Proof.
  unfold store_get. intros H. apply find_some in H as [H1 H2].
  apply key_eqb_eq in H2. auto.
Qed.


End Replacement.

(** *** Export and import *)

Section RoundTrip.
Variable P : platform.

Lemma sanitize_description (s : jsstring) :
  sanitizeHtml (if truthy (VString s) then VString s else VString [])
  = sanitizeHtml (VString s).
Proof. destruct s; reflexivity. Qed.

(** Saving a stored task again, with IndexedDB open. *)
Lemma saveTask_again (t : Task) (w : world) (d : database) :
  savedTask t -> db w = Some d ->
  exists (t2 : Task) (w' : world) (d' : database),
    saveTask P t w = (Ok t2, w')
    /\ reimported P t t2
    /\ db w' = Some d'
    /\ tasksStore d' = store_put id t2 (tasksStore d)
    /\ settingsStore d' = settingsStore d.
Proof.
  intros (Ht & Hdesc & Hid & Hkey & Hcr & Hp & Hc & Hs) Hd.
  destruct Ht as (s & Ht & Hb). destruct Hdesc as (sd & Hdesc).
  destruct (setDefaults_run P t w)
    as (t1 & n & Hrun & _ & Hid1 & Hc1 & Hu1 & Ht1 & Hd1 & Hcat1 & Hp1 & Hs1
        & Hdue1 & Hco1).
  rewrite Hid in Hid1. rewrite Hcr in Hc1.
  destruct (normalised_stamps t1) as (Edue & Ecr & Eup & Eco).
  assert (storable tasks (normalised t1) (with_tick (S n) w) = true) as Hst.
  { unfold storable. cbn [db with_tick]. rewrite Hd.
    cbn [keyPath tasks]. rewrite normalised_id, Hid1. exact Hkey. }
  exists (normalised t1). eexists. eexists.
  split; [|split; [|split; [|split]]].
  - rewrite saveTask_run, Ht, blank_title_string, Hb, Hrun. cbv zeta.
    rewrite Hst. reflexivity.
  - unfold reimported.
    rewrite normalised_id, Ecr, Edue, Eco, Eup, normalised_priority,
      normalised_category, normalised_status, normalised_title,
      normalised_description, Hid1, Hc1, Hdue1, Hco1, Hp1, Hcat1, Hs1, Ht1, Hd1,
      Hu1, Hp, Hc, Hs, Hdesc, sanitize_description.
    repeat split; auto. exists n; reflexivity.
  - unfold written. cbn [db with_tick with_db]. rewrite Hd.
    cbn [db with_db]. reflexivity.
  - reflexivity.
  - reflexivity.
Qed.


Lemma setSetting_run (k : jsstring) (v : value) (w : world) (d : database) :
  db w = Some d ->
  setSetting k v w
  = (Ok true,
     with_db (Some {| tasksStore := tasksStore d;
                      settingsStore :=
                        store_put (keyPath settings)
                                  {| key := k; setting_value := v |}
                                  (settingsStore d);
                      analyticsStore := analyticsStore d |}) w).
Proof.
  intros Hd. unfold setSetting, try_catch, bind.
  rewrite saveToStore_run. unfold storable, written. rewrite Hd. reflexivity.
Qed.

Lemma importSettings_tasks
  (entries : option (list (jsstring * value))) (w : world) (d : database) :
  db w = Some d ->
  exists (w' : world) (d' : database),
    importSettings entries w = (Ok tt, w')
    /\ db w' = Some d'
    /\ tasksStore d' = tasksStore d.
Proof.
  destruct entries as [l|]; cbn [importSettings]; [|intros; exists w, d; auto].
  revert w d; induction l as [|[k v] l IH]; intros w d Hd; cbn [for_of].
  - exists w, d; auto.
  - unfold bind at 1. unfold bind at 1. cbn [fst snd].
    rewrite (setSetting_run k v w d Hd). cbn [ret].
    set (d1 := {| tasksStore := tasksStore d;
                  settingsStore :=
                    store_put (keyPath settings)
                              {| key := k; setting_value := v |}
                              (settingsStore d);
                  analyticsStore := analyticsStore d |}).
    destruct (IH (with_db (Some d1) w) d1 eq_refl)
      as (w' & d' & Hrun & Hd' & Ht).
    exists w', d'. auto.
Qed.



(** What [saveTask] stores is a [savedTask]. *)
Lemma saveTask_establishes (task t' : Task) (w w' : world) :
  saveTask P task w = (Ok t', w') -> db w <> None -> savedTask t'.
Proof.
  intros H Hdb.
  destruct (saveTask_ok P _ _ _ _ H) as (t1 & n & Hrun & _ & -> & Hst & _ & s & Ht & Hb).
  destruct (setDefaults_run P task w)
    as (t1' & n' & Hrun' & _ & Hid & Hc & _ & Htitle & _).
  rewrite Hrun in Hrun'. inversion Hrun'; subst t1' n'. clear Hrun'.
  destruct (normalised_stamps t1) as (_ & Ecr & _ & _).
  unfold savedTask.
  rewrite normalised_title, normalised_description, normalised_id, Ecr,
    normalised_priority, normalised_category, normalised_status, Htitle, Ht,
    sanitizeHtml_string.
  split; [exists (escapeText s); split; auto; apply escapeText_not_blank; auto|].
  split; [eexists; reflexivity|].
  split; [rewrite Hid; destruct (truthy (id task)) eqn:E; auto|].
  split.
  { unfold storable in Hst. cbn [db with_tick] in Hst.
    destruct (db w); [|congruence].
    cbn [keyPath tasks] in Hst. rewrite normalised_id in Hst. exact Hst. }
  split; [rewrite Hc; destruct (stamp_truthy (createdAt task)) eqn:E; auto|].
  split; [|split].
  - destruct (array_includes validPriorities (priority t1)) eqn:E; auto.
  - destruct (array_includes taskCategories (category t1)) eqn:E; auto.
  - destruct (array_includes validStatuses (status t1)) eqn:E; auto.
Qed.

End RoundTrip.



(** Text without [&], [<], [>] and no-break spaces is its own escape. *)
Lemma escapeText_plain (s : jsstring) :
  forallb (fun c => negb ((c =? 38) || (c =? 160) || (c =? 60) || (c =? 62))%N) s
  = true ->
  escapeText s = s.
Proof.
  induction s as [|c s IH]; simpl; auto.
  rewrite andb_true_iff, negb_true_iff, !orb_false_iff.
  intros [(((H1 & H2) & H3) & H4) Hs].
  unfold escapeText in *. simpl. unfold escapeChar at 1.
  rewrite H1, H2, H3, H4. simpl. f_equal. apply IH; exact Hs.
Qed.

(** *** The tasks store stays well formed *)

Lemma str_compare_trans (a b c : jsstring) :
  str_compare a b = Lt -> str_compare b c = Lt -> str_compare a c = Lt.
Proof.
  revert b c; induction a as [|x a IH]; intros [|y b] [|z c]; simpl;
    try discriminate; auto.
  destruct (N.compare x y) eqn:Exy; try discriminate;
    destruct (N.compare y z) eqn:Eyz; try discriminate; intros H1 H2.
  - apply N.compare_eq_iff in Exy, Eyz. subst. rewrite N.compare_refl. eauto.
  - apply N.compare_eq_iff in Exy. subst. rewrite Eyz. reflexivity.
  - apply N.compare_eq_iff in Eyz. subst. rewrite Exy. reflexivity.
  - rewrite N.compare_lt_iff in Exy, Eyz.
    assert (x < z)%N as H by lia. apply N.compare_lt_iff in H. rewrite H.
    reflexivity.
Qed.

Lemma key_lt_trans (a b c : value) : key_lt a b -> key_lt b c -> key_lt a c.
Proof.
  unfold key_lt.
  destruct a as [| |x|x|x], b as [| |y|y|y], c as [| |z|z|z]; simpl;
    try discriminate; auto.
  - destruct x, y, z; simpl; auto; discriminate.
  - rewrite !Z.compare_lt_iff. lia.
  - apply str_compare_trans.
Qed.

Section WellFormed.
Variable A : Type.
Variable keyOf : A -> value.

Lemma store_put_sorted (r : A) (s : list A) :
  StronglySorted key_lt (map keyOf s) ->
  StronglySorted key_lt (map keyOf (store_put keyOf r s)).
Proof.
  induction s as [|x s IH]; simpl; intros Hs.
  - repeat constructor.
  - inversion Hs as [|? ? Hs' Hx]; subst.
    unfold store_put. fold (store_put keyOf r s).
    destruct (key_compare (keyOf r) (keyOf x)) eqn:E; simpl.
    + apply key_compare_eq in E. rewrite E. exact Hs.
    + constructor; [exact Hs|]. constructor; [exact E|].
      eapply Forall_impl; [|exact Hx]. intros k Hk.
      eapply key_lt_trans; eauto.
    + constructor; [apply IH; exact Hs'|].
      apply Forall_forall. intros k Hk.
      apply in_map_iff in Hk as (y & <- & Hy).
      apply store_put_In in Hy as [->|Hy].
      * unfold key_lt. rewrite key_compare_antisym, E. reflexivity.
      * rewrite Forall_forall in Hx. apply Hx. apply in_map; exact Hy.
Qed.

End WellFormed.

(** A successful [saveTask] keeps the tasks store of an open database well
    formed: the hypothesis of the round trip holds of every store that only
    [saveTask] has written to. *)
Lemma saveTask_keeps_well_formed
  (P : platform) (task t' : Task) (w w' : world) (d : database) :
  db w = Some d ->
  wellFormedTasks (tasksStore d) ->
  saveTask P task w = (Ok t', w') ->
  exists d', db w' = Some d' /\ wellFormedTasks (tasksStore d').
Proof.
  intros Hd [Hsorted Hsaved] H.
  assert (savedTask t') as Ht'
    by (apply (saveTask_establishes P task t' w w' H); congruence).
  destruct (saveTask_ok P _ _ _ _ H) as (t1 & n & _ & _ & -> & _ & -> & _).
  unfold written. cbn [db with_tick with_db]. rewrite Hd. cbn [db with_db].
  eexists. split; [reflexivity|].
  cbn [tasksStore with_objects objects tasks analytics keyPath]. split.
  - apply store_put_sorted; exact Hsorted.
  - apply Forall_forall. intros x Hx. apply store_put_In in Hx as [->|Hx]; auto.
    rewrite Forall_forall in Hsaved. auto.
Qed.

End StorageFacts.

(** ** The service worker: strategies, routing and cache control *)

Module CacheRouterFacts.
Import ServiceWorker CacheRouter Examples RouterExamples.

(** *** Lookups after a write *)

Lemma cache_match_put (c : Cache) (u u' : jsstring) (r : Response) :
  cache_match (cache_put c u r) u'
  = if str_eqb u u' then Some r else cache_match c u'.
Proof.
  unfold cache_put. induction c as [|[k r0] c IH]; simpl.
  - reflexivity.
  - destruct (str_eqb k u) eqn:E; simpl.
    + rewrite IH. apply str_eqb_eq in E. subst k.
      destruct (str_eqb u u'); reflexivity.
    + rewrite IH. destruct (str_eqb k u') eqn:E'; auto.
      apply str_eqb_eq in E'. subst u'. rewrite str_eqb_sym, E. reflexivity.
Qed.

Lemma caches_lookup_app (cs : CacheStorage) (name name' : jsstring) :
  caches_lookup (cs ++ [(name, [])]) name'
  = match caches_lookup cs name' with
    | Some c => Some c
    | None => if str_eqb name name' then Some [] else None
    end.
Proof.
  induction cs as [|[k c] cs IH]; simpl; auto.
  destruct (str_eqb k name'); auto.
Qed.

Lemma caches_match_app (cs : CacheStorage) (name u : jsstring) :
  caches_match (cs ++ [(name, [])]) u = caches_match cs u.
Proof.
  induction cs as [|[k c] cs IH]; simpl; auto.
  destruct (cache_match c u); auto.
Qed.

Lemma caches_open_lookup (cs : CacheStorage) (name : jsstring) :
  caches_lookup (snd (caches_open cs name)) name
  = Some (fst (caches_open cs name)).
Proof.
  unfold caches_open. destruct (caches_lookup cs name) eqn:E; simpl; auto.
  rewrite caches_lookup_app, E, str_eqb_refl. reflexivity.
Qed.

Lemma caches_open_match (cs : CacheStorage) (name u : jsstring) :
  caches_match (snd (caches_open cs name)) u = caches_match cs u.
Proof.
  unfold caches_open. destruct (caches_lookup cs name); simpl; auto.
  apply caches_match_app.
Qed.

Lemma caches_open_other (cs : CacheStorage) (name name' : jsstring) :
  name <> name' ->
  caches_lookup (snd (caches_open cs name)) name' = caches_lookup cs name'.
Proof.
  intros Hn. unfold caches_open. destruct (caches_lookup cs name); simpl; auto.
  rewrite caches_lookup_app. destruct (caches_lookup cs name'); auto.
  apply str_eqb_neq in Hn. rewrite Hn. reflexivity.
Qed.

Lemma caches_lookup_put (cs : CacheStorage) (name name' u : jsstring) (r : Response) :
  caches_lookup (caches_put cs name u r) name'
  = if str_eqb name name'
    then match caches_lookup cs name with
         | Some c => Some (cache_put c u r)
         | None => None
         end
    else caches_lookup cs name'.
Proof.
  induction cs as [|[k c] cs IH]; simpl.
  - destruct (str_eqb name name'); reflexivity.
  - destruct (str_eqb k name) eqn:E; simpl.
    + apply str_eqb_eq in E. subst k. destruct (str_eqb name name'); reflexivity.
    + rewrite IH. destruct (str_eqb k name') eqn:E'; auto.
      apply str_eqb_eq in E'. subst name'. rewrite str_eqb_sym, E. reflexivity.
Qed.

(** Writing a response for a URL that no cache holds makes it the match of
    that URL. *)
Lemma caches_match_put_fresh (cs : CacheStorage) (name u : jsstring) (r : Response) :
  caches_match cs u = None ->
  caches_lookup cs name <> None ->
  caches_match (caches_put cs name u r) u = Some r.
Proof.
  induction cs as [|[k c] cs IH]; simpl; [congruence|].
  destruct (cache_match c u) eqn:Ec; [discriminate|]. intros Hm Hl.
  destruct (str_eqb k name); simpl.
  - rewrite cache_match_put, str_eqb_refl. reflexivity.
  - rewrite Ec. apply IH; auto.
Qed.

(** In general the match afterwards is the response written, unless a
    cache created earlier already held a copy, which is then still the
    match. *)
Lemma caches_match_put (cs : CacheStorage) (name u : jsstring) (r : Response) :
  caches_lookup cs name <> None ->
  caches_match (caches_put cs name u r) u = Some r
  \/ (caches_match (caches_put cs name u r) u = caches_match cs u
      /\ caches_match cs u <> None).
Proof.
  induction cs as [|[k c] cs IH]; simpl; [congruence|]. intros Hl.
  destruct (str_eqb k name) eqn:E; simpl.
  - left. rewrite cache_match_put, str_eqb_refl. reflexivity.
  - destruct (cache_match c u) eqn:Ec.
    + right. split; congruence.
    + apply IH; exact Hl.
Qed.

Lemma caches_match_put_other (cs : CacheStorage) (name u u' : jsstring) (r : Response) :
  u <> u' -> caches_match (caches_put cs name u r) u' = caches_match cs u'.
Proof.
  intros Hu. induction cs as [|[k c] cs IH]; simpl; auto.
  destruct (str_eqb k name); simpl.
  - rewrite cache_match_put. apply str_eqb_neq in Hu. rewrite Hu. reflexivity.
  - rewrite IH. reflexivity.
Qed.

(** *** Runs of the strategies *)

Lemma cacheFirst_hit
  (network : settled Response) (request : Request) (cs : CacheStorage)
  (r : Response) :
  caches_match cs (url request) = Some r ->
  cacheFirst network request cs = (Some r, cs).
Proof. intros H. unfold cacheFirst. rewrite H. reflexivity. Qed.

Lemma cacheFirst_store
  (r : Response) (request : Request) (cs : CacheStorage) :
  caches_match cs (url request) = None ->
  status r = 200%Z ->
  cacheFirst (Fulfilled r) request cs
  = (Some r,
     caches_put (snd (caches_open cs DYNAMIC_CACHE)) DYNAMIC_CACHE (url request) r).
Proof.
  intros Hmiss Hok. unfold cacheFirst. rewrite Hmiss, Hok, Z.eqb_refl.
  destruct (caches_open cs DYNAMIC_CACHE); reflexivity.
Qed.

Lemma networkFirst_store
  (r : Response) (request : Request) (cs : CacheStorage) :
  status r = 200%Z ->
  networkFirst (Fulfilled r) request cs
  = (Some r,
     caches_put (snd (caches_open cs RUNTIME_CACHE)) RUNTIME_CACHE (url request) r).
Proof.
  intros Hok. unfold networkFirst. rewrite Hok, Z.eqb_refl.
  destruct (caches_open cs RUNTIME_CACHE); reflexivity.
Qed.

Lemma networkFirst_offline_hit
  (request : Request) (cs : CacheStorage) (r : Response) :
  caches_match cs (url request) = Some r ->
  networkFirst Rejected request cs = (Some r, cs).
Proof. intros H. unfold networkFirst. rewrite H. reflexivity. Qed.

(** The storage left by [staleWhileRevalidate]: the runtime generation
    exists, and holds the response fetched when its status is 200. *)
Lemma staleWhileRevalidate_storage
  (network : settled Response) (request : Request) (cs : CacheStorage) :
  snd (staleWhileRevalidate network request cs)
  = match network with
    | Fulfilled r =>
        if (status r =? 200)%Z
        then caches_put (snd (caches_open cs RUNTIME_CACHE)) RUNTIME_CACHE
               (url request) r
        else snd (caches_open cs RUNTIME_CACHE)
    | Rejected => snd (caches_open cs RUNTIME_CACHE)
    end.
Proof.
  unfold staleWhileRevalidate.
  destruct (caches_open cs RUNTIME_CACHE) as [cache cs1]. cbn [snd].
  destruct (cache_match cache (url request)) as [r0|];
    unfold js_or; cbn [operand_truthy of_match snd];
    (destruct network as [r|]; [destruct (status r =? 200)%Z|]; reflexivity).
Qed.

(** *** Cache-first *)

(** X1. After [cacheFirst] has fetched a request that no cache held and
    got a 200 response, it has returned that response, and from then on
    [cacheFirst] answers the same request with it whatever the network
    does, without changing the cache storage. *)
Theorem cacheFirst_serves_what_it_stored
  (network : settled Response) (r : Response) (request : Request)
  (cs : CacheStorage) :
  caches_match cs (url request) = None ->
  status r = 200%Z ->
  let cs' := snd (cacheFirst (Fulfilled r) request cs) in
  fst (cacheFirst (Fulfilled r) request cs) = Some r
  /\ cacheFirst network request cs' = (Some r, cs').
Proof.
  intros Hmiss Hok cs'. subst cs'.
  rewrite (cacheFirst_store r request cs Hmiss Hok). cbn [fst snd].
  split; [reflexivity|].
  apply cacheFirst_hit. apply caches_match_put_fresh.
  - rewrite caches_open_match. exact Hmiss.
  - rewrite caches_open_lookup. discriminate.
Qed.

Lemma cacheFirst_serves_what_it_stored_witness :
  let cs' := snd (cacheFirst (Fulfilled shell_response) page_request installed_caches) in
  cacheFirst Rejected page_request cs' = (Some shell_response, cs').
Proof.
  destruct (cacheFirst_serves_what_it_stored Rejected shell_response
              page_request installed_caches) as [_ H].
  - reflexivity.
  - reflexivity.
  - exact H.
Defined.

(** *** Network-first *)

(** X2. After [networkFirst] has fetched a request with a 200 response, a
    later [networkFirst] for the same request whose fetch fails is
    answered from the caches and never by the offline fallback: with the
    response fetched before, unless a cache created earlier than the
    runtime generation holds a copy of its own, which then wins. *)
Theorem networkFirst_offline_after_online
  (r : Response) (request : Request) (cs : CacheStorage) :
  status r = 200%Z ->
  let cs' := snd (networkFirst (Fulfilled r) request cs) in
  exists r',
    networkFirst Rejected request cs' = (Some r', cs')
    /\ (r' = r \/ caches_match cs (url request) = Some r')
    /\ (caches_match cs (url request) = None -> r' = r).
Proof.
  intros Hok cs'. subst cs'.
  rewrite (networkFirst_store r request cs Hok). cbn [snd].
  pose proof (caches_open_lookup cs RUNTIME_CACHE) as Hl.
  pose proof (caches_open_match cs RUNTIME_CACHE (url request)) as Hm.
  set (cs1 := snd (caches_open cs RUNTIME_CACHE)) in *.
  destruct (caches_match_put cs1 RUNTIME_CACHE (url request) r) as [H|[H1 H2]].
  - rewrite Hl. discriminate.
  - exists r. split; [apply networkFirst_offline_hit; exact H|].
    split; auto.
  - rewrite Hm in *.
    destruct (caches_match cs (url request)) as [r'|] eqn:E; [|congruence].
    exists r'. split; [apply networkFirst_offline_hit; exact H1|].
    split; [auto | discriminate].
Qed.

Lemma networkFirst_offline_after_online_witness :
  let cs' := snd (networkFirst (Fulfilled shell_response) page_request installed_caches) in
  networkFirst Rejected page_request cs' = (Some shell_response, cs').
Proof.
  destruct (networkFirst_offline_after_online shell_response page_request
              installed_caches eq_refl) as (r' & Hrun & _ & Hr).
  rewrite (Hr eq_refl) in Hrun. exact Hrun.
Defined.

(** *** Stale-while-revalidate *)

(** X3. After [staleWhileRevalidate] has run with a fetch that produced a
    200 response, the next [staleWhileRevalidate] for the same request
    answers with that response, whatever its own fetch does. *)
Theorem staleWhileRevalidate_serves_previous_fetch
  (network : settled Response) (r : Response) (request : Request)
  (cs : CacheStorage) :
  status r = 200%Z ->
  let cs' := snd (staleWhileRevalidate (Fulfilled r) request cs) in
  fst (staleWhileRevalidate network request cs') = Some r.
Proof.
  intros Hok cs'.
  apply ServiceWorkerFacts.staleWhileRevalidate_cached.
  subst cs'. rewrite staleWhileRevalidate_storage, Hok, Z.eqb_refl.
  unfold caches_open at 1.
  rewrite caches_lookup_put, str_eqb_refl, caches_open_lookup. cbn [fst].
  rewrite cache_match_put, str_eqb_refl. reflexivity.
Qed.

Lemma staleWhileRevalidate_serves_previous_fetch_witness :
  let cs' := snd (staleWhileRevalidate (Fulfilled shell_response)
                    page_request installed_caches) in
  fst (staleWhileRevalidate Rejected page_request cs') = Some shell_response.
Proof.
  exact (staleWhileRevalidate_serves_previous_fetch Rejected shell_response
           page_request installed_caches eq_refl).
Defined.

(** *** Responses that are not cached *)

(** X4. A response whose status is not 200 is handed on by [networkFirst]
    and by [cacheFirst] (on a miss) without any change to the cache
    storage, and after [staleWhileRevalidate] every URL is matched in the
    caches exactly as before. *)
Theorem other_statuses_are_not_cached
  (r : Response) (request : Request) (cs : CacheStorage) :
  status r <> 200%Z ->
  networkFirst (Fulfilled r) request cs = (Some r, cs)
  /\ snd (cacheFirst (Fulfilled r) request cs) = cs
  /\ (caches_match cs (url request) = None ->
      fst (cacheFirst (Fulfilled r) request cs) = Some r)
  /\ (forall u,
        caches_match (snd (staleWhileRevalidate (Fulfilled r) request cs)) u
        = caches_match cs u).
Proof.
  intros Hs. apply Z.eqb_neq in Hs.
  split; [|split; [|split]].
  - unfold networkFirst. rewrite Hs. reflexivity.
  - unfold cacheFirst. rewrite Hs.
    destruct (caches_match cs (url request)); reflexivity.
  - intros Hmiss. unfold cacheFirst. rewrite Hmiss, Hs. reflexivity.
  - intros u. rewrite staleWhileRevalidate_storage, Hs.
    apply caches_open_match.
Qed.

Lemma other_statuses_are_not_cached_witness :
  networkFirst (Fulfilled not_found_response) page_request installed_caches
  = (Some not_found_response, installed_caches).
Proof.
  destruct (other_statuses_are_not_cached not_found_response page_request
              installed_caches) as [H _].
  - discriminate.
  - exact H.
Defined.

(** *** Routing *)

Lemma startsWith_app (s p : jsstring) :
  startsWith s p = true -> exists t, s = p ++ t.
Proof.
  revert s; induction p as [|y p IH]; intros s H.
  - exists s. reflexivity.
  - destruct s as [|x s]; simpl in H; [discriminate|].
    apply andb_true_iff in H as [Hx Hs]. apply N.eqb_eq in Hx. subst y.
    destruct (IH s Hs) as [t ->]. exists t. reflexivity.
Qed.

(** No file of the application shell lies under a network-first prefix. *)
Lemma isNetworkFirstRoute_not_static (p : jsstring) :
  isNetworkFirstRoute p = true -> isStaticFile p = false.
Proof.
  intros H. unfold isNetworkFirstRoute, NETWORK_FIRST_ROUTES in H.
  cbn [existsb] in H. rewrite !orb_true_iff in H.
  destruct H as [H|[H|[H|H]]]; [| | |discriminate];
    apply startsWith_app in H as [t ->]; reflexivity.
Qed.

(** Nor is a network-first prefix a cache-first one. *)
Lemma isNetworkFirstRoute_not_cacheFirst (p : jsstring) :
  isNetworkFirstRoute p = true -> isCacheFirstRoute p = false.
Proof.
  intros H. unfold isNetworkFirstRoute, NETWORK_FIRST_ROUTES in H.
  cbn [existsb] in H. rewrite !orb_true_iff in H.
  destruct H as [H|[H|[H|H]]]; [| | |discriminate];
    apply startsWith_app in H as [t ->]; reflexivity.
Qed.

(** X5. The strategy of a same-origin GET request is decided by its path
    alone: network-first exactly under the network-first prefixes,
    cache-first exactly for the files of the application shell and under
    the cache-first prefixes, stale-while-revalidate for everything else;
    the order of the tests in the listener never matters. *)
Theorem strategy_by_route (event : FetchEvent) :
  method event = lit "GET" ->
  sameOrigin event = true ->
  let p := pathname (request event) in
  chooseStrategy event
  = Some (if isNetworkFirstRoute p then NetworkFirst
          else if isStaticFile p || isCacheFirstRoute p then CacheFirst
          else StaleWhileRevalidate).
Proof.
  intros Hm Ho p. unfold chooseStrategy. fold p.
  rewrite Hm, Ho, str_eqb_refl. cbn [negb].
  destruct (isNetworkFirstRoute p) eqn:En.
  - rewrite (isNetworkFirstRoute_not_static p En). reflexivity.
  - destruct (isStaticFile p); [reflexivity|].
    destruct (isCacheFirstRoute p); reflexivity.
Qed.

Lemma strategy_by_route_witness :
  chooseStrategy api_event = Some NetworkFirst.
Proof.
  exact (strategy_by_route api_event eq_refl eq_refl).
Defined.

(** X6. A same-origin GET request under [/api/] that fails while nothing
    is cached for it is answered by the listener with the 503 JSON
    response, and the caches are left as they were (unless the request is
    a navigation). *)
Theorem offline_api_request_gets_503 (event : FetchEvent) (cs : CacheStorage) :
  method event = lit "GET" ->
  sameOrigin event = true ->
  startsWith (pathname (request event)) (lit "/api/") = true ->
  mode (request event) <> lit "navigate" ->
  caches_match cs (url (request event)) = None ->
  onFetch Rejected event cs = Some (Some offline_api_response, cs)
  /\ status offline_api_response = 503%Z.
Proof.
  intros Hm Ho Hp Hn Hmiss.
  assert (isNetworkFirstRoute (pathname (request event)) = true) as Hr.
  { unfold isNetworkFirstRoute, NETWORK_FIRST_ROUTES. cbn [existsb].
    rewrite Hp. reflexivity. }
  split; [|reflexivity].
  unfold onFetch, chooseStrategy.
  rewrite Hm, Ho, str_eqb_refl, (isNetworkFirstRoute_not_static _ Hr), Hr.
  cbn [negb]. unfold networkFirst. rewrite Hmiss.
  destruct (ServiceWorkerFacts.handleOfflineRequest_api (request event) cs Hn Hp)
    as [H _].
  rewrite H. reflexivity.
Qed.

Lemma offline_api_request_gets_503_witness :
  onFetch Rejected api_event installed_caches
  = Some (Some offline_api_response, installed_caches).
Proof.
  destruct (offline_api_request_gets_503 api_event installed_caches) as [H _].
  - reflexivity.
  - reflexivity.
  - reflexivity.
  - discriminate.
  - reflexivity.
  - exact H.
Defined.

(** *** Clearing and activating *)

Lemma fold_delete_filter (names : list jsstring) (cs : CacheStorage) :
  fold_left caches_delete names cs
  = filter (fun e => negb (existsb (fun n => str_eqb (fst e) n) names)) cs.
Proof.
  revert cs; induction names as [|n names IH]; intros cs; cbn [fold_left existsb].
  - induction cs as [|e cs IHcs]; cbn in *; congruence.
  - rewrite IH. unfold caches_delete.
    induction cs as [|e cs IHcs]; cbn [filter]; auto.
    destruct (str_eqb (fst e) n); cbn [negb orb filter].
    + exact IHcs.
    + destruct (existsb _ names); cbn [negb]; rewrite IHcs; reflexivity.
Qed.

Lemma filter_ext_in_keys {A : Type} (f g : A -> bool) (l : list A) :
  (forall x, In x l -> f x = g x) -> filter f l = filter g l.
Proof.
  induction l as [|x l IH]; intros H; cbn; auto.
  rewrite (H x (or_introl eq_refl)), IH; auto.
  intros y Hy. apply H. right. exact Hy.
Qed.

Lemma existsb_key (name : jsstring) (names : list jsstring) (f : jsstring -> bool) :
  existsb (fun n => str_eqb name n) (filter f names)
  = f name && existsb (fun n => str_eqb name n) names.
Proof.
  induction names as [|n names IH]; cbn [filter existsb].
  - rewrite andb_false_r. reflexivity.
  - destruct (str_eqb name n) eqn:E.
    + apply str_eqb_eq in E. subst n. destruct (f name); cbn [existsb].
      * rewrite str_eqb_refl. reflexivity.
      * rewrite IH. reflexivity.
    + destruct (f n); cbn [existsb]; rewrite ?E, IH; reflexivity.
Qed.

Lemma existsb_own_key (e : jsstring * Cache) (cs : CacheStorage) :
  In e cs -> existsb (fun n => str_eqb (fst e) n) (caches_keys cs) = true.
Proof.
  intros H. apply existsb_exists. exists (fst e). split.
  - apply in_map. exact H.
  - apply str_eqb_refl.
Qed.

Lemma clearCaches_filter (cs : CacheStorage) :
  clearCaches cs
  = filter (fun e => negb (includes (fst e) (lit "list-kamba"))) cs.
Proof.
  unfold clearCaches. rewrite fold_delete_filter.
  apply filter_ext_in_keys. intros e He.
  rewrite (existsb_key (fst e) (caches_keys cs)
             (fun name => includes name (lit "list-kamba"))).
  rewrite (existsb_own_key e cs He), andb_true_r. reflexivity.
Qed.

Lemma fold_evict_delete (names : list jsstring) (cs : CacheStorage) :
  fold_left evict names cs
  = fold_left caches_delete (filter isOldCache names) cs.
Proof.
  revert cs; induction names as [|n names IH]; intros cs; cbn [fold_left filter].
  - reflexivity.
  - rewrite IH. unfold evict. destruct (isOldCache n); reflexivity.
Qed.

Lemma activate_filter (cs : CacheStorage) :
  activate cs = filter (fun e => negb (isOldCache (fst e))) cs.
Proof.
  unfold activate. rewrite fold_evict_delete, fold_delete_filter.
  apply filter_ext_in_keys. intros e He.
  rewrite (existsb_key (fst e) (caches_keys cs) isOldCache).
  rewrite (existsb_own_key e cs He), andb_true_r. reflexivity.
Qed.

Lemma filter_twice {A : Type} (f g : A -> bool) (l : list A) :
  filter f (filter g l) = filter (fun x => g x && f x) l.
Proof.
  induction l as [|x l IH]; cbn; auto.
  destruct (g x); cbn; rewrite ?IH; reflexivity.
Qed.

Lemma isOldCache_namespaced (name : jsstring) :
  isOldCache name = true -> includes name (lit "list-kamba") = true.
Proof.
  unfold isOldCache. rewrite !andb_true_iff. tauto.
Qed.

(** X7. [clearCaches] deletes exactly the caches whose name contains
    [list-kamba]: the storage left is the one before without them, the
    other caches being kept with their content and in their order. *)
Theorem clearCaches_deletes_exactly_the_namespace (cs : CacheStorage) :
  clearCaches cs
  = filter (fun e => negb (includes (fst e) (lit "list-kamba"))) cs
  /\ (forall name,
        caches_lookup (clearCaches cs) name
        = if includes name (lit "list-kamba") then None
          else caches_lookup cs name).
Proof.
  split; [apply clearCaches_filter|].
  rewrite clearCaches_filter. intros name.
  induction cs as [|[k c] cs IH].
  - destruct (includes name (lit "list-kamba")); reflexivity.
  - cbn [filter fst]. destruct (includes k (lit "list-kamba")) eqn:Ek;
      cbn [negb caches_lookup].
    + rewrite IH. destruct (str_eqb k name) eqn:E; auto.
      apply str_eqb_eq in E. subst k. rewrite Ek. reflexivity.
    + destruct (str_eqb k name) eqn:E.
      * apply str_eqb_eq in E. subst k. rewrite Ek. reflexivity.
      * exact IH.
Qed.

(** X8. Activating twice is activating once; activating a cleared storage
    changes nothing, and clearing an activated storage is clearing the
    storage. *)
Theorem activate_idempotent (cs : CacheStorage) :
  activate (activate cs) = activate cs
  /\ activate (clearCaches cs) = clearCaches cs
  /\ clearCaches (activate cs) = clearCaches cs.
Proof.
  rewrite !activate_filter, !clearCaches_filter, !filter_twice.
  split; [|split]; apply filter_ext_in_keys; intros e _;
    destruct (isOldCache (fst e)) eqn:E;
    try rewrite (isOldCache_namespaced _ E);
    destruct (includes (fst e) (lit "list-kamba")); reflexivity.
Qed.

(** *** Measuring *)

Lemma addCacheSize_sum (seen cache : Cache) (total : Z) :
  NoDup (map fst (seen ++ cache)) ->
  fold_left
    (fun total req =>
       match cache_match (seen ++ cache) req with
       | Some response => (total + blobSize response)%Z
       | None => total
       end)
    (map fst cache) total
  = (total + cacheBytes cache)%Z.
Proof.
  revert seen total; induction cache as [|[u r] cache IH]; intros seen total Hd.
  - cbn. lia.
  - cbn [map fst fold_left cacheBytes fold_right snd].
    assert (cache_match (seen ++ (u, r) :: cache) u = Some r) as ->.
    { clear IH. induction seen as [|[k r0] seen IHs]; cbn.
      - rewrite str_eqb_refl. reflexivity.
      - cbn in Hd. inversion Hd as [|? ? Hk Hd']; subst.
        destruct (str_eqb k u) eqn:E.
        + apply str_eqb_eq in E. subst k. exfalso. apply Hk.
          rewrite map_app. apply in_or_app. right. left. reflexivity.
        + apply IHs. exact Hd'. }
    replace (seen ++ (u, r) :: cache) with ((seen ++ [(u, r)]) ++ cache) in *
      by (rewrite <- app_assoc; reflexivity).
    rewrite IH by exact Hd. fold (cacheBytes cache). lia.
Qed.

Lemma caches_lookup_own (seen cs : CacheStorage) (k : jsstring) (c : Cache) :
  NoDup (caches_keys (seen ++ (k, c) :: cs)) ->
  caches_lookup (seen ++ (k, c) :: cs) k = Some c.
Proof.
  induction seen as [|[k0 c0] seen IH]; cbn; intros Hd.
  - rewrite str_eqb_refl. reflexivity.
  - inversion Hd as [|? ? Hk Hd']; subst.
    destruct (str_eqb k0 k) eqn:E.
    + apply str_eqb_eq in E. subst k0. exfalso. apply Hk.
      unfold caches_keys. rewrite map_app. apply in_or_app. right. left.
      reflexivity.
    + apply IH. exact Hd'.
Qed.

Lemma getCacheSize_loop (seen cs : CacheStorage) (total : Z) :
  well_keyed (seen ++ cs) ->
  fold_left
    (fun (st : Z * CacheStorage) cacheName =>
       let (totalSize, acc) := st in
       if includes cacheName (lit "list-kamba")
       then
         let (cache, acc') := caches_open acc cacheName in
         (addCacheSize cache totalSize, acc')
       else (totalSize, acc))
    (caches_keys cs) (total, seen ++ cs)
  = ((total + storedBytes cs)%Z, seen ++ cs).
Proof.
  revert seen total; induction cs as [|[k c] cs IH]; intros seen total [Hd Hc].
  - cbn. f_equal. lia.
  - cbn [caches_keys map fst fold_left storedBytes fold_right snd].
    assert (NoDup (map fst c)) as Hdc.
    { rewrite Forall_forall in Hc. apply (Hc (k, c)).
      apply in_or_app. right. left. reflexivity. }
    replace (seen ++ (k, c) :: cs) with ((seen ++ [(k, c)]) ++ cs) in *
      by (rewrite <- app_assoc; reflexivity).
    destruct (includes k (lit "list-kamba")).
    + unfold caches_open.
      replace (caches_lookup ((seen ++ [(k, c)]) ++ cs) k) with (Some c).
      * unfold addCacheSize.
        pose proof (addCacheSize_sum [] c total Hdc) as Hs.
        cbn [app] in Hs. rewrite Hs.
        fold (caches_keys cs). rewrite IH by (split; assumption).
        fold (storedBytes cs). f_equal. lia.
      * symmetry. rewrite <- app_assoc. apply caches_lookup_own.
        rewrite <- app_assoc in Hd. exact Hd.
    + fold (caches_keys cs). rewrite IH by (split; assumption).
      fold (storedBytes cs). reflexivity.
Qed.

(** X9. In a storage whose cache names, and whose URLs within each cache,
    are unique, [getCacheSize] returns the number of body bytes held by
    the caches whose name contains [list-kamba], and leaves the storage as
    it was (no cache is created by opening them). *)
Theorem getCacheSize_measures_the_namespace (cs : CacheStorage) :
  well_keyed cs ->
  getCacheSize cs = (storedBytes cs, cs).
Proof.
  intros H. unfold getCacheSize.
  exact (getCacheSize_loop [] cs 0%Z H).
Qed.

Lemma getCacheSize_measures_the_namespace_witness :
  getCacheSize mixed_caches = (80%Z, mixed_caches).
Proof.
  apply (getCacheSize_measures_the_namespace mixed_caches).
  split.
  - repeat constructor; cbn; intuition discriminate.
  - repeat constructor; cbn; intuition discriminate.
Defined.

(** X10. After [clearCaches], [getCacheSize] reports 0 and creates
    nothing. *)
Theorem getCacheSize_after_clearCaches (cs : CacheStorage) :
  getCacheSize (clearCaches cs) = (0%Z, clearCaches cs).
Proof.
  rewrite clearCaches_filter. unfold getCacheSize.
  set (kept := filter _ cs).
  assert (forall name, In name (caches_keys kept) ->
                       includes name (lit "list-kamba") = false) as Hk.
  { intros name Hin. unfold caches_keys in Hin. apply in_map_iff in Hin.
    destruct Hin as [e [<- He]]. apply filter_In in He as [_ He].
    apply negb_true_iff in He. exact He. }
  generalize dependent (caches_keys kept). intros names.
  generalize kept. clear kept.
  induction names as [|n names IH]; intros acc Hk; cbn [fold_left].
  - reflexivity.
  - rewrite (Hk n (or_introl eq_refl)). apply IH.
    intros name Hin. apply Hk. right. exact Hin.
Qed.

(** *** Caching on request *)

Lemma caches_open_existing (cs : CacheStorage) (name : jsstring) (c : Cache) :
  caches_lookup cs name = Some c -> caches_open cs name = (c, cs).
Proof. intros H. unfold caches_open. rewrite H. reflexivity. Qed.

(** The cache is opened once, before the loop. *)
Lemma cacheUrls_opened (fetches : list (jsstring * settled Response))
  (cs : CacheStorage) :
  cacheUrls fetches cs = cacheUrls fetches (snd (caches_open cs DYNAMIC_CACHE)).
Proof.
  unfold cacheUrls at 2.
  rewrite (caches_open_existing _ _ _ (caches_open_lookup cs DYNAMIC_CACHE)).
  unfold cacheUrls. destruct (caches_open cs DYNAMIC_CACHE); reflexivity.
Qed.

Lemma cacheUrls_cons (u : jsstring) (s : settled Response)
  (fetches : list (jsstring * settled Response)) (cs : CacheStorage) (c : Cache) :
  caches_lookup cs DYNAMIC_CACHE = Some c ->
  cacheUrls ((u, s) :: fetches) cs
  = cacheUrls fetches
      match s with
      | Fulfilled r =>
          if (status r =? 200)%Z then caches_put cs DYNAMIC_CACHE u r else cs
      | Rejected => cs
      end
  /\ exists c',
       caches_lookup
         match s with
         | Fulfilled r =>
             if (status r =? 200)%Z then caches_put cs DYNAMIC_CACHE u r else cs
         | Rejected => cs
         end DYNAMIC_CACHE = Some c'
       /\ forall u',
            cache_match c' u'
            = match s with
              | Fulfilled r =>
                  if (status r =? 200)%Z && str_eqb u u' then Some r
                  else cache_match c u'
              | Rejected => cache_match c u'
              end.
Proof.
  intros Hl.
  assert (exists c',
       caches_lookup
         match s with
         | Fulfilled r =>
             if (status r =? 200)%Z then caches_put cs DYNAMIC_CACHE u r else cs
         | Rejected => cs
         end DYNAMIC_CACHE = Some c'
       /\ forall u',
            cache_match c' u'
            = match s with
              | Fulfilled r =>
                  if (status r =? 200)%Z && str_eqb u u' then Some r
                  else cache_match c u'
              | Rejected => cache_match c u'
              end) as Hstep.
  { destruct s as [r|]; [destruct (status r =? 200)%Z|].
    - exists (cache_put c u r). split.
      + rewrite caches_lookup_put, str_eqb_refl, Hl. reflexivity.
      + intros u'. rewrite cache_match_put. reflexivity.
    - exists c. split; [exact Hl | reflexivity].
    - exists c. split; [exact Hl | reflexivity]. }
  split; [|exact Hstep].
  destruct Hstep as (c' & Hl' & _).
  unfold cacheUrls.
  rewrite (caches_open_existing _ _ _ Hl), (caches_open_existing _ _ _ Hl').
  reflexivity.
Qed.

(** For a URL none of whose fetches gave a 200 response, the dynamic
    generation holds afterwards what it held. *)
Lemma cacheUrls_unchanged (fetches : list (jsstring * settled Response))
  (cs : CacheStorage) (c : Cache) (u : jsstring) :
  (forall r, In (u, Fulfilled r) fetches -> status r <> 200%Z) ->
  caches_lookup cs DYNAMIC_CACHE = Some c ->
  exists c',
    caches_lookup (cacheUrls fetches cs) DYNAMIC_CACHE = Some c'
    /\ cache_match c' u = cache_match c u.
Proof.
  revert cs c; induction fetches as [|[u' s] fetches IH]; intros cs c Hf Hl.
  - exists c. unfold cacheUrls. rewrite (caches_open_existing _ _ _ Hl).
    split; [exact Hl | reflexivity].
  - assert (forall r, In (u, Fulfilled r) fetches -> status r <> 200%Z) as Hf'
      by (intros r Hin; apply Hf; right; exact Hin).
    destruct (cacheUrls_cons u' s fetches cs c Hl) as (-> & c1 & Hl1 & Hm1).
    destruct (IH _ c1 Hf' Hl1) as (c' & Hl' & Hm').
    exists c'. split; [exact Hl'|]. rewrite Hm', Hm1.
    destruct s as [r|]; [|reflexivity].
    destruct (status r =? 200)%Z eqn:Es; [|reflexivity].
    destruct (str_eqb u' u) eqn:E; [|reflexivity].
    apply str_eqb_eq in E. subst u'. apply Z.eqb_eq in Es.
    exfalso. apply (Hf r); [left; reflexivity | exact Es].
Qed.

Lemma cacheUrls_keeps_dynamic (fetches : list (jsstring * settled Response))
  (cs : CacheStorage) (c : Cache) :
  caches_lookup cs DYNAMIC_CACHE = Some c ->
  exists c', caches_lookup (cacheUrls fetches cs) DYNAMIC_CACHE = Some c'.
Proof.
  revert cs c; induction fetches as [|[u' s] fetches IH]; intros cs c Hl.
  - exists c. unfold cacheUrls. rewrite (caches_open_existing _ _ _ Hl).
    exact Hl.
  - destruct (cacheUrls_cons u' s fetches cs c Hl) as (-> & c1 & Hl1 & _).
    apply (IH _ c1 Hl1).
Qed.

Lemma cacheUrls_app (before after : list (jsstring * settled Response))
  (cs : CacheStorage) (c : Cache) :
  caches_lookup cs DYNAMIC_CACHE = Some c ->
  cacheUrls (before ++ after) cs = cacheUrls after (cacheUrls before cs).
Proof.
  intros Hl. destruct (cacheUrls_keeps_dynamic before cs c Hl) as [c' Hl'].
  unfold cacheUrls at 2. rewrite (caches_open_existing _ _ _ Hl').
  unfold cacheUrls. rewrite (caches_open_existing _ _ _ Hl).
  apply fold_left_app.
Qed.

Lemma cacheUrls_other (fetches : list (jsstring * settled Response))
  (cs : CacheStorage) (c : Cache) (name : jsstring) :
  name <> DYNAMIC_CACHE ->
  caches_lookup cs DYNAMIC_CACHE = Some c ->
  caches_lookup (cacheUrls fetches cs) name = caches_lookup cs name.
Proof.
  intros Hn. revert cs c; induction fetches as [|[u' s] fetches IH]; intros cs c Hl.
  - unfold cacheUrls. rewrite (caches_open_existing _ _ _ Hl). reflexivity.
  - destruct (cacheUrls_cons u' s fetches cs c Hl) as (-> & c1 & Hl1 & _).
    rewrite (IH _ c1 Hl1).
    destruct s as [r|]; [|reflexivity].
    destruct (status r =? 200)%Z; [|reflexivity].
    rewrite caches_lookup_put.
    assert (str_eqb DYNAMIC_CACHE name = false) as ->
      by (apply str_eqb_neq; congruence).
    reflexivity.
Qed.

(** X11. After [cacheUrls], the dynamic generation holds for a URL the
    last response with status 200 that was fetched for it. *)
Theorem cacheUrls_stores_last_success
  (before after : list (jsstring * settled Response))
  (u : jsstring) (r : Response) (cs : CacheStorage) :
  status r = 200%Z ->
  (forall r', In (u, Fulfilled r') after -> status r' <> 200%Z) ->
  exists c,
    caches_lookup (cacheUrls (before ++ (u, Fulfilled r) :: after) cs)
      DYNAMIC_CACHE = Some c
    /\ cache_match c u = Some r.
Proof.
  intros Hok Hafter. rewrite cacheUrls_opened.
  pose proof (caches_open_lookup cs DYNAMIC_CACHE) as Hl.
  set (cs0 := snd (caches_open cs DYNAMIC_CACHE)) in *.
  rewrite (cacheUrls_app before _ cs0 _ Hl).
  destruct (cacheUrls_keeps_dynamic before cs0 _ Hl) as [c1 Hl1].
  destruct (cacheUrls_cons u (Fulfilled r) after _ c1 Hl1) as (-> & c2 & Hl2 & Hm2).
  destruct (cacheUrls_unchanged after _ c2 u Hafter Hl2) as (c3 & Hl3 & Hm3).
  exists c3. split; [exact Hl3|].
  rewrite Hm3, Hm2, Hok, Z.eqb_refl, str_eqb_refl. reflexivity.
Qed.

Lemma cacheUrls_stores_last_success_witness :
  exists c,
    caches_lookup (cacheUrls page_fetches installed_caches) DYNAMIC_CACHE = Some c
    /\ cache_match c (lit "/pages/timer.html") = Some shell_response.
Proof.
  apply (cacheUrls_stores_last_success
           [(lit "/pages/tasks.html", Fulfilled shell_response)]
           [(lit "/pages/timer.html", Fulfilled not_found_response);
            (lit "/pages/calendar.html", Rejected)]
           (lit "/pages/timer.html") shell_response installed_caches).
  - reflexivity.
  - intros r' [H|[H|[]]]; inversion H; subst; discriminate.
Defined.

(** X12. [cacheUrls] changes no cache but the dynamic generation, and in
    that one the entry of a URL none of whose fetches gave a 200 response
    (failed fetches included) is what it was. *)
Theorem cacheUrls_touches_nothing_else
  (fetches : list (jsstring * settled Response)) (cs : CacheStorage)
  (name u : jsstring) :
  name <> DYNAMIC_CACHE ->
  (forall r, In (u, Fulfilled r) fetches -> status r <> 200%Z) ->
  caches_lookup (cacheUrls fetches cs) name = caches_lookup cs name
  /\ exists c,
       caches_lookup (cacheUrls fetches cs) DYNAMIC_CACHE = Some c
       /\ cache_match c u = cache_match (fst (caches_open cs DYNAMIC_CACHE)) u.
Proof.
  intros Hn Hf. rewrite cacheUrls_opened.
  pose proof (caches_open_lookup cs DYNAMIC_CACHE) as Hl.
  split.
  - rewrite (cacheUrls_other fetches _ _ name Hn Hl).
    apply caches_open_other. congruence.
  - apply (cacheUrls_unchanged fetches _ _ u Hf Hl).
Qed.

Lemma cacheUrls_touches_nothing_else_witness :
  caches_lookup (cacheUrls page_fetches installed_caches) STATIC_CACHE
  = caches_lookup installed_caches STATIC_CACHE.
Proof.
  destruct (cacheUrls_touches_nothing_else page_fetches installed_caches
              STATIC_CACHE (lit "/pages/calendar.html")) as [H _].
  - discriminate.
  - intros r [H|[H|[H|[H|[]]]]]; inversion H.
  - exact H.
Defined.

(** *** The application shell *)

Lemma caches_open_fst (cs : CacheStorage) (name : jsstring) :
  fst (caches_open cs name)
  = match caches_lookup cs name with Some c => c | None => [] end.
Proof. unfold caches_open. destruct (caches_lookup cs name); reflexivity. Qed.

Lemma opened_after_open (cs : CacheStorage) (name name' : jsstring) :
  fst (caches_open (snd (caches_open cs name)) name')
  = fst (caches_open cs name').
Proof.
  rewrite (caches_open_fst (snd _)).
  destruct (str_eqb name name') eqn:E.
  - apply str_eqb_eq in E; subst name'. rewrite caches_open_lookup. reflexivity.
  - rewrite caches_open_other by (apply str_eqb_neq; exact E).
    symmetry. apply caches_open_fst.
Qed.

Lemma opened_after_put (cs : CacheStorage) (name name' u : jsstring) (r : Response) :
  name <> name' ->
  fst (caches_open (caches_put cs name u r) name') = fst (caches_open cs name').
Proof.
  intros H. rewrite !caches_open_fst, caches_lookup_put.
  assert (str_eqb name name' = false) as -> by (apply str_eqb_neq; exact H).
  reflexivity.
Qed.

Lemma caches_lookup_filter (f : jsstring -> bool) (cs : CacheStorage) (name : jsstring) :
  caches_lookup (filter (fun e => f (fst e)) cs) name
  = if f name then caches_lookup cs name else None.
Proof.
  induction cs as [|[k c] cs IH]; cbn [filter caches_lookup fst].
  - destruct (f name); reflexivity.
  - destruct (f k) eqn:Ef; cbn [caches_lookup];
      destruct (str_eqb k name) eqn:E; try exact IH.
    + apply str_eqb_eq in E; subst k. rewrite Ef. reflexivity.
    + apply str_eqb_eq in E; subst k. rewrite IH, Ef. reflexivity.
Qed.

Lemma caches_lookup_key (cs : CacheStorage) (name : jsstring) :
  In name (caches_keys cs) -> exists c, caches_lookup cs name = Some c.
Proof.
  induction cs as [|[k c] cs IH]; cbn; [tauto|].
  intros [->|H].
  - rewrite str_eqb_refl. eauto.
  - destruct (str_eqb k name); eauto.
Qed.

(** The storage [handleOfflineRequest] leaves: for a navigation, the
    static generation has been opened. *)
Lemma handleOfflineRequest_storage (request : Request) (cs : CacheStorage) :
  snd (handleOfflineRequest request cs)
  = if str_eqb (mode request) (lit "navigate")
    then snd (caches_open cs STATIC_CACHE) else cs.
Proof.
  unfold handleOfflineRequest.
  destruct (str_eqb (mode request) (lit "navigate")).
  - destruct (caches_open cs STATIC_CACHE) as [cache cs1]. reflexivity.
  - destruct (startsWith (pathname request) (lit "/api/")); reflexivity.
Qed.

(** [getCacheSize] opens caches that exist. *)
Lemma getCacheSize_storage (cs : CacheStorage) : snd (getCacheSize cs) = cs.
Proof.
  unfold getCacheSize.
  assert (forall names total,
            incl names (caches_keys cs) ->
            snd (fold_left
                   (fun (st : Z * CacheStorage) cacheName =>
                      let (totalSize, acc) := st in
                      if includes cacheName (lit "list-kamba")
                      then
                        let (cache, acc') := caches_open acc cacheName in
                        (addCacheSize cache totalSize, acc')
                      else (totalSize, acc))
                   names (total, cs)) = cs) as H.
  { induction names as [|n names IH]; intros total Hincl; [reflexivity|].
    cbn [fold_left].
    assert (incl names (caches_keys cs)) as Hrest
      by (intros x Hx; apply Hincl; right; exact Hx).
    destruct (includes n (lit "list-kamba")); [|apply IH; exact Hrest].
    destruct (caches_lookup_key cs n) as [c Hc]; [apply Hincl; left; reflexivity|].
    rewrite (caches_open_existing _ _ _ Hc). apply IH; exact Hrest. }
  apply H. apply incl_refl.
Qed.

(** After [cache.addAll] has stored the responses, every URL of the list
    has an entry. *)
Lemma addAll_holds (network : jsstring -> settled Response)
  (urls : list jsstring) (name u : jsstring) (cs : CacheStorage) (c : Cache) :
  caches_lookup cs name = Some c ->
  forallb (fun u => acceptable (network u)) urls = true ->
  In u urls \/ cache_match c u <> None ->
  exists c',
    caches_lookup
      (fold_left
         (fun acc u =>
            match network u with
            | Fulfilled r => caches_put acc name u r
            | Rejected => acc
            end)
         urls cs) name = Some c'
    /\ cache_match c' u <> None.
Proof.
  revert cs c; induction urls as [|x urls IH]; intros cs c Hc Hall Hu.
  - cbn. exists c. split; [exact Hc|]. destruct Hu as [[]|Hu]; exact Hu.
  - cbn [forallb] in Hall. apply andb_true_iff in Hall as [Hx Hall].
    cbn [fold_left]. destruct (network x) as [r|]; [|discriminate Hx].
    apply (IH _ (cache_put c x r)); [|exact Hall|].
    + rewrite caches_lookup_put, str_eqb_refl, Hc. reflexivity.
    + rewrite cache_match_put.
      destruct (str_eqb x u) eqn:E; [right; discriminate|].
      destruct Hu as [[->|Hu]|Hu]; [|left; exact Hu|right; exact Hu].
      rewrite str_eqb_refl in E. discriminate E.
Qed.

Lemma static_is_current : isOldCache STATIC_CACHE = false.
Proof. vm_compute. reflexivity. Qed.

Lemma static_is_namespaced : includes STATIC_CACHE (lit "list-kamba") = true.
Proof. vm_compute. reflexivity. Qed.

Lemma dynamic_not_static : DYNAMIC_CACHE <> STATIC_CACHE.
Proof. apply str_eqb_neq. vm_compute. reflexivity. Qed.

Lemma runtime_not_static : RUNTIME_CACHE <> STATIC_CACHE.
Proof. apply str_eqb_neq. vm_compute. reflexivity. Qed.

(** The invariant looks at the static generation only. *)
Lemma shellWhole_static (cs cs' : CacheStorage) :
  fst (caches_open cs' STATIC_CACHE) = fst (caches_open cs STATIC_CACHE) ->
  shellWhole cs -> shellWhole cs'.
Proof. unfold shellWhole. intros ->. auto. Qed.

Lemma shellWhole_start : shellWhole [].
Proof. intros H. exfalso. apply H. reflexivity. Qed.

(** [install] stores the whole shell, or leaves the static generation as
    it was. *)
Lemma shellWhole_install (network : jsstring -> settled Response)
  (cs : CacheStorage) :
  shellWhole cs -> shellWhole (install network cs).
Proof.
  intros Hcs. unfold install.
  pose proof (caches_open_lookup cs STATIC_CACHE) as Hopen.
  pose proof (opened_after_open cs STATIC_CACHE STATIC_CACHE) as Hsame.
  destruct (caches_open cs STATIC_CACHE) as [c cs1] eqn:E. cbn [fst snd] in *.
  unfold caches_addAll.
  destruct (forallb (fun u => acceptable (network u)) STATIC_FILES) eqn:Hall.
  - destruct (addAll_holds network STATIC_FILES STATIC_CACHE (lit "/index.html")
                cs1 c Hopen Hall) as (c' & Hc' & Hindex).
    { left. cbn. right; left; reflexivity. }
    unfold shellWhole. rewrite caches_open_fst, Hc'. intros _. exact Hindex.
  - unfold shellWhole in *. rewrite E in Hcs. rewrite Hsame. exact Hcs.
Qed.

(** No operation of the worker breaks the invariant. *)
Lemma shellWhole_kept (cs : CacheStorage) :
  shellWhole cs ->
  (forall network request, shellWhole (snd (cacheFirst network request cs)))
  /\ (forall network request, shellWhole (snd (networkFirst network request cs)))
  /\ (forall network request,
        shellWhole (snd (staleWhileRevalidate network request cs)))
  /\ (forall request, shellWhole (snd (handleOfflineRequest request cs)))
  /\ shellWhole (activate cs)
  /\ shellWhole (clearCaches cs)
  /\ (forall fetches, shellWhole (cacheUrls fetches cs))
  /\ shellWhole (snd (getCacheSize cs)).
Proof.
  intros Hcs.
  assert (forall request, shellWhole (snd (handleOfflineRequest request cs)))
    as Hoffline.
  { intros request. apply (shellWhole_static cs); [|exact Hcs].
    rewrite handleOfflineRequest_storage.
    destruct (str_eqb (mode request) (lit "navigate")); [|reflexivity].
    apply opened_after_open. }
  assert (forall name u r,
            name <> STATIC_CACHE ->
            shellWhole (caches_put (snd (caches_open cs name)) name u r))
    as Hput.
  { intros name u r Hname. apply (shellWhole_static cs); [|exact Hcs].
    rewrite opened_after_put by exact Hname. apply opened_after_open. }
  assert (forall name, shellWhole (snd (caches_open cs name))) as Hopen.
  { intros name. apply (shellWhole_static cs); [|exact Hcs].
    apply opened_after_open. }
  split; [|split; [|split; [|split; [|split; [|split; [|split]]]]]].
  - intros network request. unfold cacheFirst.
    destruct (caches_match cs (url request)); [exact Hcs|].
    destruct network as [r|]; [|apply Hoffline].
    destruct (status r =? 200)%Z; [|exact Hcs].
    pose proof (Hput DYNAMIC_CACHE (url request) r dynamic_not_static) as H.
    destruct (caches_open cs DYNAMIC_CACHE); exact H.
  - intros network request. unfold networkFirst.
    destruct network as [r|].
    + destruct (status r =? 200)%Z; [|exact Hcs].
      pose proof (Hput RUNTIME_CACHE (url request) r runtime_not_static) as H.
      destruct (caches_open cs RUNTIME_CACHE); exact H.
    + destruct (caches_match cs (url request)); [exact Hcs|apply Hoffline].
  - intros network request. rewrite staleWhileRevalidate_storage.
    destruct network as [r|]; [|apply Hopen].
    destruct (status r =? 200)%Z; [|apply Hopen].
    apply Hput. exact runtime_not_static.
  - exact Hoffline.
  - apply (shellWhole_static cs); [|exact Hcs].
    rewrite !caches_open_fst, activate_filter.
    rewrite (caches_lookup_filter (fun n => negb (isOldCache n))).
    rewrite static_is_current. reflexivity.
  - unfold shellWhole. rewrite caches_open_fst, clearCaches_filter.
    rewrite (caches_lookup_filter
               (fun n => negb (includes n (lit "list-kamba")))).
    rewrite static_is_namespaced. intros H. exfalso. apply H. reflexivity.
  - intros fetches. apply (shellWhole_static (snd (caches_open cs DYNAMIC_CACHE)));
      [|apply Hopen].
    rewrite cacheUrls_opened, !caches_open_fst.
    rewrite (cacheUrls_other fetches _ (fst (caches_open cs DYNAMIC_CACHE))).
    + reflexivity.
    + intros H. apply dynamic_not_static. symmetry. exact H.
    + apply caches_open_lookup.
  - rewrite getCacheSize_storage. exact Hcs.
Qed.

(** Every cache storage the worker produces has the invariant. *)
Lemma produced_shellWhole (cs : CacheStorage) : produced cs -> shellWhole cs.
Proof.
  induction 1 as [|network cs _ IH|cs _ IH|network event cs response cs' _ IH Hrun
                  |fetches cs _ IH|cs _ IH|cs _ IH].
  - exact shellWhole_start.
  - apply shellWhole_install; exact IH.
  - apply (shellWhole_kept cs IH).
  - destruct (shellWhole_kept cs IH) as (Hc & Hn & Hs & _).
    unfold onFetch in Hrun.
    destruct (chooseStrategy event) as [[| |]|]; inversion Hrun as [Heq].
    + specialize (Hc network (request event)). rewrite Heq in Hc. exact Hc.
    + specialize (Hn network (request event)). rewrite Heq in Hn. exact Hn.
    + specialize (Hs network (request event)). rewrite Heq in Hs. exact Hs.
  - apply (shellWhole_kept cs IH).
  - apply (shellWhole_kept cs IH).
  - apply (shellWhole_kept cs IH).
Qed.

(** C4. What [handleOfflineRequest] resolves to, by the kind of request.
    A navigation request receives the application shell of the static
    generation, the index document or else the root document, whichever is
    cached, in every cache storage that holds the root document only
    together with the index document, as do all the storages the worker
    produces. A request
    of another mode whose path starts with ['/api/'] receives the JSON
    body with [error: 'offline'] and status 503, and every other request
    the offline page with status 200. *)
Theorem offline_fallback_by_kind (request : Request) (cs : CacheStorage) :
  (mode request = lit "navigate" ->
   shellWhole cs ->
   fst (handleOfflineRequest request cs) = cachedShell cs)
  /\ (mode request <> lit "navigate" ->
      startsWith (pathname request) (lit "/api/") = true ->
      handleOfflineRequest request cs = (Some offline_api_response, cs)
      /\ status offline_api_response = 503%Z
      /\ body offline_api_response
         = JSON_stringify_object
             (("error", "offline")%string :: tl offline_api_payload))
  /\ (mode request <> lit "navigate" ->
      startsWith (pathname request) (lit "/api/") = false ->
      handleOfflineRequest request cs = (Some offline_page_response, cs)
      /\ status offline_page_response = 200%Z
      /\ headers offline_page_response
         = [("Content-Type", "text/html")%string]).
Proof.
  split; [|split].
  - intros Hm Hcs. unfold handleOfflineRequest, cachedShell.
    rewrite Hm, str_eqb_refl. unfold shellWhole in Hcs.
    destruct (caches_open cs STATIC_CACHE) as [cache cs1]. cbn [fst] in *.
    unfold js_or. cbn [operand_truthy resolve fst].
    destruct (cache_match cache (lit "/index.html")) as [r|]; [reflexivity|].
    destruct (cache_match cache (lit "/")) as [r|]; [|reflexivity].
    exfalso. apply Hcs; [discriminate | reflexivity].
  - intros Hm Hp. unfold handleOfflineRequest.
    apply str_eqb_neq in Hm. rewrite Hm, Hp. repeat split.
  - intros Hm Hp. unfold handleOfflineRequest.
    apply str_eqb_neq in Hm. rewrite Hm, Hp. repeat split.
Qed.

Lemma offline_fallback_by_kind_witness :
  shellWhole (install shell_network [])
  /\ fst (handleOfflineRequest page_request (install shell_network []))
     = Some shell_response
  /\ handleOfflineRequest api_request (install shell_network [])
     = (Some offline_api_response, install shell_network []).
Proof.
  assert (shellWhole (install shell_network [])) as Hcs
    by (apply shellWhole_install; exact shellWhole_start).
  split; [exact Hcs|].
  destruct (offline_fallback_by_kind page_request (install shell_network []))
    as [Hnav _].
  destruct (offline_fallback_by_kind api_request (install shell_network []))
    as (_ & Hapi & _).
  split.
  - rewrite (Hnav eq_refl Hcs). vm_compute. reflexivity.
  - apply Hapi; [discriminate | reflexivity].
Defined.

End CacheRouterFacts.

(** ** The persistence manager: the other operations *)

Module StorageSetupFacts.
Import StorageManager Vocabulary StorageManagerSetup StorageExamples SetupExamples.
Import StorageFacts.

(** *** Deleting from a store *)

Lemma store_get_delete {A} (keyOf : A -> value) (k k' : value) (s : list A) :
  store_get keyOf k (store_delete keyOf k' s)
  = if key_eqb k k' then None else store_get keyOf k s.
Proof.
  unfold store_get, store_delete.
  induction s as [|x s IH]; cbn [filter find].
  - destruct (key_eqb k k'); reflexivity.
  - destruct (key_eqb (keyOf x) k') eqn:E; cbn [negb find].
    + rewrite IH. destruct (key_eqb k k') eqn:Ek; [reflexivity|].
      apply key_eqb_eq in E. rewrite E, (key_eqb_sym k' k), Ek. reflexivity.
    + rewrite IH. destruct (key_eqb (keyOf x) k) eqn:Ex; [|reflexivity].
      apply key_eqb_eq in Ex. rewrite <- Ex, E. reflexivity.
Qed.

Lemma key_eqb_neq (a b : value) : key_eqb a b = false <-> a <> b.
Proof.
  rewrite <- key_eqb_eq. destruct (key_eqb a b); split; congruence.
Qed.

Section Deleting.
Variable P : platform.

Lemma deleteTask_run (i : value) (w : world) (d : database) :
  db w = Some d ->
  deleteTask P i w
  = if valid_key i
    then (Ok true,
          written analytics
            (eventAt P (tick w) (lit "task_deleted") (TaskDeletedData i))
            (with_tick (4 + tick w)
               (with_db (Some {| tasksStore := store_delete id i (tasksStore d);
                                 settingsStore := settingsStore d;
                                 analyticsStore := analyticsStore d |}) w)))
    else (Ok false, w).
Proof.
  intros Hd. unfold deleteTask, try_catch, bind at 1.
  unfold deleteFromStore, bind at 1, get_world. rewrite Hd.
  destruct (valid_key i); [|reflexivity].
  unfold modify, bind. rewrite (trackEvent_run P). reflexivity.
Qed.

(** X13. With IndexedDB open, [deleteTask] of a number or a string
    resolves to [true], whether or not a task was stored under it: no task
    is stored under that id afterwards, every other task is stored as
    before, and a [task_deleted] event has been recorded. *)
Theorem deleteTask_removes_the_task (i : value) (w : world) (d : database) :
  db w = Some d ->
  valid_key i = true ->
  exists w',
    deleteTask P i w = (Ok true, w')
    /\ taskUnder w' i = None
    /\ (forall k, k <> i -> taskUnder w' k = taskUnder w k)
    /\ In (eventAt P (tick w) (lit "task_deleted") (TaskDeletedData i))
          (recordedEvents w').
Proof.
  intros Hd Hv. rewrite (deleteTask_run i w d Hd), Hv.
  eexists. split; [reflexivity|].
  split; [|split].
  - rewrite taskUnder_written_event. unfold taskUnder.
    cbn [db with_db tasksStore].
    rewrite store_get_delete, key_eqb_refl. reflexivity.
  - intros k Hk. rewrite taskUnder_written_event. unfold taskUnder.
    cbn [db with_db tasksStore]. rewrite Hd, store_get_delete.
    apply key_eqb_neq in Hk. rewrite Hk. reflexivity.
  - apply recorded_written.
Qed.

(** X14. With IndexedDB open, [deleteTask] of a value that is not a valid
    key ([undefined], [null], a boolean) resolves to [false] and changes
    nothing, not even the analytics. *)
Theorem deleteTask_rejects_invalid_key (i : value) (w : world) (d : database) :
  db w = Some d ->
  valid_key i = false ->
  deleteTask P i w = (Ok false, w).
Proof.
  intros Hd Hv. rewrite (deleteTask_run i w d Hd), Hv. reflexivity.
Qed.

End Deleting.

Lemma deleteTask_removes_the_task_witness :
  exists w',
    deleteTask examplePlatform (VString (lit "t1")) two_tasks_world = (Ok true, w')
    /\ taskUnder two_tasks_world (VString (lit "t1")) = Some dated_task
    /\ taskUnder w' (VString (lit "t1")) = None
    /\ taskUnder w' (VString (lit "t2")) = Some undated_task.
Proof.
  destruct (deleteTask_removes_the_task examplePlatform (VString (lit "t1"))
              two_tasks_world (database_of two_tasks_world) eq_refl eq_refl)
    as (w' & Hrun & Hgone & Hkept & _).
  exists w'. split; [exact Hrun|]. split; [reflexivity|]. split; [exact Hgone|].
  rewrite Hkept; [reflexivity | discriminate].
Defined.

Lemma deleteTask_rejects_invalid_key_witness :
  deleteTask examplePlatform VNull two_tasks_world = (Ok false, two_tasks_world).
Proof.
  exact (deleteTask_rejects_invalid_key examplePlatform VNull two_tasks_world
           (database_of two_tasks_world) eq_refl eq_refl).
Defined.

(** *** Reading back what was saved *)

Section Reading.
Variable P : platform.

Lemma saveTask_stored (task t' : Task) (w w' : world) (d : database) :
  db w = Some d ->
  saveTask P task w = (Ok t', w') ->
  exists d', db w' = Some d' /\ store_get id (id t') (tasksStore d') = Some t'.
Proof.
  intros Hd Hrun.
  pose proof (saveTask_persists P task t' w w' Hrun) as Hp.
  destruct (saveTask_ok P task t' w w' Hrun)
    as (t1 & n & _ & _ & _ & _ & Hw & _).
  unfold persistedTask, taskUnder in Hp. subst w'.
  unfold written in Hp |- *. cbn [db with_tick with_db] in Hp |- *.
  rewrite Hd in Hp |- *. cbn [db with_tick with_db] in Hp |- *.
  eexists. split; [reflexivity|]. exact Hp.
Qed.

Lemma getTask_after_save (task t' : Task) (w w' : world) :
  db w <> None ->
  saveTask P task w = (Ok t', w') ->
  getTask P (id t') w' = (Ok (FOne t'), w').
Proof.
  intros Hdb Hrun.
  destruct (saveTask_establishes P task t' w w' Hrun Hdb)
    as (_ & _ & Htruthy & Hvalid & _).
  destruct (db w) as [d|] eqn:Hd; [|congruence].
  destruct (saveTask_stored task t' w w' d Hd Hrun) as (d' & Hd' & Hget).
  unfold getTask, try_catch, bind, get_world. rewrite Hd'.
  unfold getFromStore, bind, get_world. rewrite Hd', Htruthy, Hvalid.
  cbn [objects keyPath tasks ret]. rewrite Hget. reflexivity.
Qed.

Lemma getTasks_after_save (task t' : Task) (w w' : world) :
  db w <> None ->
  saveTask P task w = (Ok t', w') ->
  In t' (Array_sort compareTasks (storedTasks w')).
Proof.
  intros Hdb Hrun.
  destruct (db w) as [d|] eqn:Hd; [|congruence].
  destruct (saveTask_stored task t' w w' d Hd Hrun) as (d' & Hd' & Hget).
  apply (Permutation_in _ (Permutation_sym (Array_sort_perm _ compareTasks _))).
  unfold storedTasks. rewrite Hd'.
  apply (store_get_Some _ id (id t') t' _ Hget).
Qed.

(** X15. With IndexedDB open, the task [saveTask] resolves to is the one
    [getTask] finds under its id, and it is among the tasks [getTasks]
    lists. *)
Theorem getTask_finds_saved_task (task t' : Task) (w w' : world) :
  db w <> None ->
  saveTask P task w = (Ok t', w') ->
  getTask P (id t') w' = (Ok (FOne t'), w')
  /\ exists l, getTasks P no_filters w' = (Ok l, w') /\ In t' l.
Proof.
  intros Hdb Hrun. split.
  - apply (getTask_after_save task t' w w' Hdb Hrun).
  - rewrite (getTasks_all P). eexists. split; [reflexivity|].
    apply (getTasks_after_save task t' w w' Hdb Hrun).
Qed.

Lemma itemKey_not_store {A} (S : store_desc A) (k : value) :
  truthy k = true -> str_eqb (itemKey S k) (storeName S) = false.
Proof.
  intros Hk. unfold itemKey. rewrite Hk. apply str_eqb_neq. intros H.
  apply (f_equal (@List.length N)) in H. rewrite !length_app in H.
  cbn in H. lia.
Qed.

Lemma generatedId_truthy (n : nat) : truthy (VString (generatedId P n)) = true.
Proof. reflexivity. Qed.

Lemma setDefaults_id_truthy (task t1 : Task) (w w1 : world) :
  setDefaults P task w = (Ok t1, w1) -> truthy (id t1) = true.
Proof.
  intros Hrun.
  destruct (setDefaults_run P task w) as (t & n & Hrun' & _ & Hid & _).
  rewrite Hrun in Hrun'. inversion Hrun'; subst t.
  rewrite Hid. destruct (truthy (id task)) eqn:E; [exact E | reflexivity].
Qed.

Lemma written_fallback {A} (S : store_desc A) (data : A) (w : world) :
  db w = None ->
  written S data w
  = with_localStorage
      (with_items S (area_set (itemKey S (data_id S data)) (One data)
                              (items S (localStorage w)))
                  (localStorage w)) w.
Proof. intros Hd. unfold written. rewrite Hd. reflexivity. Qed.

Lemma getFromStore_fallback {A} (S : store_desc A) (k : value) (w : world) :
  db w = None ->
  getFromStore S k w
  = (Ok (fetched_of_blob (area_get (itemKey S k) (items S (localStorage w)))), w).
Proof.
  intros Hd. unfold getFromStore, bind, get_world. rewrite Hd. reflexivity.
Qed.

Lemma getAnalytics_no_filters (w : world) (f : fetched Event) :
  getFromStore analytics VNull w = (Ok f, w) ->
  getAnalytics no_analytics_filters w = (Ok (as_array f), w).
Proof.
  intros H. unfold getAnalytics, try_catch, bind. rewrite H. reflexivity.
Qed.

(** In the fallback, [saveTask] never touches the item that [getTasks]
    reads. *)
Lemma saveTask_fallback_storedTasks (task : Task) (w : world) :
  db w = None -> storedTasks (snd (saveTask P task w)) = storedTasks w.
Proof.
  intros Hd. rewrite (saveTask_run P).
  destruct (blank_title (title task)); [reflexivity|].
  destruct (title task); try reflexivity.
  destruct (setDefaults P task w) as [[t1|e] w1] eqn:Hrun.
  - pose proof (setDefaults_id_truthy task t1 w w1 Hrun) as Hid.
    destruct (setDefaults_run P task w) as (t & n & Hrun' & _).
    rewrite Hrun in Hrun'. inversion Hrun'; subst t w1. clear Hrun'.
    rewrite <- (normalised_id t1) in Hid.
    pose proof (itemKey_not_store tasks _ Hid) as Hk.
    cbv zeta. unfold storable. cbn [db with_tick]. rewrite Hd. cbn [snd].
    rewrite (written_fallback tasks _ (with_tick (S n) w) Hd).
    rewrite (written_fallback analytics) by exact Hd.
    unfold storedTasks.
    cbn [db with_tick with_localStorage localStorage with_items tasks
         analytics taskItems items].
    rewrite Hd, area_get_set. cbn [storeName tasks] in Hk.
    change (data_id tasks (normalised t1)) with (id (normalised t1)).
    rewrite Hk.
    reflexivity.
  - destruct (setDefaults_run P task w) as (t & n & Hrun' & _).
    rewrite Hrun in Hrun'. discriminate.
Qed.

(** X16. When IndexedDB is not available, what [saveTask] and
    [trackEvent] write is never read back: [getTasks] lists the same tasks
    after a [saveTask] as before it, and [getAnalytics] the same events
    after a [trackEvent] (the writes go to the items [tasks_<id>] and
    [analytics_<id>], the reads to the items [tasks] and [analytics]). *)
Theorem fallback_writes_are_not_read
  (task : Task) (type : jsstring) (d : payload) (w : world) :
  db w = None ->
  fst (getTasks P no_filters (snd (saveTask P task w)))
  = fst (getTasks P no_filters w)
  /\ fst (getAnalytics no_analytics_filters (snd (trackEvent P type d w)))
     = fst (getAnalytics no_analytics_filters w).
Proof.
  intros Hd. split.
  - rewrite !(getTasks_all P). cbn [fst].
    rewrite (saveTask_fallback_storedTasks task w Hd). reflexivity.
  - rewrite (trackEvent_run P). cbn [snd].
    rewrite (written_fallback analytics) by exact Hd.
    pose proof (itemKey_not_store analytics _ (generatedId_truthy (tick w))) as Hk.
    cbn [storeName analytics] in Hk.
    rewrite (getAnalytics_no_filters _ _ (getFromStore_fallback analytics VNull w Hd)).
    set (w1 := with_localStorage _ _).
    assert (db w1 = None) as Hd1 by exact Hd.
    rewrite (getAnalytics_no_filters _ _ (getFromStore_fallback analytics VNull w1 Hd1)).
    subst w1.
    cbn [fst localStorage with_localStorage with_tick items with_items analytics
         analyticsItems].
    unfold itemKey at 1 3. cbn [truthy storeName analytics].
    rewrite app_nil_r, area_get_set.
    change (data_id analytics (eventAt P (tick w) type d))
      with (VString (generatedId P (tick w))).
    rewrite Hk. reflexivity.
Qed.

End Reading.

Lemma getTask_finds_saved_task_witness :
  exists t' w',
    saveTask examplePlatform bill_task empty_world = (Ok t', w')
    /\ getTask examplePlatform (id t') w' = (Ok (FOne t'), w').
Proof.
  destruct (saveTask examplePlatform bill_task empty_world) as [[t'|e] w'] eqn:E.
  - exists t', w'. split; [reflexivity|].
    apply (getTask_finds_saved_task examplePlatform bill_task t' empty_world w').
    + discriminate.
    + exact E.
  - vm_compute in E. discriminate.
Defined.

Lemma fallback_writes_are_not_read_witness :
  fst (getTasks examplePlatform no_filters
         (snd (saveTask examplePlatform bill_task fallback_world)))
  = Ok [].
Proof.
  destruct (fallback_writes_are_not_read examplePlatform bill_task
              (lit "task_created") (FreeData VNull) fallback_world eq_refl)
    as [H _].
  rewrite H. reflexivity.
Defined.

(** *** Settings *)

Section Settings.
Variable P : platform.

Lemma getSetting_run (k : jsstring) (defaultValue : value) (w : world)
  (d : database) :
  db w = Some d ->
  getSetting k defaultValue w
  = (Ok (if isEmpty k then VUndefined
         else match store_get (keyPath settings) (VString k) (settingsStore d) with
              | Some s => setting_value s
              | None => defaultValue
              end), w).
Proof.
  intros Hd. unfold getSetting, getFromStore, try_catch, bind, get_world.
  rewrite Hd. destruct k as [|c k]; cbn [truthy isEmpty negb valid_key].
  - reflexivity.
  - cbn [objects settings ret].
    destruct (store_get _ (VString (c :: k)) (settingsStore d)); reflexivity.
Qed.

Lemma getSetting_fallback (k : jsstring) (defaultValue : value) (w : world) :
  db w = None ->
  getSetting k defaultValue w
  = (Ok match area_get (itemKey settings (VString k))
                (settingItems (localStorage w)) with
        | Some (One s) => setting_value s
        | Some (Many _) => VUndefined
        | None => defaultValue
        end, w).
Proof.
  intros Hd. unfold getSetting, try_catch, bind.
  rewrite (getFromStore_fallback settings (VString k) w Hd).
  cbn [items settings].
  destruct (area_get _ (settingItems (localStorage w))) as [[s|l]|]; reflexivity.
Qed.

(** X17. With IndexedDB open, a setting written by [setSetting] under a
    non-empty key is what [getSetting] returns for that key, whatever the
    default (also when the value is [null] or [undefined]), and the other
    keys read as before. *)
Theorem getSetting_returns_what_was_set
  (k k' : jsstring) (v defaultValue : value) (w : world) (d : database) :
  db w = Some d ->
  k <> [] ->
  k' <> k ->
  exists w',
    setSetting k v w = (Ok true, w')
    /\ getSetting k defaultValue w' = (Ok v, w')
    /\ fst (getSetting k' defaultValue w') = fst (getSetting k' defaultValue w).
Proof.
  intros Hd Hk Hk'. rewrite (setSetting_run k v w d Hd).
  eexists. split; [reflexivity|].
  split.
  - erewrite getSetting_run by reflexivity. cbn [settingsStore].
    rewrite store_get_put. cbn [keyPath settings key]. rewrite key_eqb_refl.
    destruct k; [congruence | reflexivity].
  - erewrite getSetting_run by reflexivity.
    rewrite (getSetting_run k' defaultValue w d Hd). cbn [settingsStore fst].
    rewrite store_get_put. cbn [keyPath settings key].
    assert (key_eqb (VString k) (VString k') = false) as ->
      by (apply key_eqb_neq; congruence).
    reflexivity.
Qed.

(** X18. When IndexedDB is not available, every [setSetting] overwrites
    the one item [settings]: no setting can be read back under its key
    ([getSetting] of a non-empty key answers as before the write), and
    [getSetting] of the empty key returns the value written last, whatever
    its key was. *)
Theorem fallback_settings_share_one_item
  (k k' : jsstring) (v defaultValue : value) (w : world) :
  db w = None ->
  k' <> [] ->
  exists w',
    setSetting k v w = (Ok true, w')
    /\ fst (getSetting k' defaultValue w') = fst (getSetting k' defaultValue w)
    /\ getSetting [] defaultValue w' = (Ok v, w').
Proof.
  intros Hd Hk'. unfold setSetting, try_catch, bind.
  rewrite saveToStore_run. unfold storable. rewrite Hd.
  rewrite (written_fallback settings _ w Hd).
  eexists. split; [reflexivity|].
  set (w' := with_localStorage _ w).
  assert (db w' = None) as Hd' by exact Hd.
  rewrite !(getSetting_fallback _ _ w' Hd'), (getSetting_fallback _ _ w Hd).
  subst w'.
  cbn [fst localStorage with_localStorage items with_items settings
       settingItems data_id].
  rewrite !area_get_set.
  assert (truthy (VString k') = true) as Ht
    by (destruct k'; [congruence | reflexivity]).
  pose proof (itemKey_not_store settings _ Ht) as Hne.
  rewrite str_eqb_sym in Hne.
  unfold itemKey at 1 3 5. cbn [truthy isEmpty negb]. rewrite !app_nil_r.
  rewrite Hne, str_eqb_refl. split; reflexivity.
Qed.

End Settings.

Lemma getSetting_returns_what_was_set_witness :
  exists w',
    setSetting (lit "theme") (VString (lit "dark")) empty_world = (Ok true, w')
    /\ getSetting (lit "theme") VNull w' = (Ok (VString (lit "dark")), w').
Proof.
  destruct (getSetting_returns_what_was_set (lit "theme") (lit "language")
              (VString (lit "dark")) VNull empty_world empty_database eq_refl)
    as (w' & Hset & Hget & _).
  - discriminate.
  - discriminate.
  - exists w'. split; assumption.
Defined.

Lemma fallback_settings_share_one_item_witness :
  exists w',
    setSetting (lit "theme") (VString (lit "dark")) fallback_world = (Ok true, w')
    /\ fst (getSetting (lit "theme") VNull w') = Ok VNull
    /\ getSetting [] VNull w' = (Ok (VString (lit "dark")), w').
Proof.
  destruct (fallback_settings_share_one_item (lit "theme") (lit "theme")
              (VString (lit "dark")) VNull fallback_world eq_refl)
    as (w' & Hset & Hsame & Hlast).
  - discriminate.
  - exists w'. split; [exact Hset|]. split; [|exact Hlast].
    rewrite Hsame. reflexivity.
Defined.

(** *** Analytics *)

Section Analytics.
Variable P : platform.

(** X19. With IndexedDB open, an event recorded by [trackEvent] is
    returned by [getAnalytics] when it is asked for the events of that
    type, and nothing of another type is. *)
Theorem getAnalytics_returns_tracked_event
  (type : jsstring) (d : payload) (w : world) (d0 : database) :
  db w = Some d0 ->
  type <> [] ->
  exists w' l,
    trackEvent P type d w = (Ok true, w')
    /\ getAnalytics {| a_type := VString type; a_startDate := SUndefined;
                       a_endDate := SUndefined |} w' = (Ok l, w')
    /\ In (eventAt P (tick w) type d) l
    /\ Forall (fun e => event_type e = type) l.
Proof.
  intros Hd Ht. rewrite (trackEvent_run P).
  eexists. eexists. split; [reflexivity|].
  unfold written. cbn [db with_tick]. rewrite Hd.
  unfold getAnalytics, getFromStore, try_catch, bind, get_world.
  cbn [a_type a_startDate a_endDate].
  assert (truthy (VString type) = true) as ->
    by (destruct type; [congruence | reflexivity]).
  cbn [db with_db truthy objects with_objects analytics analyticsStore ret
       as_array stamp_truthy].
  split; [reflexivity|]. split.
  - apply filter_In. split.
    + apply store_put_In_new.
    + cbn [event_type eventAt strict_eq]. apply str_eqb_refl.
  - apply Forall_forall. intros e He. apply filter_In in He as [_ He].
    cbn [strict_eq] in He. apply str_eqb_eq in He. exact He.
Qed.

End Analytics.

Lemma getAnalytics_returns_tracked_event_witness :
  exists w' l,
    trackEvent examplePlatform (lit "task_created") (FreeData VNull) events_world
    = (Ok true, w')
    /\ getAnalytics {| a_type := VString (lit "task_created");
                       a_startDate := SUndefined; a_endDate := SUndefined |} w'
       = (Ok l, w')
    /\ Forall (fun e => event_type e = lit "task_created") l.
Proof.
  destruct (getAnalytics_returns_tracked_event examplePlatform
              (lit "task_created") (FreeData VNull) events_world
              (database_of events_world) eq_refl)
    as (w' & l & Hrun & Hget & _ & Hall).
  - discriminate.
  - exists w', l. repeat split; assumption.
Defined.

(** *** The sync queue and connectivity *)

Section Connectivity.
Variable P : platform.

Lemma addToSyncQueue_run (op : thunk) (w : world) :
  addToSyncQueue P op w
  = (Ok tt,
     let q := syncQueue w
              ++ [{| item_id := generatedId P (tick w); operation := op;
                     item_timestamp := clock P (S (S (tick w))) |}] in
     {| db := db w;
        localStorage :=
          {| taskItems := taskItems (localStorage w);
             settingItems := settingItems (localStorage w);
             analyticsItems := analyticsItems (localStorage w);
             syncQueueItem := Some (mirror q) |};
        isOnline := isOnline w;
        syncQueue := q;
        tick := S (S (S (tick w))) |}).
Proof.
  unfold addToSyncQueue, bind at 1. rewrite (generateId_run P).
  unfold bind, Date_now, push, persistSyncQueue, modify. reflexivity.
Qed.

(** X20. An operation queued while the manager is offline is appended to
    the queue, which is mirrored in localStorage; [processSyncQueue]
    leaves it there as long as the manager is offline; the [online] event
    runs the whole queue once, keeps the operations that threw, and
    mirrors what is left. *)
Theorem queued_operation_waits_for_online (op : thunk) (w : world) :
  isOnline w = false ->
  let w1 := snd (addToSyncQueue P op w) in
  exists item,
    syncQueue w1 = syncQueue w ++ [item]
    /\ operation item = op
    /\ item_id item = generatedId P (tick w)
    /\ syncQueueItem (localStorage w1) = Some (mirror (syncQueue w1))
    /\ processSyncQueue w1 = (Ok tt, w1)
    /\ let w2 := snd (onOnline w1) in
       isOnline w2 = true
       /\ syncQueue w2 = map invoked (filter throwsNow (syncQueue w1))
       /\ syncQueueItem (localStorage w2) = Some (mirror (syncQueue w2)).
Proof.
  intros Hoff w1. subst w1. rewrite addToSyncQueue_run. cbn [snd].
  set (item := {| item_id := generatedId P (tick w); operation := op;
                  item_timestamp := clock P (S (S (tick w))) |}).
  cbv zeta.
  set (w1 := {| db := db w; localStorage := _; isOnline := isOnline w;
                syncQueue := syncQueue w ++ [item]; tick := _ |}).
  exists item. split; [reflexivity|]. split; [reflexivity|].
  split; [reflexivity|]. split; [reflexivity|]. split.
  - apply processSyncQueue_idle. left. exact Hoff.
  - unfold onOnline, bind, modify.
    assert (syncQueue (with_isOnline true w1) <> []) as Hq.
    { cbn. intros H. apply (f_equal (@List.length QueueItem)) in H.
      rewrite length_app in H. cbn in H. lia. }
    rewrite (processSyncQueue_drains (with_isOnline true w1) eq_refl Hq).
    cbn. repeat split; reflexivity.
Qed.

End Connectivity.

Lemma queued_operation_waits_for_online_witness :
  let w1 := snd (addToSyncQueue examplePlatform steady offline_world) in
  processSyncQueue w1 = (Ok tt, w1)
  /\ List.length (syncQueue w1) = 1%nat
  /\ syncQueue (snd (onOnline w1)) = [].
Proof.
  destruct (queued_operation_waits_for_online examplePlatform steady
              offline_world eq_refl)
    as (item & Hq & Hop & _ & _ & Hidle & _ & Hdrained & _).
  split; [exact Hidle|]. split.
  - rewrite Hq. reflexivity.
  - rewrite Hdrained, Hq. cbn [app syncQueue offline_world with_isOnline
                               empty_world filter].
    unfold throwsNow. rewrite Hop. reflexivity.
Defined.

(** *** Start-up and the migration of old data *)

Lemma area_get_remove {A} (k k' : jsstring) (a : area A) :
  area_get k' (area_remove k a)
  = if str_eqb k k' then None else area_get k' a.
Proof.
  unfold area_remove. induction a as [|[k0 b] a IH]; cbn [filter area_get fst].
  - destruct (str_eqb k k'); reflexivity.
  - destruct (str_eqb k0 k) eqn:E; cbn [negb area_get].
    + apply str_eqb_eq in E. subst k0. rewrite IH.
      destruct (str_eqb k k'); reflexivity.
    + rewrite IH. destruct (str_eqb k0 k') eqn:E'; [|reflexivity].
      apply str_eqb_eq in E'. subst k0. rewrite str_eqb_sym, E. reflexivity.
Qed.

Section Migration.
Variable P : platform.

(** The item ['tasks'] as localStorage holds it. *)
#[local] Abbreviation oldItem w :=
  (area_get (lit "tasks") (taskItems (localStorage w))).

Lemma oldItem_written_task (t : Task) (w : world) :
  truthy (id t) = true -> oldItem (written tasks t w) = oldItem w.
Proof.
  intros Hid. unfold written. destruct (db w); [reflexivity|].
  cbn [localStorage with_localStorage with_items tasks taskItems items].
  rewrite area_get_set.
  pose proof (itemKey_not_store tasks _ Hid) as Hk.
  cbn [storeName tasks] in Hk.
  change (data_id tasks t) with (id t). rewrite Hk. reflexivity.
Qed.

Lemma oldItem_written_event (e : Event) (w : world) :
  oldItem (written analytics e w) = oldItem w.
Proof. unfold written. destruct (db w); reflexivity. Qed.

Lemma db_written {A} (S : store_desc A) (x : A) (w : world) :
  db (written S x w) = None <-> db w = None.
Proof.
  unfold written. destruct (db w) eqn:E; cbn [db with_db with_localStorage];
    rewrite ?E; split; congruence.
Qed.

(** [saveTask] never touches the item ['tasks'], and it neither opens nor
    closes the database. *)
Lemma saveTask_oldItem (task : Task) (w : world) :
  oldItem (snd (saveTask P task w)) = oldItem w
  /\ (db (snd (saveTask P task w)) = None <-> db w = None).
Proof.
  rewrite (saveTask_run P).
  destruct (blank_title (title task)); [split; reflexivity|].
  destruct (title task); try (split; reflexivity).
  destruct (setDefaults P task w) as [[t1|e] w1] eqn:Hrun.
  - pose proof (setDefaults_id_truthy P task t1 w w1 Hrun) as Hid.
    destruct (setDefaults_run P task w) as (t & n & Hrun' & _).
    rewrite Hrun in Hrun'. inversion Hrun'; subst t w1. clear Hrun'.
    rewrite <- (normalised_id t1) in Hid. cbv zeta.
    destruct (storable tasks (normalised t1) (with_tick (S n) w));
      cbn [snd]; [|split; reflexivity].
    split.
    + rewrite oldItem_written_event.
      change (oldItem (with_tick (4 + tick (with_tick (S n) w))
                         (written tasks (normalised t1) (with_tick (S n) w))))
        with (oldItem (written tasks (normalised t1) (with_tick (S n) w))).
      rewrite (oldItem_written_task _ _ Hid). reflexivity.
    + rewrite db_written. cbn [db with_tick]. rewrite db_written.
      cbn [db with_tick]. reflexivity.
  - destruct (setDefaults_run P task w) as (t & n & Hrun' & _).
    rewrite Hrun in Hrun'. discriminate.
Qed.

Lemma importTasks_cons (t : Task) (ts : list Task) (w : world) :
  importTasks P (t :: ts) w
  = match saveTask P t w with
    | (Ok _, w1) => importTasks P ts w1
    | (Throw e, w1) => (Throw e, w1)
    end.
Proof.
  cbn [importTasks for_of]. unfold bind.
  destruct (saveTask P t w) as [[t'|e] w1]; reflexivity.
Qed.

Lemma importTasks_oldItem (ts : list Task) (w : world) :
  oldItem (snd (importTasks P ts w)) = oldItem w
  /\ (db (snd (importTasks P ts w)) = None <-> db w = None).
Proof.
  revert w; induction ts as [|t ts IH]; intros w.
  - split; reflexivity.
  - rewrite importTasks_cons.
    destruct (saveTask_oldItem t w) as [Ho Hd].
    destruct (saveTask P t w) as [[t'|e] w1]; cbn [snd] in *.
    + destruct (IH w1) as [Ho1 Hd1]. rewrite Ho1, Hd1. split; assumption.
    + split; assumption.
Qed.

(** A task with a blank title stops the loop. *)
Lemma importTasks_throws (ts : list Task) (bad : Task) (w : world) :
  In bad ts -> blank_title (title bad) = true ->
  exists e w1, importTasks P ts w = (Throw e, w1).
Proof.
  intros Hin Hbad. revert w; induction ts as [|t ts IH]; intros w;
    [destruct Hin|].
  rewrite importTasks_cons.
  destruct (saveTask P t w) as [[t'|e] w1] eqn:E.
  - destruct Hin as [->|Hin].
    + apply (f_equal fst) in E. cbn [fst] in E.
      pose proof (proj2 (saveTask_throws_validation P bad w) Hbad) as Ht.
      congruence.
    + apply (IH Hin).
  - exists e, w1. reflexivity.
Qed.

Lemma migrateData_run (oldTasks : list Task) (w : world) :
  oldItem w = Some (Many oldTasks) ->
  migrateData P w
  = match importTasks P oldTasks w with
    | (Ok _, w1) => removeOldTasks w1
    | (Throw e, w1) => (Throw e, w1)
    end.
Proof.
  intros Hold. unfold migrateData, bind at 1, get_world.
  cbn [items tasks]. rewrite Hold.
  change (for_of oldTasks (fun task => saveTask P task ;;; ret tt))
    with (importTasks P oldTasks).
  unfold bind.
  destruct (importTasks P oldTasks w) as [[[]|e] w1]; reflexivity.
Qed.

Lemma saveTask_id_truthy (task t' : Task) (w w' : world) :
  saveTask P task w = (Ok t', w') -> truthy (id t') = true.
Proof.
  intros Hrun.
  destruct (saveTask_ok P task t' w w' Hrun) as (t1 & n & Hd & _ & -> & _).
  rewrite normalised_id. apply (setDefaults_id_truthy P task t1 _ _ Hd).
Qed.

(** X21. When [migrateData] finds an array under ['tasks'] in
    localStorage and completes, the item is gone, a task is stored for
    each task of the array (under the id [saveTask] gave it), and running
    the migration again changes nothing. *)
Theorem migrateData_moves_old_tasks
  (oldTasks : list Task) (w w' : world) :
  area_get (lit "tasks") (taskItems (localStorage w)) = Some (Many oldTasks) ->
  migrateData P w = (Ok tt, w') ->
  area_get (lit "tasks") (taskItems (localStorage w')) = None
  /\ (forall task, In task oldTasks ->
        exists (t' : Task) (wa wb : world),
          saveTask P task wa = (Ok t', wb) /\ taskUnder w' (id t') <> None)
  /\ migrateData P w' = (Ok tt, w').
Proof.
  intros Hold Hrun. rewrite (migrateData_run oldTasks w Hold) in Hrun.
  destruct (importTasks P oldTasks w) as [[[]|e] w1] eqn:Himp; [|discriminate].
  unfold removeOldTasks, modify in Hrun. injection Hrun as <-.
  cbn [items tasks with_items].
  set (w' := with_localStorage _ w1).
  assert (area_get (lit "tasks") (taskItems (localStorage w')) = None) as Hgone.
  { subst w'. cbn [localStorage with_localStorage taskItems].
    rewrite area_get_remove, str_eqb_refl. reflexivity. }
  split; [exact Hgone|]. split.
  - intros task Hin.
    destruct (importTasks_persists P oldTasks w w1 Himp task Hin)
      as (t' & wa & wb & Hsave & Hstored).
    exists t', wa, wb. split; [exact Hsave|].
    pose proof (saveTask_id_truthy task t' wa wb Hsave) as Hid.
    subst w'. unfold taskUnder in Hstored |- *.
    cbn [db localStorage with_localStorage taskItems].
    destruct (db w1); [exact Hstored|].
    rewrite area_get_remove.
    pose proof (itemKey_not_store tasks _ Hid) as Hk.
    cbn [storeName tasks] in Hk. rewrite str_eqb_sym, Hk. exact Hstored.
  - unfold migrateData, bind, get_world. cbn [items tasks]. rewrite Hgone.
    reflexivity.
Qed.

(** X22. If the array under ['tasks'] holds a task with a blank title,
    [init] ends with IndexedDB switched off although it opened: the
    migration stops at that task, the manager falls back to localStorage,
    where the old array is still in place and is what [getTasks] reads
    from then on. *)
Theorem init_falls_back_when_migration_fails
  (d : database) (oldTasks : list Task) (bad : Task) (w : world) :
  area_get (lit "tasks") (taskItems (localStorage w)) = Some (Many oldTasks) ->
  In bad oldTasks ->
  blank_title (title bad) = true ->
  exists w',
    init P (Ok d) w = (Ok tt, w')
    /\ db w' = None
    /\ storedTasks w' = oldTasks.
Proof.
  intros Hold Hin Hbad.
  unfold init, try_catch, initIndexedDB, bind at 1, modify.
  rewrite (migrateData_run oldTasks (with_db (Some d) w) Hold).
  destruct (importTasks_oldItem oldTasks (with_db (Some d) w)) as [Ho _].
  destruct (importTasks_throws oldTasks bad (with_db (Some d) w) Hin Hbad)
    as (e & w1 & Hthrow).
  rewrite Hthrow in Ho |- *. cbn [snd] in Ho.
  eexists. split; [reflexivity|]. split; [reflexivity|].
  unfold storedTasks. cbn [db with_db localStorage].
  rewrite Ho. cbn [localStorage with_db]. rewrite Hold. reflexivity.
Qed.

End Migration.

Lemma migrateData_moves_old_tasks_witness :
  exists w',
    migrateData examplePlatform (with_db (Some empty_database) old_tasks_world)
    = (Ok tt, w')
    /\ area_get (lit "tasks") (taskItems (localStorage w')) = None
    /\ migrateData examplePlatform w' = (Ok tt, w').
Proof.
  destruct (migrateData examplePlatform
              (with_db (Some empty_database) old_tasks_world))
    as [[[]|e] w'] eqn:E.
  - exists w'. split; [reflexivity|].
    destruct (migrateData_moves_old_tasks examplePlatform [bill_task; due_task]
                (with_db (Some empty_database) old_tasks_world) w' eq_refl E)
      as (Hgone & _ & Hagain).
    split; assumption.
  - vm_compute in E. discriminate.
Defined.

Lemma init_falls_back_when_migration_fails_witness :
  exists w',
    init examplePlatform (Ok empty_database) bad_old_tasks_world = (Ok tt, w')
    /\ db w' = None
    /\ storedTasks w' = [bill_task; blank_task; due_task].
Proof.
  apply (init_falls_back_when_migration_fails examplePlatform empty_database
           [bill_task; blank_task; due_task] blank_task bad_old_tasks_world).
  - reflexivity.
  - right. left. reflexivity.
  - reflexivity.
Defined.

(** *** The tasks store stays well formed *)

Lemma StronglySorted_filter {A} (R : A -> A -> Prop) (f : A -> bool) (l : list A) :
  StronglySorted R l -> StronglySorted R (filter f l).
Proof.
  induction 1 as [|x l Hs IH Hx]; cbn [filter]; [constructor|].
  destruct (f x); [|exact IH].
  constructor; [exact IH|].
  apply Forall_forall. intros y Hy. apply filter_In in Hy as [Hy _].
  rewrite Forall_forall in Hx. auto.
Qed.

Lemma store_delete_well_formed (k : value) (s : list Task) :
  wellFormedTasks s -> wellFormedTasks (store_delete id k s).
Proof.
  intros [Hsorted Hsaved]. unfold store_delete. split.
  - induction s as [|x s IH]; cbn [filter map]; [constructor|].
    inversion Hsorted as [|? ? Hs Hx]; subst.
    inversion Hsaved as [|? ? _ Hsaved']; subst.
    destruct (negb (key_eqb (id x) k)); cbn [map]; [|auto].
    constructor; [auto|].
    apply Forall_forall. intros y Hy. apply in_map_iff in Hy as (t & <- & Ht).
    apply filter_In in Ht as [Ht _].
    rewrite Forall_forall in Hx. apply Hx. apply in_map. exact Ht.
  - apply Forall_forall. intros x Hx. apply filter_In in Hx as [Hx _].
    rewrite Forall_forall in Hsaved. auto.
Qed.

Section WellFormedWorld.
Variable P : platform.

Lemma wf_same_tasks (w w' : world) (d d' : database) :
  db w = Some d -> db w' = Some d' -> tasksStore d' = tasksStore d ->
  wellFormedWorld w -> wellFormedWorld w'.
Proof.
  intros Hd Hd' Ht (d0 & Hd0 & Hwf). exists d'. split; [exact Hd'|].
  rewrite Ht. congruence.
Qed.

Lemma wf_written_event (e : Event) (w : world) :
  wellFormedWorld w -> wellFormedWorld (written analytics e w).
Proof.
  intros (d & Hd & Hwf). unfold written. rewrite Hd.
  eexists. split; [reflexivity | exact Hwf].
Qed.

Lemma wf_trackEvent (type : jsstring) (data : payload) (w : world) :
  wellFormedWorld w -> wellFormedWorld (snd (trackEvent P type data w)).
Proof.
  intros H. rewrite (trackEvent_run P). cbn [snd].
  apply wf_written_event. exact H.
Qed.

Lemma saveTask_throw_db (task : Task) (e : error) (w w' : world) :
  saveTask P task w = (Throw e, w') -> db w' = db w.
Proof.
  rewrite (saveTask_run P).
  destruct (blank_title (title task)); [intros H; inversion H; reflexivity|].
  destruct (title task); try (intros H; inversion H; reflexivity).
  destruct (setDefaults_run P task w) as (t1 & n & -> & _).
  cbv zeta. destruct (storable tasks (normalised t1) (with_tick (S n) w));
    intros H; inversion H; reflexivity.
Qed.

Lemma wf_saveTask (task : Task) (w : world) :
  wellFormedWorld w -> wellFormedWorld (snd (saveTask P task w)).
Proof.
  intros (d & Hd & Hwf).
  destruct (saveTask P task w) as [[t'|e] w'] eqn:E; cbn [snd].
  - apply (saveTask_keeps_well_formed P task t' w w' d Hd Hwf E).
  - exists d. split; [|exact Hwf]. rewrite (saveTask_throw_db task e w w' E).
    exact Hd.
Qed.

Lemma wf_deleteTask (i : value) (w : world) :
  wellFormedWorld w -> wellFormedWorld (snd (deleteTask P i w)).
Proof.
  intros (d & Hd & Hwf). rewrite (deleteTask_run P i w d Hd).
  destruct (valid_key i); cbn [snd]; [|exists d; auto].
  apply wf_written_event. eexists. split; [reflexivity|].
  cbn [tasksStore]. apply store_delete_well_formed. exact Hwf.
Qed.

Lemma wf_completeTask (i : value) (w : world) :
  wellFormedWorld w -> wellFormedWorld (snd (completeTask P i w)).
Proof.
  intros H. unfold completeTask, try_catch, bind at 1.
  pose proof (getTask_world P i w) as Hg.
  destruct (getTask P i w) as [[f|err] wg]; cbn [snd] in Hg; subst wg;
    [|exact H].
  destruct f as [|found|l]; [exact H| |].
  - unfold bind at 1. rewrite (Utils_Date_now_run P). cbn [ret].
    unfold bind at 1.
    set (task2 := set_completedAt _ _).
    pose proof (wf_saveTask task2 (with_tick (S (tick w)) w) H) as Hs.
    destruct (saveTask P task2 (with_tick (S (tick w)) w)) as [[saved|err] ws];
      cbn [snd] in Hs; [|exact Hs].
    unfold bind. rewrite (trackEvent_run P). cbn [ret snd].
    apply wf_written_event. exact Hs.
  - unfold bind. rewrite (Utils_Date_now_run P). exact H.
Qed.

Lemma wf_setSetting (k : jsstring) (v : value) (w : world) :
  wellFormedWorld w -> wellFormedWorld (snd (setSetting k v w)).
Proof.
  intros (d & Hd & Hwf). rewrite (setSetting_run k v w d Hd).
  eexists. split; [reflexivity | exact Hwf].
Qed.

Lemma wf_importTasks (ts : list Task) (w : world) :
  wellFormedWorld w -> wellFormedWorld (snd (importTasks P ts w)).
Proof.
  revert w; induction ts as [|t ts IH]; intros w H; [exact H|].
  rewrite importTasks_cons.
  pose proof (wf_saveTask t w H) as Hs.
  destruct (saveTask P t w) as [[t'|e] w1]; cbn [snd] in Hs; [|exact Hs].
  apply IH. exact Hs.
Qed.

Lemma wf_importData (json : json_text) (w : world) :
  wellFormedWorld w -> wellFormedWorld (snd (importData P json w)).
Proof.
  intros H. unfold importData, try_catch, bind at 1.
  destruct json as [| |d]; cbn [throw ret]; try exact H.
  destruct (p_tasks d) as [ts|]; [|exact H].
  unfold bind at 1.
  pose proof (wf_importTasks ts w H) as Hi.
  destruct (importTasks P ts w) as [[[]|e] w1]; cbn [snd] in Hi; [|exact Hi].
  unfold bind at 1.
  destruct Hi as (d1 & Hd1 & Hwf1).
  destruct (importSettings_tasks (p_settings d) w1 d1 Hd1)
    as (w2 & d2 & -> & Hd2 & Ht2).
  unfold bind. rewrite (trackEvent_run P). cbn [ret snd].
  apply wf_written_event. exists d2. split; [exact Hd2|].
  rewrite Ht2. exact Hwf1.
Qed.

Lemma wf_migrateData (w : world) :
  wellFormedWorld w -> wellFormedWorld (snd (migrateData P w)).
Proof.
  intros H. unfold migrateData, bind at 1, get_world.
  destruct (area_get (lit "tasks") (items tasks (localStorage w)))
    as [[t|oldTasks]|]; try exact H.
  change (for_of oldTasks (fun task => saveTask P task ;;; ret tt))
    with (importTasks P oldTasks).
  unfold bind.
  pose proof (wf_importTasks oldTasks w H) as Hi.
  destruct (importTasks P oldTasks w) as [[[]|e] w1]; cbn [snd] in Hi;
    [|exact Hi].
  exact Hi.
Qed.

Lemma getAnalytics_world (filters : AnalyticsFilters) (w : world) :
  snd (getAnalytics filters w) = w.
Proof.
  unfold getAnalytics, getFromStore, try_catch, bind, get_world.
  destruct (db w); reflexivity.
Qed.

Lemma wf_deleteEvents (olds : list Event) (w : world) :
  wellFormedWorld w ->
  wellFormedWorld
    (snd (for_of olds (fun event => deleteFromStore analytics (event_id event)) w)).
Proof.
  revert w; induction olds as [|e olds IH]; intros w H; [exact H|].
  cbn [for_of]. unfold bind at 1.
  destruct H as (d & Hd & Hwf).
  unfold deleteFromStore at 1, bind at 1, get_world. rewrite Hd.
  destruct (valid_key (event_id e)); cbn [throw modify snd].
  - apply IH. eexists. split; [reflexivity | exact Hwf].
  - exists d. auto.
Qed.

Lemma wf_cleanupOldData (w : world) :
  wellFormedWorld w -> wellFormedWorld (snd (cleanupOldData P w)).
Proof.
  intros H. unfold cleanupOldData, try_catch, bind at 1, Date_now.
  unfold bind at 1.
  set (filters := {| a_type := VUndefined; a_startDate := SUndefined;
                     a_endDate := _ |}).
  pose proof (getAnalytics_world filters (with_tick (S (tick w)) w)) as Hg.
  destruct (getAnalytics filters (with_tick (S (tick w)) w)) as [[olds|e] wg];
    cbn [snd] in Hg; subst wg; [|exact H].
  unfold bind.
  pose proof (wf_deleteEvents olds (with_tick (S (tick w)) w) H) as Hdel.
  destruct (for_of olds _ (with_tick (S (tick w)) w)) as [[[]|e] w1];
    cbn [snd] in Hdel; exact Hdel.
Qed.

(** X23. With IndexedDB open, if the tasks store is well formed (records
    in strictly increasing key order, each with a non-blank string title,
    a string description, a valid id, a creation date, and a priority,
    category and status of the lists), it is still so after any operation
    of the manager, whether the operation succeeds or fails. *)
Theorem operations_keep_tasks_well_formed
  (w : world) (task : Task) (i : value) (json : json_text)
  (k type : jsstring) (v : value) (data : payload) :
  wellFormedWorld w ->
  wellFormedWorld (snd (saveTask P task w))
  /\ wellFormedWorld (snd (deleteTask P i w))
  /\ wellFormedWorld (snd (completeTask P i w))
  /\ wellFormedWorld (snd (importData P json w))
  /\ wellFormedWorld (snd (migrateData P w))
  /\ wellFormedWorld (snd (setSetting k v w))
  /\ wellFormedWorld (snd (trackEvent P type data w))
  /\ wellFormedWorld (snd (cleanupOldData P w)).
Proof.
  intros H.
  split; [apply wf_saveTask; exact H|].
  split; [apply wf_deleteTask; exact H|].
  split; [apply wf_completeTask; exact H|].
  split; [apply wf_importData; exact H|].
  split; [apply wf_migrateData; exact H|].
  split; [apply wf_setSetting; exact H|].
  split; [apply wf_trackEvent; exact H|].
  apply wf_cleanupOldData; exact H.
Qed.

End WellFormedWorld.

Lemma operations_keep_tasks_well_formed_witness :
  wellFormedWorld empty_world
  /\ wellFormedWorld (snd (saveTask examplePlatform bill_task empty_world)).
Proof.
  assert (wellFormedWorld empty_world) as H.
  { exists empty_database. split; [reflexivity|]. split; constructor. }
  split; [exact H|].
  destruct (operations_keep_tasks_well_formed examplePlatform empty_world
              bill_task VNull Malformed [] [] VNull (FreeData VNull) H)
    as [Hs _].
  exact Hs.
Defined.

(** *** Completing a stored task *)

Section Completing.
Variable P : platform.

Lemma getTask_stored (i : value) (t : Task) (w : world) (d : database) :
  db w = Some d ->
  store_get id i (tasksStore d) = Some t ->
  savedTask t ->
  getTask P i w = (Ok (FOne t), w).
Proof.
  intros Hd Hget Hsaved.
  destruct (store_get_Some _ id i t _ Hget) as [_ Hid].
  destruct Hsaved as (_ & _ & Htruthy & Hkey & _).
  rewrite Hid in Htruthy, Hkey.
  unfold getTask, getFromStore, try_catch, bind, get_world.
  rewrite Hd, Htruthy, Hkey. cbv beta. rewrite Hd.
  change (store_get (keyPath tasks) i (objects tasks d))
    with (store_get id i (tasksStore d)).
  rewrite Hget. reflexivity.
Qed.

Lemma completeTask_stored
  (i : value) (t : Task) (w : world) (d : database) :
  db w = Some d ->
  store_get id i (tasksStore d) = Some t ->
  savedTask t ->
  exists (w' : world) (t' : Task),
    completeTask P i w = (Ok true, w')
    /\ taskUnder w' i = Some t'
    /\ status t' = VString (lit "completed")
    /\ completedAt t' = SInstant (clock P (tick w) + MS_PER_HOUR)
    /\ createdAt t' = createdAt t
    /\ dueDate t' = dueDate t
    /\ priority t' = priority t
    /\ category t' = category t.
Proof.
  intros Hd Hget Hsaved.
  destruct (store_get_Some _ id i t _ Hget) as [_ Hid].
  pose proof Hsaved as (Ht & Hdesc & Htruthy & Hkey & Hcr & Hp & Hc & Hs).
  pose proof (getTask_stored i t w d Hd Hget Hsaved) as Hfound.
  set (task2 := set_completedAt (toISOString (clock P (tick w) + MS_PER_HOUR))
                  (set_status (VString (lit "completed")) t)).
  assert (savedTask task2) as Hsaved2.
  { unfold savedTask, task2. cbn. repeat split; try assumption; reflexivity. }
  destruct (saveTask_again P task2 (with_tick (S (tick w)) w) d Hsaved2 Hd)
    as (t2 & w2 & d2 & Hsave & Hre & Hd2 & Hstore & _).
  destruct Hre as (Rid & Rcr & Rdue & Rco & Rp & Rc & Rs & _).
  exists (written analytics
            (eventAt P (tick w2) (lit "task_completed")
               (TaskCompletedData i (category t2) (priority t2)
                  (if stamp_truthy (dueDate t2)
                   then Some (daysBetween (createdAt t2) (completedAt t2))
                   else None)))
            (with_tick (4 + tick w2) w2)), t2.
  split.
  - unfold completeTask, try_catch, bind at 1. rewrite Hfound.
    unfold bind at 1. rewrite (Utils_Date_now_run P). cbn [ret].
    unfold bind at 1. fold task2. rewrite Hsave.
    unfold bind. rewrite (trackEvent_run P). reflexivity.
  - split.
    + rewrite taskUnder_written_event. unfold taskUnder. rewrite Hd2, Hstore.
      rewrite store_get_put, Rid. unfold task2. cbn [id set_completedAt set_status].
      rewrite Hid, key_eqb_refl. reflexivity.
    + rewrite Rs, Rco, Rcr, Rdue, Rp, Rc. unfold task2. cbn.
      repeat split; reflexivity.
Qed.


(** X24. With IndexedDB open, [completeTask] of the id of a stored,
    well-formed task resolves to [true]; the task stored under that id
    afterwards has the status ['completed'] and the instant of the call as
    [completedAt], and keeps its creation and due dates, priority and
    category. *)
Theorem completeTask_completes_stored_task
  (i : value) (t : Task) (w : world) (d : database) :
  db w = Some d ->
  store_get id i (tasksStore d) = Some t ->
  savedTask t ->
  exists (w' : world) (t' : Task),
    completeTask P i w = (Ok true, w')
    /\ taskUnder w' i = Some t'
    /\ status t' = VString (lit "completed")
    /\ completedAt t' = SInstant (clock P (tick w) + MS_PER_HOUR)
    /\ createdAt t' = createdAt t
    /\ dueDate t' = dueDate t
    /\ priority t' = priority t
    /\ category t' = category t.
Proof. exact (completeTask_stored i t w d). Qed.

End Completing.

Lemma completeTask_completes_stored_task_witness :
  exists w' t',
    completeTask examplePlatform (VString (lit "t1")) two_tasks_world = (Ok true, w')
    /\ taskUnder w' (VString (lit "t1")) = Some t'
    /\ status t' = VString (lit "completed").
Proof.
  destruct (completeTask_completes_stored_task examplePlatform
              (VString (lit "t1")) dated_task two_tasks_world
              (database_of two_tasks_world) eq_refl eq_refl)
    as (w' & t' & Hrun & Hunder & Hstatus & _).
  - unfold savedTask, dated_task. cbn.
    repeat split; try reflexivity; eexists; try split; reflexivity.
  - exists w', t'. repeat split; assumption.
Defined.

End StorageSetupFacts.

(** ** The task screen and its utilities *)

Module TaskScreenFacts.
Import StorageManager Vocabulary Utils TaskManager StorageExamples ScreenExamples.
Import StorageFacts StorageSetupFacts.

(** *** The form *)

Lemma trimStart_head (s : jsstring) (c : N) (rest : jsstring) :
  trimStart s = c :: rest -> isWhiteSpace c = false.
Proof.
  induction s as [|x s IH]; cbn [trimStart]; [discriminate|].
  destruct (isWhiteSpace x) eqn:E; [exact IH|].
  intros H. inversion H; subst. exact E.
Qed.

(** What [trim] returns is empty or has ink. *)
Lemma trim_trim (s : jsstring) :
  trim s <> [] -> isEmpty (trim (trim s)) = false.
Proof.
  intros H. destruct (isEmpty (trim (trim s))) eqn:E; [|reflexivity].
  apply isEmpty_nil in E. apply trim_nil in E.
  unfold trim in E, H. rewrite forallb_rev in E.
  destruct (trimStart (rev (trimStart s))) as [|c rest] eqn:Et;
    [exfalso; apply H; reflexivity|].
  cbn [forallb] in E. rewrite (trimStart_head _ c rest Et) in E. discriminate.
Qed.

Lemma orElse_nil (x : option jsstring) :
  orElse x [] = match x with Some s => s | None => [] end.
Proof. destruct x as [[|c s]|]; reflexivity. Qed.

Lemma truthy_string (s : jsstring) :
  truthy (VString s) = negb (Nat.eqb (List.length s) 0).
Proof. destruct s; reflexivity. Qed.

(** The title error of the form, by the length of the trimmed title. *)
Lemma form_title_error (form : TaskForm) :
  let t := match taskTitle form with Some s => trim s | None => [] end in
  title (getTaskFormData form) = VString t
  /\ (err_title (errors (validateTaskForm (getTaskFormData form))) = None
      <-> (3 <= List.length t <= 100)%nat).
Proof.
  intros t.
  assert (title (getTaskFormData form) = VString t) as Ht.
  { unfold getTaskFormData, t. cbn [title]. rewrite orElse_nil.
    destruct (taskTitle form); reflexivity. }
  split; [exact Ht|].
  unfold validateTaskForm. cbn [errors err_title]. rewrite Ht.
  unfold isRequired, minLength, maxLength. cbn [toString].
  rewrite truthy_string.
  assert (t <> [] -> isEmpty (trim t) = false) as Htrim.
  { unfold t. destruct (taskTitle form) as [s|]; [apply trim_trim | congruence]. }
  destruct t as [|c t'].
  - cbn. split; [discriminate | lia].
  - rewrite Htrim by discriminate. cbn [negb].
    cbn [List.length Nat.eqb negb andb orb].
    destruct (3 <=? S (List.length t'))%nat eqn:E3; cbn [negb].
    + destruct (S (List.length t') <=? 100)%nat eqn:E100; cbn [negb].
      * apply Nat.leb_le in E3, E100. split; [lia | reflexivity].
      * apply Nat.leb_gt in E100. split; [discriminate | lia].
    + apply Nat.leb_gt in E3. split; [discriminate | lia].
Qed.

Lemma form_valid_title (form : TaskForm) :
  isValid (validateTaskForm (getTaskFormData form)) = true ->
  err_title (errors (validateTaskForm (getTaskFormData form))) = None.
Proof.
  unfold validateTaskForm. cbn [isValid errors err_title].
  destruct (if negb (isRequired _) then _ else _); [discriminate | reflexivity].
Qed.

(** X25. The task form is accepted exactly when the title, trimmed, has
    from 3 to 100 characters, the description, trimmed, has at most 500,
    and the due date, if one is given, can be read as a date. *)
Theorem form_accepts_titles_of_3_to_100 (form : TaskForm) :
  let t := match taskTitle form with Some s => trim s | None => [] end in
  let d := match taskDescription form with Some s => trim s | None => [] end in
  isValid (validateTaskForm (getTaskFormData form)) = true
  <-> (3 <= List.length t <= 100)%nat
      /\ (List.length d <= 500)%nat
      /\ taskDueDate form <> SInvalid.
Proof.
  intros t d.
  destruct (form_title_error form) as [_ Htitle]. fold t in Htitle.
  assert (err_description (errors (validateTaskForm (getTaskFormData form))) = None
          <-> (List.length d <= 500)%nat) as Hdesc.
  { unfold validateTaskForm. cbn [errors err_description].
    unfold getTaskFormData. cbn [description]. rewrite orElse_nil.
    fold d. change (match option_map trim (taskDescription form) with
                    | Some s => s | None => [] end) with d ||
      (replace (match option_map trim (taskDescription form) with
                | Some s => s | None => [] end) with d
        by (unfold d; destruct (taskDescription form); reflexivity)).
    unfold maxLength. cbn [toString]. rewrite truthy_string.
    destruct d as [|c d']; cbn [List.length Nat.eqb negb andb orb].
    - split; [lia | reflexivity].
    - destruct (S (List.length d') <=? 500)%nat eqn:E; cbn [negb].
      + apply Nat.leb_le in E. split; [lia | reflexivity].
      + apply Nat.leb_gt in E. split; [discriminate | lia]. }
  assert (err_dueDate (errors (validateTaskForm (getTaskFormData form))) = None
          <-> taskDueDate form <> SInvalid) as Hdue.
  { unfold validateTaskForm. cbn [errors err_dueDate].
    unfold getTaskFormData. cbn [dueDate].
    destruct (taskDueDate form); cbn; split; intros H;
      try reflexivity; try discriminate; try congruence. }
  rewrite <- Htitle, <- Hdesc, <- Hdue.
  unfold validateTaskForm at 1. cbn [isValid errors err_title err_description err_dueDate].
  set (e1 := if negb (isRequired _) then _ else _).
  set (e2 := if truthy _ && _ then _ else _).
  set (e3 := if stamp_truthy _ then _ else _).
  unfold validateTaskForm. cbn [errors err_title err_description err_dueDate].
  fold e1 e2 e3.
  destruct e1, e2, e3; split; try discriminate; try tauto;
    intros (H1 & H2 & H3); congruence.
Qed.

(** *** Submitting the form *)

Section Submitting.
Variable P : platform.

(** X26. A form whose trimmed title has fewer than 3 or more than 100
    characters never reaches the store: [handleTaskSubmit] leaves the
    manager's state untouched, raises no toast, and shows an error on the
    title. *)
Theorem short_or_long_title_is_not_saved
  (form : TaskForm) (editingTask : value) (u : screen) (w : world) :
  let t := match taskTitle form with Some s => trim s | None => [] end in
  (List.length t < 3 \/ 100 < List.length t)%nat ->
  exists u' e,
    handleTaskSubmit P form editingTask u w = (Ok u', w)
    /\ toasts u' = toasts u
    /\ currentTasks u' = currentTasks u
    /\ formErrors u' = Some e
    /\ err_title e <> None.
Proof.
  intros t Hlen.
  destruct (form_title_error form) as [_ Htitle]. fold t in Htitle.
  assert (err_title (errors (validateTaskForm (getTaskFormData form))) <> None)
    as Herr by (rewrite Htitle; lia).
  assert (isValid (validateTaskForm (getTaskFormData form)) = false) as Hinv.
  { destruct (isValid _) eqn:E; [|reflexivity].
    apply form_valid_title in E. contradiction. }
  unfold handleTaskSubmit, try_catch. cbv zeta. rewrite Hinv. cbn [negb ret].
  eexists. eexists. split; [reflexivity|].
  cbn [showFormErrors toasts currentTasks formErrors].
  repeat split. exact Herr.
Qed.

Lemma loadTasks_run (u : screen) (w : world) :
  loadTasks P u w
  = (Ok {| currentTasks := Array_sort compareTasks (storedTasks w);
           toasts := toasts u; formErrors := formErrors u |}, w).
Proof.
  unfold loadTasks, try_catch, bind. rewrite (getTasks_all P). reflexivity.
Qed.

(** X27. With IndexedDB open, submitting a valid form for a new task
    stores a task whose title is the trimmed title of the form,
    HTML-escaped; the screen then lists it, the form errors are cleared,
    the toast says the task was created, and a [task_created] event
    carrying the id of the task has been recorded. *)
Theorem valid_form_creates_task
  (form : TaskForm) (u : screen) (w : world) (d : database) :
  db w = Some d ->
  isValid (validateTaskForm (getTaskFormData form)) = true ->
  let t := match taskTitle form with Some s => trim s | None => [] end in
  exists (u' : screen) (w' : world) (t' : Task) (e : Event),
    handleTaskSubmit P form VUndefined u w = (Ok u', w')
    /\ persistedTask w' t'
    /\ title t' = VString (escapeText t)
    /\ In t' (currentTasks u')
    /\ formErrors u' = None
    /\ toasts u'
       = toasts u ++ [{| message := lit "Tarefa criada com sucesso!";
                         toastType := lit "success" |}]
    /\ In e (recordedEvents w')
    /\ event_type e = lit "task_created"
    /\ data e = TaskSavedData (id t') (category t') (priority t').
Proof.
  intros Hd Hvalid t.
  pose proof (form_valid_title form Hvalid) as Herr.
  destruct (form_title_error form) as [Htitle Hlen]. fold t in Htitle, Hlen.
  apply Hlen in Herr.
  assert (isEmpty (trim t) = false) as Htrim.
  { unfold t in *. destruct (taskTitle form) as [s|].
    - apply trim_trim. intros H. rewrite H in Herr. cbn in Herr. lia.
    - cbn in Herr. lia. }
  destruct (saveTask_accepts P (getTaskFormData form) w t Htitle Htrim)
    as (t' & w1 & Hsave); [right; left; reflexivity|].
  assert (db w <> None) as Hdb by congruence.
  pose proof (saveTask_persists P _ _ _ _ Hsave) as Hpers.
  destruct (saveTask_title P _ _ _ _ Hsave) as (s & Hs & Ht').
  rewrite Htitle in Hs. inversion Hs; subst s. clear Hs.
  set (ev := eventAt P (tick w1) (lit "task_created")
               (TaskSavedData (id t') (category t') (priority t'))).
  exists {| currentTasks := Array_sort compareTasks (storedTasks w1);
            toasts := toasts u
                      ++ [{| message := lit "Tarefa criada com sucesso!";
                             toastType := lit "success" |}];
            formErrors := None |},
    (written analytics ev (with_tick (4 + tick w1) w1)), t', ev.
  split.
  { unfold handleTaskSubmit, try_catch. cbv zeta. rewrite Hvalid.
    cbn [negb truthy]. unfold bind at 1. rewrite Hsave.
    unfold bind at 1. rewrite loadTasks_run.
    unfold bind. rewrite (trackEvent_run P). reflexivity. }
  split; [apply persisted_after_event; exact Hpers|].
  split; [exact Ht'|].
  split; [apply (getTasks_after_save P _ _ _ _ Hdb Hsave)|].
  split; [reflexivity|]. split; [reflexivity|].
  split; [apply recorded_written|].
  split; reflexivity.
Qed.

End Submitting.

Lemma short_or_long_title_is_not_saved_witness :
  exists u',
    handleTaskSubmit examplePlatform short_form VUndefined blank_screen empty_world
    = (Ok u', empty_world)
    /\ toasts u' = [].
Proof.
  destruct (short_or_long_title_is_not_saved examplePlatform short_form
              VUndefined blank_screen empty_world)
    as (u' & e & Hrun & Htoasts & _).
  - left. vm_compute. lia.
  - exists u'. split; assumption.
Defined.

Lemma valid_form_creates_task_witness :
  exists u' w' t',
    handleTaskSubmit examplePlatform bill_form VUndefined blank_screen empty_world
    = (Ok u', w')
    /\ persistedTask w' t'
    /\ title t' = VString (lit "Pagar conta")
    /\ In t' (currentTasks u').
Proof.
  destruct (valid_form_creates_task examplePlatform bill_form blank_screen
              empty_world empty_database eq_refl)
    as (u' & w' & t' & e & Hrun & Hpers & Htitle & Hin & _).
  - vm_compute. reflexivity.
  - exists u', w', t'. repeat split; assumption.
Defined.

(** *** Toggling and bulk deletion *)

Section Toggling.
Variable P : platform.

(** X28. With IndexedDB open, [toggleTaskComplete] of the id of a stored,
    well-formed task flips its status: a completed task is stored again as
    pending with [completedAt] set to [null], any other task is stored as
    completed; the screen then lists the stored tasks, and the toast says
    which of the two happened. *)
Theorem toggleTaskComplete_flips_status
  (i : value) (t : Task) (u : screen) (w : world) (d : database) :
  db w = Some d ->
  store_get id i (tasksStore d) = Some t ->
  savedTask t ->
  exists (u' : screen) (w' : world) (t' : Task),
    toggleTaskComplete P i u w = (Ok u', w')
    /\ taskUnder w' i = Some t'
    /\ Permutation (currentTasks u') (storedTasks w')
    /\ if strict_eq (status t) (VString (lit "completed"))
       then status t' = VString (lit "pending")
            /\ completedAt t' = SNull
            /\ toasts u'
               = toasts u ++ [{| message := lit "Tarefa marcada como pendente";
                                 toastType := lit "info" |}]
       else status t' = VString (lit "completed")
            /\ completedAt t' = SInstant (clock P (tick w) + MS_PER_HOUR)
            /\ toasts u'
               = toasts u ++ [{| message := lit "Tarefa conclu" ++ [237]%N
                                            ++ lit "da! " ++ [55356; 57225]%N;
                                 toastType := lit "success" |}].
Proof.
  intros Hd Hget Hsaved.
  pose proof (getTask_stored P i t w d Hd Hget Hsaved) as Hfound.
  destruct (store_get_Some _ id i t _ Hget) as [_ Hid].
  unfold toggleTaskComplete, try_catch, bind at 1. rewrite Hfound.
  destruct (strict_eq (status t) (VString (lit "completed"))) eqn:Es.
  - set (task2 := set_completedAt SNull (set_status (VString (lit "pending")) t)).
    assert (savedTask task2) as Hsaved2.
    { destruct Hsaved as (Ht & Hdesc & Htruthy & Hkey & Hcr & Hp & Hc & Hs).
      unfold savedTask, task2. cbn. repeat split; try assumption; reflexivity. }
    destruct (saveTask_again P task2 w d Hsaved2 Hd)
      as (t2 & w2 & d2 & Hsave & Hre & Hd2 & Hstore & _).
    destruct Hre as (Rid & _ & _ & Rco & _ & _ & Rs & _).
    unfold bind at 1. unfold bind at 1. rewrite Hsave. cbn [ret].
    rewrite loadTasks_run.
    eexists. exists w2, t2. split; [reflexivity|].
    split.
    { unfold taskUnder. rewrite Hd2, Hstore, store_get_put, Rid.
      unfold task2. cbn [id set_completedAt set_status].
      rewrite Hid, key_eqb_refl. reflexivity. }
    split; [apply Array_sort_perm|].
    rewrite Rs, Rco. unfold task2. cbn. repeat split; reflexivity.
  - destruct (completeTask_stored P i t w d Hd Hget Hsaved)
      as (w2 & t2 & Hrun & Hunder & Hs & Hco & _).
    unfold bind at 1. unfold bind at 1. rewrite Hrun. cbn [ret].
    rewrite loadTasks_run.
    eexists. exists w2, t2. split; [reflexivity|].
    split; [exact Hunder|]. split; [apply Array_sort_perm|].
    repeat split; assumption.
Qed.

End Toggling.

Lemma toggleTaskComplete_flips_status_witness :
  exists u' w' t',
    toggleTaskComplete examplePlatform (VString (lit "t1")) blank_screen done_world
    = (Ok u', w')
    /\ taskUnder w' (VString (lit "t1")) = Some t'
    /\ status t' = VString (lit "pending")
    /\ completedAt t' = SNull.
Proof.
  destruct (toggleTaskComplete_flips_status examplePlatform (VString (lit "t1"))
              done_task blank_screen done_world (database_of done_world)
              eq_refl eq_refl)
    as (u' & w' & t' & Hrun & Hunder & _ & Hflip).
  - unfold savedTask, done_task, dated_task. cbn.
    repeat split; try reflexivity; eexists; try split; reflexivity.
  - exists u', w', t'. cbn in Hflip. destruct Hflip as (Hs & Hc & _).
    repeat split; assumption.
Defined.

Section BulkDeleting.
Variable P : platform.

(** The loop of [bulkDelete]: the ids that are valid keys are deleted one
    after the other, the others are passed over. *)
Lemma bulkDelete_loop (taskIds : list value) (w : world) (d : database) :
  db w = Some d ->
  exists (w' : world) (d' : database),
    for_of taskIds (fun taskId => deleteTask P taskId ;;; ret tt) w = (Ok tt, w')
    /\ db w' = Some d'
    /\ tasksStore d'
       = fold_left (fun s i => if valid_key i then store_delete id i s else s)
                   taskIds (tasksStore d).
Proof.
  revert w d; induction taskIds as [|i ids IH]; intros w d Hd; cbn [for_of fold_left].
  - exists w, d. auto.
  - unfold bind at 1. unfold bind at 1.
    rewrite (deleteTask_run P i w d Hd).
    destruct (valid_key i); cbn [ret].
    + unfold written. cbn [db with_tick with_db].
      set (d1 := with_objects analytics _ _).
      set (w1 := with_db (Some d1) _).
      destruct (IH w1 d1 eq_refl) as (w' & d' & Hrun & Hd' & Ht).
      exists w', d'. auto.
    + destruct (IH w d Hd) as (w' & d' & Hrun & Hd' & Ht).
      exists w', d'. auto.
Qed.

Lemma store_get_delete_all (taskIds : list value) (s : list Task) (k : value) :
  store_get id k
    (fold_left (fun s i => if valid_key i then store_delete id i s else s)
               taskIds s)
  = if existsb (fun i => valid_key i && key_eqb k i) taskIds then None
    else store_get id k s.
Proof.
  revert s; induction taskIds as [|i ids IH]; intros s; cbn [fold_left existsb].
  - reflexivity.
  - rewrite IH. destruct (valid_key i); cbn [andb orb]; [|reflexivity].
    rewrite store_get_delete.
    destruct (key_eqb k i); cbn [orb]; [|reflexivity].
    destruct (existsb _ ids); reflexivity.
Qed.

(** X29. With IndexedDB open, a confirmed [bulkDelete] leaves no task
    stored under any of the given ids that is a valid key, and every task
    under another id as it was; the ids that are not valid keys are passed
    over without notice; the screen then lists the tasks that are stored,
    and the toast counts all the ids given. *)
Theorem bulkDelete_deletes_the_given_ids
  (taskIds : list value) (u : screen) (w : world) (d : database) :
  db w = Some d ->
  exists (u' : screen) (w' : world),
    bulkDelete P taskIds true u w = (Ok u', w')
    /\ (forall i, In i taskIds -> valid_key i = true -> taskUnder w' i = None)
    /\ (forall k, ~ In k taskIds -> taskUnder w' k = taskUnder w k)
    /\ Permutation (currentTasks u') (storedTasks w')
    /\ toasts u'
       = toasts u
         ++ [{| message := decimal (Z.of_nat (List.length taskIds))
                           ++ lit " tarefas exclu" ++ [237]%N ++ lit "das";
                toastType := lit "success" |}].
Proof.
  intros Hd.
  destruct (bulkDelete_loop taskIds w d Hd) as (w' & d' & Hrun & Hd' & Ht).
  eexists. exists w'. split.
  { unfold bulkDelete, try_catch. cbn [negb]. unfold bind at 1. rewrite Hrun.
    unfold bind. rewrite loadTasks_run. reflexivity. }
  split.
  { intros i Hin Hv. unfold taskUnder. rewrite Hd', Ht, store_get_delete_all.
    assert (existsb (fun j => valid_key j && key_eqb i j) taskIds = true) as ->;
      [|reflexivity].
    apply existsb_exists. exists i. split; [exact Hin|].
    rewrite Hv, key_eqb_refl. reflexivity. }
  split.
  { intros k Hk. unfold taskUnder. rewrite Hd, Hd', Ht, store_get_delete_all.
    assert (existsb (fun j => valid_key j && key_eqb k j) taskIds = false) as ->;
      [|reflexivity].
    destruct (existsb _ taskIds) eqn:E; [|reflexivity].
    apply existsb_exists in E as (j & Hj & Hkj).
    apply andb_true_iff in Hkj as [_ Hkj]. apply key_eqb_eq in Hkj.
    subst j. contradiction. }
  split; [apply Array_sort_perm | reflexivity].
Qed.

End BulkDeleting.

Lemma bulkDelete_deletes_the_given_ids_witness :
  exists u' w',
    bulkDelete examplePlatform [VString (lit "t1"); VNull] true blank_screen
      two_tasks_world = (Ok u', w')
    /\ taskUnder w' (VString (lit "t1")) = None
    /\ taskUnder w' (VString (lit "t2")) = Some undated_task.
Proof.
  destruct (bulkDelete_deletes_the_given_ids examplePlatform
              [VString (lit "t1"); VNull] blank_screen two_tasks_world
              (database_of two_tasks_world) eq_refl)
    as (u' & w' & Hrun & Hgone & Hkept & _).
  exists u', w'. split; [exact Hrun|]. split.
  - apply Hgone; [left; reflexivity | reflexivity].
  - rewrite Hkept; [reflexivity|].
    intros [H|[H|[]]]; discriminate.
Defined.

(** *** Categories *)

Lemma categories_ids : map cat_id categories = taskCategories.
Proof. reflexivity. Qed.

Lemma find_category (i : value) :
  match find (fun cat => strict_eq (VString (cat_id cat)) i) categories with
  | Some cat => i = VString (cat_id cat) /\ In cat categories
  | None => array_includes taskCategories i = false
  end.
Proof.
  unfold array_includes. rewrite <- categories_ids.
  induction categories as [|c cs IH]; cbn [find map existsb]; [reflexivity|].
  destruct (strict_eq (VString (cat_id c)) i) eqn:E.
  - split; [|left; reflexivity].
    destruct i; cbn in E; try discriminate.
    apply str_eqb_eq in E. congruence.
  - cbn [orb]. destruct (find _ cs).
    + destruct IH as [Hi Hin]. split; [exact Hi | right; exact Hin].
    + exact IH.
Qed.

(** X30. [getCategory] always returns an entry of the category table, and
    its id is the category [saveTask] stores for the same input: the id
    itself if it is one of the eight, ['outros'] otherwise. *)
Theorem getCategory_agrees_with_saveTask (task : Task) :
  In (getCategory (category task)) categories
  /\ category (validateCategory task)
     = VString (cat_id (getCategory (category task))).
Proof.
  unfold getCategory, validateCategory.
  pose proof (find_category (category task)) as H.
  destruct (find _ categories) as [cat|].
  - destruct H as [Hi Hin]. split; [exact Hin|].
    assert (array_includes taskCategories (category task) = true) as ->.
    { rewrite Hi. apply array_includes_In. rewrite <- categories_ids, map_map.
      apply (in_map (fun c => VString (cat_id c))). exact Hin. }
    cbn [negb]. exact Hi.
  - rewrite H. cbn [negb category set_category]. split; [|reflexivity].
    cbn. repeat (try (left; reflexivity); right).
Qed.

End TaskScreenFacts.
